(** * A CLF-QP whole-body controller: model of [controllers/clf_controller.py]

    The controller is written against numpy and pydrake.  Arrays are modelled
    as lists of real numbers (a 2-D array is the list of its rows), every
    numpy operation that checks shapes returns a result that is either a
    value or the Python exception it raises, and the methods of
    [CLFController], which mutate [self], are written in a state-and-exception
    monad over the controller object.  Floating-point numbers are idealised
    as real numbers: rounding is not modelled. *)

From Stdlib Require Import Reals Lra Lia List Bool Arith.
Import ListNotations.
Open Scope R_scope.

Set Implicit Arguments.

(** ** Python exceptions and results *)

Inductive exn : Type :=
| ValueError | IndexError | TypeError | AttributeError
| AssertionError | RuntimeError.

Inductive res (A : Type) : Type :=
| Ok (a : A)
| Raise (e : exn).

Arguments Ok {A} a.
Arguments Raise {A} e.

Definition rbind {A B : Type} (r : res A) (k : A -> res B) : res B :=
  match r with
  | Ok a => k a
  | Raise e => Raise e
  end.

Notation "x <~ r ;; k" := (rbind r (fun x => k))
  (at level 61, r at next level, right associativity).

(** ** The numpy operations the controller uses *)

Module np.

Definition vec := list R.
Definition mat := list vec.

Definition nrows (A : mat) : nat := length A.
Definition ncols (A : mat) : nat :=
  match A with
  | [] => 0%nat
  | r :: _ => length r
  end.

(** [has_shape r c A]: the array [A] has shape [(r, c)]. *)
Definition has_shape (r c : nat) (A : mat) : bool :=
  (length A =? r)%nat && forallb (fun row => (length row =? c)%nat) A.

Fixpoint map2 (f : R -> R -> R) (u v : vec) : vec :=
  match u, v with
  | a :: u', b :: v' => f a b :: map2 f u' v'
  | _, _ => []
  end.

(** Elementwise operation on 1-D arrays with numpy's broadcasting rule:
    equal lengths, or one operand of length one. *)
Definition broadcast (f : R -> R -> R) (u v : vec) : res vec :=
  if (length u =? length v)%nat then Ok (map2 f u v)
  else match u, v with
       | [a], _ => Ok (map (f a) v)
       | _, [b] => Ok (map (fun a => f a b) u)
       | _, _ => Raise ValueError
       end.

Definition add := broadcast Rplus.
Definition sub := broadcast Rminus.

(** [k * u] for a scalar [k]. *)
Definition scale (k : R) (u : vec) : vec := map (Rmult k) u.

Fixpoint dotR (u v : vec) : R :=
  match u, v with
  | a :: u', b :: v' => a * b + dotR u' v'
  | _, _ => 0
  end.

Definition matvecR (A : mat) (v : vec) : vec := map (fun r => dotR r v) A.

Fixpoint vecmatR (c : nat) (u : vec) (A : mat) : vec :=
  match u, A with
  | a :: u', r :: A' => map2 Rplus (scale a r) (vecmatR c u' A')
  | _, _ => repeat 0 c
  end.

(** [u @ v] for two 1-D arrays. *)
Definition dot (u v : vec) : res R :=
  if (length u =? length v)%nat then Ok (dotR u v) else Raise ValueError.

(** [A @ v] for a 2-D array and a 1-D array. *)
Definition matvec (A : mat) (v : vec) : res vec :=
  if forallb (fun r => (length r =? length v)%nat) A
  then Ok (matvecR A v) else Raise ValueError.

(** [u @ A] for a 1-D array and a 2-D array. *)
Definition vecmat (u : vec) (A : mat) : res vec :=
  if (length u =? nrows A)%nat
  then Ok (vecmatR (ncols A) u A) else Raise ValueError.

(** [A @ B] for two 2-D arrays. *)
Definition matmul (A B : mat) : res mat :=
  if forallb (fun r => (length r =? nrows B)%nat) A
  then Ok (map (fun r => vecmatR (ncols B) r B) A) else Raise ValueError.

Definition transpose (c : nat) (A : mat) : mat :=
  map (fun j => map (fun r => nth j r 0) A) (seq 0 c).

(** [np.vstack([A, B])] for 2-D arrays. *)
Definition vstack (A B : mat) : res mat :=
  match A, B with
  | [], _ => Ok B
  | _, [] => Ok A
  | _, _ => if (ncols A =? ncols B)%nat then Ok (A ++ B) else Raise ValueError
  end.

(** [np.array(rows)] for a list of 1-D arrays: the rows must agree in length. *)
Definition array2 (rows : list vec) : res mat :=
  if forallb (fun r => (length r =? ncols rows)%nat) rows
  then Ok rows else Raise ValueError.

(** [a[mask]] for a list [mask] of booleans indexing the first axis. *)
Fixpoint select {A : Type} (l : list A) (mask : list bool) : list A :=
  match l, mask with
  | a :: l', b :: mask' => if b then a :: select l' mask' else select l' mask'
  | _, _ => []
  end.

Definition getmask {A : Type} (l : list A) (mask : list bool) : res (list A) :=
  if (length mask =? length l)%nat then Ok (select l mask) else Raise IndexError.

(** [a.flatten()] of a 2-D array. *)
Definition flatten (A : mat) : vec := concat A.

Definition zeros (r c : nat) : mat := repeat (repeat 0 c) r.

Definition eye (n : nat) : mat :=
  map (fun i => map (fun j => if (i =? j)%nat then 1 else 0) (seq 0 n)) (seq 0 n).

(** [np.block([[A, B], [C, D]])]. *)
Definition hcat (A B : mat) : mat := map (fun p => fst p ++ snd p) (combine A B).
Definition block (A B C D : mat) : mat := hcat A B ++ hcat C D.

(** [sum(flags)] and [any(flags)] for a list of booleans. *)
Definition sum (flags : list bool) : nat := length (filter (fun b => b) flags).
Definition any (flags : list bool) : bool := existsb (fun b => b) flags.

End np.

Import np.

(** ** The pydrake mathematical program *)

(** A decision variable is identified by the name it was declared with and
    its index in the declared block: ['vd'], ['tau'], ['f_j'], ['delta']. *)
Inductive var_name : Type :=
| n_vd | n_tau | n_f (j : nat) | n_delta.

Definition var : Type := (var_name * nat)%type.

(** A bound of a linear constraint: a real number or an infinity. *)
Inductive bound : Type :=
| NegInf | Fin (r : R) | PosInf.

Inductive cost : Type :=
| LinearCost (a : vec) (b : R) (vars : list var)
| JacobianTypeCost (J : mat) (vars : list var) (Jdv xdd_nom : vec) (weight : R).

Inductive constraint : Type :=
| LinearConstraint (A : mat) (lb ub : list bound) (vars : list var)
| DynamicsConstraint (M : mat) (Cv tau_g : vec) (S : mat) (J_c : list mat)
    (vd tau : list var) (f_c : list (list var))
| FrictionPyramidConstraint (f : list var)
| ContactConstraint (J_cj : mat) (Jdv_cj v : vec) (vd : list var).

Record MathematicalProgram : Type := mkMP {
  decision_variables : list var;
  costs : list cost;
  constraints : list constraint
}.

Definition empty_program : MathematicalProgram := mkMP [] [] [].

(** [mp.NewContinuousVariables(n, 1, name)]. *)
Definition new_vars (name : var_name) (n : nat) : list var :=
  map (fun i => (name, i)) (seq 0 n).

Definition declare (m : MathematicalProgram) (vs : list var) : MathematicalProgram :=
  mkMP (decision_variables m ++ vs) (costs m) (constraints m).

Definition add_cost (m : MathematicalProgram) (c : cost) : MathematicalProgram :=
  mkMP (decision_variables m) (costs m ++ [c]) (constraints m).

Definition add_constraint (m : MathematicalProgram) (c : constraint)
  : MathematicalProgram :=
  mkMP (decision_variables m) (costs m) (constraints m ++ [c]).

(** What the solver hands back: a success flag and a value for every
    decision variable. *)
Record MathematicalProgramResult : Type := mkResult {
  is_success : bool;
  GetSolution : var -> R
}.

(** *** Meaning of the constraints *)

Definition lower_ok (l : bound) (y : R) : Prop :=
  match l with
  | NegInf => True
  | Fin a => a <= y
  | PosInf => False
  end.

Definition upper_ok (y : R) (u : bound) : Prop :=
  match u with
  | NegInf => False
  | Fin b => y <= b
  | PosInf => True
  end.

(** Rows of [lb <= A x <= ub]. *)
Fixpoint rows_ok (A : mat) (lb ub : list bound) (x : vec) : Prop :=
  match A, lb, ub with
  | r :: A', l :: lb', u :: ub' =>
      lower_ok l (dotR r x) /\ upper_ok (dotR r x) u /\ rows_ok A' lb' ub' x
  | _, _, _ => True
  end.

Fixpoint vsum (n : nat) (vs : list vec) : vec :=
  match vs with
  | [] => repeat 0 n
  | v :: vs' => map2 Rplus v (vsum n vs')
  end.

Section Semantics.

(** The static friction coefficient of the friction pyramid and the damping
    coefficient of the no-slip constraint are constants of the parent
    class. *)
Variable mu : R.
Variable contact_damping : R.

Variable sol : var -> R.

Definition value (vars : list var) : vec := map sol vars.

(** Modelled from the spec: [AddDynamicsConstraint], [AddFrictionPyramidConstraint]
    and [AddContactConstraint] belong to the parent class
    [controllers/inverse_dynamics_controller.py]; their meaning follows
    constraints 3, 4 and 5 of the control law engine:
    [M vd + Cv + tau_g = S' tau + sum_j J_c[j]' f_c[j]], a four-facet pyramid
    [|f_x| <= mu f_z], [|f_y| <= mu f_z], and
    [J_cj vd + Jdv_cj + damping * J_cj v = 0]. *)
Definition holds (c : constraint) : Prop :=
  match c with
  | LinearConstraint A lb ub vars => rows_ok A lb ub (value vars)
  | DynamicsConstraint M Cv tau_g S_ J_c vd tau f_c =>
      let n := length vd in
      map2 Rplus (map2 Rplus (matvecR M (value vd)) Cv) tau_g =
      map2 Rplus (vecmatR n (value tau) S_)
        (vsum n (map (fun Jf => vecmatR n (value (snd Jf)) (fst Jf))
                     (combine J_c f_c)))
  | FrictionPyramidConstraint f =>
      match value f with
      | [fx; fy; fz] =>
          - (mu * fz) <= fx <= mu * fz /\ - (mu * fz) <= fy <= mu * fz
      | _ => False
      end
  | ContactConstraint J_cj Jdv_cj v vd =>
      map2 Rplus (map2 Rplus (matvecR J_cj (value vd)) Jdv_cj)
        (scale contact_damping (matvecR J_cj v)) =
      repeat 0 (length J_cj)
  end.

Definition feasible (m : MathematicalProgram) : Prop :=
  Forall holds (constraints m).

End Semantics.

(** ** The controller object *)

Record CLFController : Type := mkController {
  F : mat;
  G : mat;
  P : mat;
  gamma : R;
  mp : option MathematicalProgram;
  V : option R;
  err : option R;
  Vdot : option R
}.

Definition set_mp (self : CLFController) (m : MathematicalProgram) : CLFController :=
  mkController (F self) (G self) (P self) (gamma self) (Some m)
    (V self) (err self) (Vdot self).

Definition set_log (self : CLFController) (v e vdot : R) : CLFController :=
  mkController (F self) (G self) (P self) (gamma self) (mp self)
    (Some v) (Some e) (Some vdot).

(** Methods run against the controller object and may raise. *)
Definition Py (A : Type) : Type := CLFController -> CLFController * res A.

Definition ret {A : Type} (a : A) : Py A := fun self => (self, Ok a).

Definition bind {A B : Type} (m : Py A) (k : A -> Py B) : Py B :=
  fun self =>
    match m self with
    | (self', Ok a) => k a self'
    | (self', Raise e) => (self', Raise e)
    end.

Definition lift {A : Type} (r : res A) : Py A := fun self => (self, r).

Definition attr {A : Type} (field : CLFController -> A) : Py A :=
  fun self => (self, Ok (field self)).

Notation "x <- m ;; k" := (bind m (fun x => k))
  (at level 61, m at next level, right associativity).

(** [self.mp = MathematicalProgram()]. *)
Definition new_program : Py unit :=
  fun self => (set_mp self empty_program, Ok tt).

Definition the_program : Py MathematicalProgram :=
  fun self =>
    match mp self with
    | Some m => (self, Ok m)
    | None => (self, Raise AttributeError)
    end.

(** [self.mp.NewContinuousVariables(n, 1, name)]. *)
Definition NewContinuousVariables (n : nat) (name : var_name) : Py (list var) :=
  m <- the_program ;;
  fun self => (set_mp self (declare m (new_vars name n)), Ok (new_vars name n)).

(** [self.mp.AddLinearCost(a, b, vars)]: one coefficient per variable. *)
Definition AddLinearCost (a : vec) (b : R) (vars : list var) : Py unit :=
  m <- the_program ;;
  if (length a =? length vars)%nat
  then fun self => (set_mp self (add_cost m (LinearCost a b vars)), Ok tt)
  else lift (Raise RuntimeError).

(** [self.mp.AddLinearConstraint(A, lb, ub, vars)]: one column per variable,
    one bound pair per row. *)
Definition AddLinearConstraint (A : mat) (lb ub : list bound) (vars : list var)
  : Py unit :=
  m <- the_program ;;
  if forallb (fun r => (length r =? length vars)%nat) A
     && (length lb =? nrows A)%nat && (length ub =? nrows A)%nat
  then fun self =>
         (set_mp self (add_constraint m (LinearConstraint A lb ub vars)), Ok tt)
  else lift (Raise RuntimeError).

(** ** The two methods of [CLFController] that build the CLF terms *)

(** [AddVdotCost(self, x_tilde, xd_tilde, J, vd, weight)]. *)
Definition AddVdotCost (x_tilde xd_tilde : vec) (J : mat) (vd : list var)
    (weight : R) : Py unit :=
  let eta := x_tilde ++ xd_tilde in
  P_ <- attr P ;;
  G_ <- attr G ;;
  a <- lift (r1 <~ vecmat (scale (weight * 2) eta) P_ ;;
             r2 <~ vecmat r1 G_ ;;
             vecmat r2 J) ;;
  AddLinearCost a 0 vd.

(** [AddVdotConstraint(self, x_tilde, xd_tilde, J, vd, Jdv, xdd_nom, delta)]. *)
Definition AddVdotConstraint (x_tilde xd_tilde : vec) (J : mat) (vd : list var)
    (Jdv xdd_nom : vec) (delta : list var) : Py unit :=
  let eta := x_tilde ++ xd_tilde in
  P_ <- attr P ;;
  V_ <- lift (r <~ vecmat eta P_ ;; dot r eta) ;;
  let lb := [NegInf] in
  G_ <- attr G ;;
  a <- lift (r1 <~ vecmat (scale 2 eta) P_ ;;
             r2 <~ vecmat r1 G_ ;;
             vecmat r2 J) ;;
  let A := [a ++ [-1]] in
  let x := vd ++ delta in
  gamma_ <- attr gamma ;;
  F_ <- attr F ;;
  t1 <- lift (r1 <~ vecmat (scale 2 eta) P_ ;;
              r2 <~ vecmat r1 F_ ;;
              dot r2 eta) ;;
  t2 <- lift (r1 <~ vecmat (scale 2 eta) P_ ;;
              r2 <~ vecmat r1 G_ ;;
              d <~ sub Jdv xdd_nom ;;
              dot r2 d) ;;
  let ub := [Fin (- gamma_ * V_ - t1 - t2)] in
  AddLinearConstraint A lb ub x.

(** ** Inputs of a control tick *)

(** 3-vectors of the Drake API ([Vector3]): positions, angular velocities,
    roll-pitch-yaw angles and their rates. *)
Record vec3 : Type := mk3 { c0 : R; c1 : R; c2 : R }.

Definition v3 (a : vec3) : vec := [c0 a; c1 a; c2 a].

(** Passing a numpy array where the binding expects a [Vector3]. *)
Definition as_vec3 (u : vec) : res vec3 :=
  match u with
  | [a; b; c] => Ok (mk3 a b c)
  | _ => Raise TypeError
  end.

(** The setpoint dictionary read from the trunk model, one field per key. *)
Module trunk.
Record TrunkData : Type := mkTrunk {
  contact_states : list bool;
  p_body : vec;   pd_body : vec;   pdd_body : vec;
  rpy_body : vec; rpyd_body : vec; rpydd_body : vec;
  p_lf : vec;   p_rf : vec;   p_lh : vec;   p_rh : vec;
  pd_lf : vec;  pd_rf : vec;  pd_lh : vec;  pd_rh : vec;
  pdd_lf : vec; pdd_rf : vec; pdd_lh : vec; pdd_rh : vec
}.
End trunk.

Inductive frame : Type :=
| body_frame | lf_foot_frame | rf_foot_frame | lh_foot_frame | rh_foot_frame.

(** A pose [X]: [X.translation()] and the roll-pitch-yaw angles of
    [X.rotation()], that is [RollPitchYaw(X.rotation()).vector()]. *)
Record RigidTransform : Type := mkPose {
  rotation : vec3;
  translation : vec3
}.

(** The dynamics provider of the parent class, evaluated at the current
    state: [CalcDynamics()] returns [(M, Cv, tau_g, S)], a pose frame gives
    [(X, J, Jdv)] and a point frame [(p, J, Jdv)]. *)
Record Plant : Type := mkPlant {
  num_velocities : nat;
  num_actuators : nat;
  CalcDynamics : mat * vec * vec * mat;
  CalcFramePoseQuantities : frame -> RigidTransform * mat * vec;
  CalcFramePositionQuantities : frame -> vec * mat * vec
}.

(** [np.array([a, b, c, d]).reshape(4,3)] for four point positions. *)
Definition reshape_4_3 (ps : list vec) : res mat :=
  if (length ps =? 4)%nat && (length (concat ps) =? 12)%nat
     && forallb (fun p => (length p =? ncols ps)%nat) ps
  then Ok ps else Raise ValueError.

(** [np.array([J_lf, J_rf, J_lh, J_rh])] for 2-D arrays of one shape. *)
Definition array3 (Js : list mat) : res (list mat) :=
  match Js with
  | [] => Ok []
  | J0 :: _ =>
      if forallb (has_shape (nrows J0) (ncols J0)) Js
      then Ok Js else Raise ValueError
  end.

(** [J_feet @ v] for a stack of 2-D arrays and a 1-D array. *)
Fixpoint stack_matvec (Js : list mat) (v : vec) : res mat :=
  match Js with
  | [] => Ok []
  | J0 :: Js' =>
      r <~ matvec J0 v ;;
      rs <~ stack_matvec Js' v ;;
      Ok (r :: rs)
  end.

(** Everything lines 98 to 172 of [ControlLaw] compute before the program
    is set up. *)
Record TaskSpace : Type := mkTaskSpace {
  contact_feet : list bool;
  swing_feet : list bool;
  num_contact : nat;
  num_swing : nat;
  J_c : list mat;
  Jdv_c : list vec;
  J : mat;
  Jdv : vec;
  x : vec;
  xd : vec;
  x_nom : vec;
  xd_nom : vec;
  xdd_nom : vec;
  x_tilde : vec;
  xd_tilde : vec
}.

Section Controller.

(** The two conversions of pydrake's [RollPitchYaw], as functions of the
    angles the object was built from. *)
Variable CalcRpyDtFromAngularVelocityInParent : vec3 -> vec3 -> res vec3.
Variable CalcAngularVelocityInParentFromRpyDt : vec3 -> vec3 -> vec3.

(** [self.solver.Solve]. *)
Variable Solve : MathematicalProgram -> MathematicalProgramResult.

Definition task_space (plant : Plant) (trunk_data : trunk.TrunkData) (v : vec)
  : res TaskSpace :=
  let contact_feet := trunk.contact_states trunk_data in
  let swing_feet := map negb contact_feet in
  let num_contact := sum contact_feet in
  let num_swing := sum swing_feet in
  let p_body_nom := trunk.p_body trunk_data in
  let pd_body_nom := trunk.pd_body trunk_data in
  let pdd_body_nom := trunk.pdd_body trunk_data in
  let rpy_body_nom := trunk.rpy_body trunk_data in
  let rpyd_body_nom := trunk.rpyd_body trunk_data in
  let rpydd_body_nom := trunk.rpydd_body trunk_data in
  p_feet_nom <~ array2 [trunk.p_lf trunk_data; trunk.p_rf trunk_data;
                        trunk.p_lh trunk_data; trunk.p_rh trunk_data] ;;
  pd_feet_nom <~ array2 [trunk.pd_lf trunk_data; trunk.pd_rf trunk_data;
                         trunk.pd_lh trunk_data; trunk.pd_rh trunk_data] ;;
  pdd_feet_nom <~ array2 [trunk.pdd_lf trunk_data; trunk.pdd_rf trunk_data;
                          trunk.pdd_lh trunk_data; trunk.pdd_rh trunk_data] ;;
  p_s_nom <~ getmask p_feet_nom swing_feet ;;
  pd_s_nom <~ getmask pd_feet_nom swing_feet ;;
  pdd_s_nom <~ getmask pdd_feet_nom swing_feet ;;
  let '(X_body, J_body, Jdv_body) := CalcFramePoseQuantities plant body_frame in
  let p_body := v3 (translation X_body) in
  Jv <~ matvec J_body v ;;
  let pd_body := skipn 3 Jv in
  let RPY_body := rotation X_body in
  let rpy_body := v3 RPY_body in
  Jv' <~ matvec J_body v ;;
  let omega_body := firstn 3 Jv' in
  omega3 <~ as_vec3 omega_body ;;
  rpyd_body <~ CalcRpyDtFromAngularVelocityInParent RPY_body omega3 ;;
  let '(p_lf, J_lf, Jdv_lf) := CalcFramePositionQuantities plant lf_foot_frame in
  let '(p_rf, J_rf, Jdv_rf) := CalcFramePositionQuantities plant rf_foot_frame in
  let '(p_lh, J_lh, Jdv_lh) := CalcFramePositionQuantities plant lh_foot_frame in
  let '(p_rh, J_rh, Jdv_rh) := CalcFramePositionQuantities plant rh_foot_frame in
  p_feet <~ reshape_4_3 [p_lf; p_rf; p_lh; p_rh] ;;
  J_feet <~ array3 [J_lf; J_rf; J_lh; J_rh] ;;
  Jdv_feet <~ array2 [Jdv_lf; Jdv_rf; Jdv_lh; Jdv_rh] ;;
  pd_feet <~ stack_matvec J_feet v ;;
  p_s <~ getmask p_feet swing_feet ;;
  pd_s <~ getmask pd_feet swing_feet ;;
  J_c <~ getmask J_feet contact_feet ;;
  Jdv_c <~ getmask Jdv_feet contact_feet ;;
  J_s <~ getmask J_feet swing_feet ;;
  Jdv_s <~ getmask Jdv_feet swing_feet ;;
  JJdv <~ (if any swing_feet
           then J <~ vstack J_body (concat J_s) ;;
                Ok (J, Jdv_body ++ flatten Jdv_s)
           else Ok (J_body, Jdv_body)) ;;
  let '(J, Jdv) := JJdv in
  let x := rpy_body ++ p_body ++ flatten p_s in
  let xd := v3 (CalcAngularVelocityInParentFromRpyDt RPY_body rpyd_body)
            ++ pd_body ++ flatten pd_s in
  let x_nom := rpy_body_nom ++ p_body_nom ++ flatten p_s_nom in
  rpyd3 <~ as_vec3 rpyd_body_nom ;;
  let xd_nom := v3 (CalcAngularVelocityInParentFromRpyDt RPY_body rpyd3)
                ++ pd_body_nom ++ flatten pd_s_nom in
  rpydd3 <~ as_vec3 rpydd_body_nom ;;
  let xdd_nom := v3 (CalcAngularVelocityInParentFromRpyDt RPY_body rpydd3)
                 ++ pdd_body_nom ++ flatten pdd_s_nom in
  x_tilde <~ sub x x_nom ;;
  xd_tilde <~ sub xd xd_nom ;;
  Ok (mkTaskSpace contact_feet swing_feet num_contact num_swing J_c Jdv_c
        J Jdv x xd x_nom xd_nom xdd_nom x_tilde xd_tilde).

(** Modelled from the spec: [AddJacobianTypeCost] of the parent class
    [controllers/inverse_dynamics_controller.py], the tracking-cost builder,
    a quadratic penalty on [J vd + Jdv - xdd_nom]. *)
Definition AddJacobianTypeCost (J : mat) (vd : list var) (Jdv xdd_nom : vec)
    (weight : R) : Py unit :=
  m <- the_program ;;
  fun self => (set_mp self (add_cost m (JacobianTypeCost J vd Jdv xdd_nom weight)),
               Ok tt).

(** Modelled from the spec: [AddDynamicsConstraint] of the parent class, the
    dynamics-equality builder, parametric in the number of contact feet. *)
Definition AddDynamicsConstraint (M : mat) (vd : list var) (Cv tau_g : vec)
    (S_ : mat) (tau : list var) (J_c : list mat) (f_c : list (list var))
  : Py unit :=
  m <- the_program ;;
  fun self =>
    (set_mp self (add_constraint m
       (DynamicsConstraint M Cv tau_g S_ J_c vd tau f_c)), Ok tt).

(** Modelled from the spec: [AddFrictionPyramidConstraint] of the parent
    class, an independent linear inequality set per contact force. *)
Fixpoint AddFrictionPyramidConstraint (f_c : list (list var)) : Py unit :=
  match f_c with
  | [] => ret tt
  | f :: f_c' =>
      m <- the_program ;;
      _ <- (fun self =>
              (set_mp self (add_constraint m (FrictionPyramidConstraint f)),
               Ok tt)) ;;
      AddFrictionPyramidConstraint f_c'
  end.

(** Modelled from the spec: [AddContactConstraint] of the parent class, the
    no-slip builder, one equality per contact foot. *)
Fixpoint AddContactConstraint (J_c : list mat) (vd : list var)
    (Jdv_c : list vec) (v : vec) : Py unit :=
  match J_c, Jdv_c with
  | J_cj :: J_c', Jdv_cj :: Jdv_c' =>
      m <- the_program ;;
      _ <- (fun self =>
              (set_mp self (add_constraint m (ContactConstraint J_cj Jdv_cj v vd)),
               Ok tt)) ;;
      AddContactConstraint J_c' vd Jdv_c' v
  | _, _ => ret tt
  end.

(** [[self.mp.NewContinuousVariables(3,1,'f_%s'%j) for j in range(n)]]. *)
Fixpoint new_force_vars (js : list nat) : Py (list (list var)) :=
  match js with
  | [] => ret []
  | j :: js' =>
      f <- NewContinuousVariables 3 (n_f j) ;;
      fs <- new_force_vars js' ;;
      ret (f :: fs)
  end.

Definition set_V (v : R) : Py unit :=
  fun self => (mkController (F self) (G self) (P self) (gamma self) (mp self)
                 (Some v) (err self) (Vdot self), Ok tt).

Definition set_err (e : R) : Py unit :=
  fun self => (mkController (F self) (G self) (P self) (gamma self) (mp self)
                 (V self) (Some e) (Vdot self), Ok tt).

Definition set_Vdot (d : R) : Py unit :=
  fun self => (mkController (F self) (G self) (P self) (gamma self) (mp self)
                 (V self) (err self) (Some d), Ok tt).

(** Lines 185 to 212 of [ControlLaw]: a fresh program, its decision
    variables, the two costs and the constraints.  Returns the variable
    blocks [vd] and [tau]. *)
Definition setup_program (M : mat) (Cv tau_g : vec) (S_ : mat) (ts : TaskSpace)
    (nv na : nat) (v : vec) : Py (list var * list var) :=
  _ <- new_program ;;
  vd <- NewContinuousVariables nv n_vd ;;
  tau <- NewContinuousVariables na n_tau ;;
  f_c <- new_force_vars (seq 0 (num_contact ts)) ;;
  delta <- NewContinuousVariables 1 n_delta ;;
  _ <- AddJacobianTypeCost (J ts) vd (Jdv ts) (xdd_nom ts) 1 ;;
  _ <- AddVdotCost (x_tilde ts) (xd_tilde ts) (J ts) vd 1 ;;
  _ <- AddVdotConstraint (x_tilde ts) (xd_tilde ts) (J ts) vd (Jdv ts)
         (xdd_nom ts) delta ;;
  _ <- AddLinearConstraint [[1]] [NegInf] [Fin 0] (firstn 1 delta) ;;
  _ <- AddDynamicsConstraint M vd Cv tau_g S_ tau (J_c ts) f_c ;;
  _ <- (if any (contact_feet ts)
        then _ <- AddFrictionPyramidConstraint f_c ;;
             AddContactConstraint (J_c ts) vd (Jdv_c ts) v
        else ret tt) ;;
  ret (vd, tau).

(** Lines 219 to 223 of [ControlLaw]: the logged diagnostics, computed from
    the solved accelerations [vd]. *)
Definition log_diagnostics (ts : TaskSpace) (vd : vec) : Py unit :=
  let eta := x_tilde ts ++ xd_tilde ts in
  P_ <- attr P ;;
  V_ <- lift (r <~ vecmat eta P_ ;; dot r eta) ;;
  _ <- set_V V_ ;;
  err_ <- lift (dot (x_tilde ts) (x_tilde ts)) ;;
  _ <- set_err err_ ;;
  F_ <- attr F ;;
  G_ <- attr G ;;
  Vdot_ <- lift (r1 <~ vecmat (scale 2 eta) P_ ;;
                 r2 <~ vecmat r1 F_ ;;
                 t1 <~ dot r2 eta ;;
                 r3 <~ vecmat (scale 2 eta) P_ ;;
                 r4 <~ vecmat r3 G_ ;;
                 Jvd <~ matvec (J ts) vd ;;
                 s1 <~ add Jvd (Jdv ts) ;;
                 nu <~ sub s1 (xdd_nom ts) ;;
                 t2 <~ dot r4 nu ;;
                 Ok (t1 + t2)) ;;
  set_Vdot Vdot_.

(** [ControlLaw(self, context, q, v)]; [context] stands for the setpoint
    read from input port 1.  The gain matrices [Kp] and [Kd] of lines 175 to
    181 are never used and are left out. *)
Definition ControlLaw (plant : Plant) (context : trunk.TrunkData) (q v : vec)
  : Py vec :=
  let '(M, Cv, tau_g, S_) := CalcDynamics plant in
  ts <- lift (task_space plant context v) ;;
  vars <- setup_program M Cv tau_g S_ ts
            (num_velocities plant) (num_actuators plant) v ;;
  let '(vd, tau) := vars in
  m <- the_program ;;
  let result := Solve m in
  _ <- (if is_success result then ret tt else lift (Raise AssertionError)) ;;
  let tau := map (GetSolution result) tau in
  let vd := map (GetSolution result) vd in
  _ <- log_diagnostics ts vd ;;
  ret tau.

End Controller.

(** ** Construction of the controller *)

(** [self.F], [self.G] and the weights of [__init__]. *)
Definition F_template : mat :=
  block (zeros 6 6) (eye 6) (zeros 6 6) (zeros 6 6).

Definition G_template : mat := zeros 6 6 ++ eye 6.

Definition Q_weight : mat := map (scale 100) (eye 12).

Definition R_weight : mat := eye 6.

(** [np.min] and [np.max] of a 1-D array; an empty array has neither. *)
Definition np_min (l : vec) : res R :=
  match l with
  | [] => Raise ValueError
  | a :: l' => Ok (fold_left Rmin l' a)
  end.

Definition np_max (l : vec) : res R :=
  match l with
  | [] => Raise ValueError
  | a :: l' => Ok (fold_left Rmax l' a)
  end.

Section Construction.

(** pydrake's Riccati solver, which raises when it finds no stabilizing
    solution, and numpy's eigenvalue routine. *)
Variable ContinuousAlgebraicRiccatiEquation : mat -> mat -> mat -> mat -> res mat.
Variable eigvals : mat -> vec.

(** [CLFController.__init__]: the attributes this class sets. *)
Definition __init__ : res CLFController :=
  let F := F_template in
  let G := G_template in
  let Q := Q_weight in
  let R_ := R_weight in
  P <~ ContinuousAlgebraicRiccatiEquation F G Q R_ ;;
  lmin <~ np_min (eigvals Q) ;;
  lmax <~ np_max (eigvals P) ;;
  Ok (mkController F G P (lmin / lmax) None None None None).

End Construction.

(** ** The quantities of the specification *)

(** [V = eta' P eta]. *)
Definition V_of (P : mat) (eta : vec) : R := dotR eta (matvecR P eta).

(** [nu = J vd + Jdv - xdd_nom]. *)
Definition nu_of (J : mat) (vd Jdv xdd_nom : vec) : vec :=
  map2 Rminus (map2 Rplus (matvecR J vd) Jdv) xdd_nom.

(** [Vdot = 2 eta' P (F eta + G nu)]. *)
Definition Vdot_of (P F G : mat) (eta nu : vec) : R :=
  2 * dotR eta (matvecR P (map2 Rplus (matvecR F eta) (matvecR G nu))).

(** The coefficient [2 eta' P G J] of [vd] in the row of the CLF constraint. *)
Definition clf_row (self : CLFController) (eta : vec) (J : mat) : vec :=
  vecmatR (ncols J)
    (vecmatR (ncols (G self)) (vecmatR (ncols (P self)) (scale 2 eta) (P self))
       (G self)) J.

(** The right-hand side
    [- gamma V - 2 eta' P F eta - 2 eta' P G (Jdv - xdd_nom)]. *)
Definition clf_ub (self : CLFController) (eta Jdv xdd_nom : vec) : R :=
  - gamma self * dotR (vecmatR (ncols (P self)) eta (P self)) eta
  - dotR (vecmatR (ncols (F self))
            (vecmatR (ncols (P self)) (scale 2 eta) (P self)) (F self)) eta
  - dotR (vecmatR (ncols (G self))
            (vecmatR (ncols (P self)) (scale 2 eta) (P self)) (G self))
         (map2 Rminus Jdv xdd_nom).

(** The constraint [AddVdotConstraint] hands to the program. *)
Definition clf_constraint (self : CLFController) (eta : vec) (J : mat)
    (Jdv xdd_nom : vec) (vd delta : list var) : constraint :=
  LinearConstraint [clf_row self eta J ++ [-1]] [NegInf]
    [Fin (clf_ub self eta Jdv xdd_nom)] (vd ++ delta).

(** The constraint [delta[0] <= 0]. *)
Definition slack_constraint (delta : list var) : constraint :=
  LinearConstraint [[1]] [NegInf] [Fin 0] (firstn 1 delta).

(** Shapes of the certificate held by a controller: [F] and [P] are 12 by 12
    and [G] is 12 by 6. *)
Definition controller_wf (self : CLFController) : Prop :=
  has_shape 12 12 (P self) = true /\
  has_shape 12 12 (F self) = true /\
  has_shape 12 6 (G self) = true.

(** ** Well-formed inputs of a tick *)

Definition feet : list frame :=
  [lf_foot_frame; rf_foot_frame; lh_foot_frame; rh_foot_frame].

Definition X_body_of (plant : Plant) : RigidTransform :=
  fst (fst (CalcFramePoseQuantities plant body_frame)).
Definition J_body_of (plant : Plant) : mat :=
  snd (fst (CalcFramePoseQuantities plant body_frame)).
Definition Jdv_body_of (plant : Plant) : vec :=
  snd (CalcFramePoseQuantities plant body_frame).

Definition p_feet_of (plant : Plant) : list vec :=
  map (fun f => fst (fst (CalcFramePositionQuantities plant f))) feet.
Definition J_feet_of (plant : Plant) : list mat :=
  map (fun f => snd (fst (CalcFramePositionQuantities plant f))) feet.
Definition Jdv_feet_of (plant : Plant) : list vec :=
  map (fun f => snd (CalcFramePositionQuantities plant f)) feet.

Definition p_feet_nom_of (td : trunk.TrunkData) : list vec :=
  [trunk.p_lf td; trunk.p_rf td; trunk.p_lh td; trunk.p_rh td].
Definition pd_feet_nom_of (td : trunk.TrunkData) : list vec :=
  [trunk.pd_lf td; trunk.pd_rf td; trunk.pd_lh td; trunk.pd_rh td].
Definition pdd_feet_nom_of (td : trunk.TrunkData) : list vec :=
  [trunk.pdd_lf td; trunk.pdd_rf td; trunk.pdd_lh td; trunk.pdd_rh td].

(** The setpoint has four contact flags and 3-vectors everywhere. *)
Definition trunk_wf (td : trunk.TrunkData) : Prop :=
  length (trunk.contact_states td) = 4%nat /\
  Forall (fun u : vec => length u = 3%nat)
    [trunk.p_body td; trunk.pd_body td; trunk.pdd_body td;
     trunk.rpy_body td; trunk.rpyd_body td; trunk.rpydd_body td] /\
  Forall (fun u : vec => length u = 3%nat) (p_feet_nom_of td) /\
  Forall (fun u : vec => length u = 3%nat) (pd_feet_nom_of td) /\
  Forall (fun u : vec => length u = 3%nat) (pdd_feet_nom_of td).

(** The dynamics provider returns a 6-row Jacobian and a 6-vector bias for
    the body frame, a 3-vector position, a 3-row Jacobian and a 3-vector
    bias for each foot, all over the velocity space of [v]. *)
Definition plant_wf (plant : Plant) (v : vec) : Prop :=
  length v = num_velocities plant /\
  has_shape 6 (num_velocities plant) (J_body_of plant) = true /\
  length (Jdv_body_of plant) = 6%nat /\
  Forall (fun u : vec => length u = 3%nat) (p_feet_of plant) /\
  Forall (fun Jf => has_shape 3 (num_velocities plant) Jf = true)
    (J_feet_of plant) /\
  Forall (fun u : vec => length u = 3%nat) (Jdv_feet_of plant).

(** A stacked task vector: body orientation, body position, then the
    selected feet. *)
Definition stacked (orientation position : vec) (foot_rows : list vec)
    (mask : list bool) : vec :=
  orientation ++ position ++ flatten (select foot_rows mask).

Section TickValues.

Variable CalcAngularVelocityInParentFromRpyDt : vec3 -> vec3 -> vec3.

Variables (plant : Plant) (td : trunk.TrunkData) (v : vec).

(** [rpyd_body], [rpyd_body_nom] and [rpydd_body_nom] as 3-vectors. *)
Variables (rpyd rpyd_nom rpydd_nom : vec3).

Let contact := trunk.contact_states td.
Let swing := map negb contact.
Let RPY_body := rotation (X_body_of plant).

(** What [task_space] computes when every shape conforms. *)
Definition task_space_value : TaskSpace :=
  let x := stacked (v3 RPY_body) (v3 (translation (X_body_of plant)))
             (p_feet_of plant) swing in
  let xd := stacked (v3 (CalcAngularVelocityInParentFromRpyDt RPY_body rpyd))
              (skipn 3 (matvecR (J_body_of plant) v))
              (map (fun Jf => matvecR Jf v) (J_feet_of plant)) swing in
  let x_nom := stacked (trunk.rpy_body td) (trunk.p_body td)
                 (p_feet_nom_of td) swing in
  let xd_nom := stacked
                  (v3 (CalcAngularVelocityInParentFromRpyDt RPY_body rpyd_nom))
                  (trunk.pd_body td) (pd_feet_nom_of td) swing in
  let xdd_nom := stacked
                   (v3 (CalcAngularVelocityInParentFromRpyDt RPY_body rpydd_nom))
                   (trunk.pdd_body td) (pdd_feet_nom_of td) swing in
  mkTaskSpace contact swing (sum contact) (sum swing)
    (select (J_feet_of plant) contact) (select (Jdv_feet_of plant) contact)
    (if any swing
     then J_body_of plant ++ concat (select (J_feet_of plant) swing)
     else J_body_of plant)
    (if any swing
     then Jdv_body_of plant ++ flatten (select (Jdv_feet_of plant) swing)
     else Jdv_body_of plant)
    x xd x_nom xd_nom xdd_nom
    (map2 Rminus x x_nom) (map2 Rminus xd xd_nom).

End TickValues.

Section TickInputs.

Variable CalcRpyDtFromAngularVelocityInParent : vec3 -> vec3 -> res vec3.

(** The measured roll-pitch-yaw rate of lines 125 to 128. *)
Definition measured_rpyd (plant : Plant) (v : vec) : res vec3 :=
  Jv <~ matvec (J_body_of plant) v ;;
  omega3 <~ as_vec3 (firstn 3 Jv) ;;
  CalcRpyDtFromAngularVelocityInParent (rotation (X_body_of plant)) omega3.

End TickInputs.

(** ** The program of a tick *)

(** The coefficient [weight * 2 eta' P G J] of the linear cost. *)
Definition vdot_cost_row (self : CLFController) (eta : vec) (J : mat)
    (weight : R) : vec :=
  vecmatR (ncols J)
    (vecmatR (ncols (G self))
       (vecmatR (ncols (P self)) (scale (weight * 2) eta) (P self)) (G self)) J.

Definition add_constraints (m : MathematicalProgram) (cs : list constraint)
  : MathematicalProgram :=
  mkMP (decision_variables m) (costs m) (constraints m ++ cs).

Definition force_vars (n : nat) : list (list var) :=
  map (fun j => new_vars (n_f j) 3) (seq 0 n).

Definition contact_constraints (J_c : list mat) (Jdv_c : list vec) (v : vec)
    (vd : list var) : list constraint :=
  map (fun JJdv => ContactConstraint (fst JJdv) (snd JJdv) v vd)
    (combine J_c Jdv_c).

(** The variables and the tracking cost: the program as it stands when
    [AddVdotCost] is called. *)
Definition program_before_clf (ts : TaskSpace) (nv na : nat)
  : MathematicalProgram :=
  let vd := new_vars n_vd nv in
  mkMP (((vd ++ new_vars n_tau na) ++ concat (force_vars (num_contact ts)))
        ++ new_vars n_delta 1)
    [JacobianTypeCost (J ts) vd (Jdv ts) (xdd_nom ts) 1] [].

(** The complete program of lines 185 to 212. *)
Definition tick_program (self : CLFController) (M : mat) (Cv tau_g : vec)
    (S_ : mat) (ts : TaskSpace) (nv na : nat) (v : vec) : MathematicalProgram :=
  let vd := new_vars n_vd nv in
  let tau := new_vars n_tau na in
  let f_c := force_vars (num_contact ts) in
  let delta := new_vars n_delta 1 in
  let eta := x_tilde ts ++ xd_tilde ts in
  mkMP (((vd ++ tau) ++ concat f_c) ++ delta)
    [JacobianTypeCost (J ts) vd (Jdv ts) (xdd_nom ts) 1;
     LinearCost (vdot_cost_row self eta (J ts) 1) 0 vd]
    ([clf_constraint self eta (J ts) (Jdv ts) (xdd_nom ts) vd delta;
      slack_constraint delta;
      DynamicsConstraint M Cv tau_g S_ (J_c ts) vd tau f_c]
     ++ (if any (contact_feet ts)
         then map FrictionPyramidConstraint f_c
              ++ contact_constraints (J_c ts) (Jdv_c ts) v vd
         else [])).

(** The diagnostics of lines 220 to 223, as the code computes them. *)
Definition V_logged (self : CLFController) (ts : TaskSpace) : R :=
  let eta := x_tilde ts ++ xd_tilde ts in
  dotR (vecmatR (ncols (P self)) eta (P self)) eta.

Definition err_logged (ts : TaskSpace) : R := dotR (x_tilde ts) (x_tilde ts).

Definition Vdot_logged (self : CLFController) (ts : TaskSpace) (vd : vec) : R :=
  let eta := x_tilde ts ++ xd_tilde ts in
  dotR (vecmatR (ncols (F self))
          (vecmatR (ncols (P self)) (scale 2 eta) (P self)) (F self)) eta
  + dotR (vecmatR (ncols (G self))
            (vecmatR (ncols (P self)) (scale 2 eta) (P self)) (G self))
         (map2 Rminus (map2 Rplus (matvecR (J ts) vd) (Jdv ts)) (xdd_nom ts)).

(** The controller after an accepted tick. *)
Definition after_tick (self : CLFController) (m : MathematicalProgram)
    (ts : TaskSpace) (vd : vec) : CLFController :=
  mkController (F self) (G self) (P self) (gamma self) (Some m)
    (Some (V_logged self ts)) (Some (err_logged ts))
    (Some (Vdot_logged self ts vd)).

(** The Euclidean norm. *)
Definition norm (u : vec) : R := sqrt (dotR u u).

(** The program of a tick, with the dynamics quantities of the plant. *)
Definition plant_program (self : CLFController) (plant : Plant) (ts : TaskSpace)
    (v : vec) : MathematicalProgram :=
  let '(M, Cv, tau_g, S_) := CalcDynamics plant in
  tick_program self M Cv tau_g S_ ts (num_velocities plant)
    (num_actuators plant) v.

(** Shapes of the task-space quantities when no foot swings. *)
Definition stance_shapes (ts : TaskSpace) (nv : nat) : Prop :=
  length (x_tilde ts ++ xd_tilde ts) = 12%nat /\
  has_shape 6 nv (J ts) = true /\
  length (Jdv ts) = 6%nat /\
  length (xdd_nom ts) = 6%nat.

Section TickWellFormed.

Variable CalcRpyDtFromAngularVelocityInParent : vec3 -> vec3 -> res vec3.

(** A tick the controller can be handed: a well-formed setpoint, a
    well-formed plant, and an orientation away from gimbal lock, where the
    conversion to roll-pitch-yaw rates is defined. *)
Definition tick_wf (plant : Plant) (td : trunk.TrunkData) (v : vec) : Prop :=
  trunk_wf td /\ plant_wf plant v /\
  exists rpyd,
    measured_rpyd CalcRpyDtFromAngularVelocityInParent plant v = Ok rpyd.

End TickWellFormed.

(** ** The certificate *)

(** Entrywise sum and difference, and the product of two 2-D arrays. *)
Definition madd (A B : mat) : mat :=
  map (fun ab => map2 Rplus (fst ab) (snd ab)) (combine A B).

Definition msub (A B : mat) : mat :=
  map (fun ab => map2 Rminus (fst ab) (snd ab)) (combine A B).

Definition mmulR (A B : mat) : mat := map (fun r => vecmatR (ncols B) r B) A.

(** The left-hand side [F'P + P F - P G R^-1 G'P + Q] of the continuous
    algebraic Riccati equation. *)
Definition care_residual (F G Q Rinv P : mat) : mat :=
  madd (msub (madd (mmulR (transpose (ncols F) F) P) (mmulR P F))
          (mmulR (mmulR (mmulR (mmulR P G) Rinv) (transpose (ncols G) G)) P))
    Q.

(** The inverse of [R = I]. *)
Definition R_inverse : mat := eye 6.

Definition symmetric (A : mat) : Prop := transpose (ncols A) A = A.

Definition positive_semidefinite (n : nat) (A : mat) : Prop :=
  forall x : vec, length x = n -> 0 <= dotR x (matvecR A x).

Definition positive_definite (n : nat) (A : mat) : Prop :=
  forall x : vec, length x = n -> x <> repeat 0 n -> 0 < dotR x (matvecR A x).

(** [lam] is an eigenvalue of the [n] by [n] array [A]. *)
Definition eigenvalue (n : nat) (A : mat) (lam : R) : Prop :=
  exists x : vec,
    length x = n /\ x <> repeat 0 n /\ matvecR A x = scale lam x.

(** What the Riccati solver is relied on for: called on the template and
    the weights of [__init__] it returns a symmetric positive-semidefinite
    solution of the Riccati equation. *)
Definition care_contract (care : mat -> mat -> mat -> mat -> res mat) : Prop :=
  exists P0,
    care F_template G_template Q_weight R_weight = Ok P0
    /\ has_shape 12 12 P0 = true
    /\ symmetric P0
    /\ positive_semidefinite 12 P0
    /\ care_residual F_template G_template Q_weight R_inverse P0 = zeros 12 12.

(** What [np.linalg.eigvals] is relied on for: a non-empty array of
    eigenvalues. *)
Definition eigvals_contract (eigvals : mat -> vec) (A : mat) : Prop :=
  eigvals A <> [] /\ Forall (eigenvalue 12 A) (eigvals A).

(** ** The certificate across a call *)

(** Two controller objects hold the same certificate. *)
Definition same_certificate (a b : CLFController) : Prop :=
  F a = F b /\ G a = G b /\ P a = P b /\ gamma a = gamma b.

(** A method that never assigns [self.F], [self.G], [self.P] or
    [self.gamma], whatever it returns or raises. *)
Definition keeps_certificate {A : Type} (m : Py A) : Prop :=
  forall self, same_certificate (fst (m self)) self.

(** ** The contracts of the Riccati solver and of the eigenvalue routine *)

(** The closed loop [F - G R^-1 G' P] of a solution [P]. *)
Definition closed_loop (F G Rinv P : mat) : mat :=
  msub F (mmulR (mmulR (mmulR G Rinv) (transpose (ncols G) G)) P).

(** A solution is stabilizing when its closed loop is stable; of this the
    certificate needs only that no real number [r >= 0] is an eigenvalue
    of the closed loop, for a right or for a left eigenvector. *)
Definition stabilizing (F G Rinv P : mat) : Prop :=
  forall r : R,
    0 <= r ->
    ~ eigenvalue 12 (closed_loop F G Rinv P) r
    /\ ~ eigenvalue 12 (transpose 12 (closed_loop F G Rinv P)) r.

(** What pydrake's Riccati solver is relied on for: called on the template
    and the weights of [__init__], with [R^-1 = I] for [R = I], it returns a
    12 by 12 stabilizing solution of the Riccati equation. *)
Definition riccati_contract (care : mat -> mat -> mat -> mat -> res mat) : Prop :=
  exists P0,
    care F_template G_template Q_weight R_weight = Ok P0
    /\ has_shape 12 12 P0 = true
    /\ care_residual F_template G_template Q_weight R_inverse P0 = zeros 12 12
    /\ stabilizing F_template G_template R_inverse P0.

(** What [np.linalg.eigvals] is relied on for: the array it returns holds
    the eigenvalues of its argument and nothing else. *)
Definition spectrum_contract (eigvals : mat -> vec) (A : mat) : Prop :=
  forall lam : R, In lam (eigvals A) <-> eigenvalue 12 A lam.

(** [l] is the smallest, or the largest, eigenvalue of [A]. *)
Definition smallest_eigenvalue (n : nat) (A : mat) (l : R) : Prop :=
  eigenvalue n A l /\ forall lam, eigenvalue n A lam -> l <= lam.

Definition largest_eigenvalue (n : nat) (A : mat) (l : R) : Prop :=
  eigenvalue n A l /\ forall lam, eigenvalue n A lam -> lam <= l.

(** ** A stance tick used to exercise the theorems

    A plant with six velocities and one actuator, standing on four feet
    with the body two units off its setpoint along the first position
    axis. *)
Module Example.

Definition P_ex : mat :=
  block (map (scale 2) (eye 6)) (eye 6) (eye 6) (eye 6).

Definition controller : CLFController :=
  mkController F_template G_template P_ex 1 None None None None.

Definition zero3 : vec := [0; 0; 0].

Definition plant : Plant :=
  mkPlant 6 1
    (eye 6, [0; 0; 0; 2; 0; 0], repeat 0 6, zeros 1 6)
    (fun _ => (mkPose (mk3 0 0 0) (mk3 2 0 0), eye 6, repeat 0 6))
    (fun _ => (zero3, zeros 3 6, zero3)).

Definition setpoint (contact : list bool) : trunk.TrunkData :=
  trunk.mkTrunk contact
    zero3 zero3 zero3 zero3 zero3 zero3
    zero3 zero3 zero3 zero3
    zero3 zero3 zero3 zero3
    zero3 zero3 zero3 zero3.

Definition stance : trunk.TrunkData := setpoint [true; true; true; true].

Definition flight : trunk.TrunkData := setpoint [false; false; false; false].

Definition v : vec := repeat 0 6.
Definition q : vec := repeat 0 7.

Definition CalcRpyDt (rpy omega : vec3) : res vec3 := Ok omega.
Definition CalcAngVel (rpy rpyDt : vec3) : vec3 := rpyDt.

(** A conversion that always refuses, as pydrake's does at gimbal lock. *)
Definition CalcRpyDt_locked (rpy omega : vec3) : res vec3 := Raise RuntimeError.

(** A solver that answers every program with the same values: the fourth
    acceleration is [-2], everything else is zero. *)
Definition answer (x : var) : R :=
  match x with
  | (n_vd, 3%nat) => -2
  | _ => 0
  end.

Definition Solve (m : MathematicalProgram) : MathematicalProgramResult :=
  mkResult true answer.

(** A solver that never succeeds. *)
Definition Solve_fails (m : MathematicalProgram) : MathematicalProgramResult :=
  mkResult false answer.

Definition outcome : CLFController * res vec :=
  ControlLaw CalcRpyDt CalcAngVel Solve plant stance q v controller.

Definition x_tilde_ex : vec := [0; 0; 0; 2; 0; 0].

(** The stabilizing solution of the Riccati equation of [__init__] in closed
    form, [[a I, b I], [b I, c I]] with [a = 20 s], [b = 10], [c = 2 s] and
    [s] the square root of 30. *)
Definition blocks (a b c d : R) : mat :=
  block (map (scale a) (eye 6)) (map (scale b) (eye 6))
        (map (scale c) (eye 6)) (map (scale d) (eye 6)).

Definition vblocks (a b : R) : mat :=
  map (scale a) (eye 6) ++ map (scale b) (eye 6).

Definition block_scalar (a b c : R) : mat := blocks a b b c.

Definition P_closed (s : R) : mat := block_scalar (20 * s) 10 (2 * s).

Definition care (F G Q R_ : mat) : res mat := Ok (P_closed (sqrt 30)).

(** The two eigenvalues of an array of the shape [[a I, b I], [b I, c I]]. *)
Definition eigvals (A : mat) : vec :=
  let a := nth 0 (nth 0 A []) 0 in
  let b := nth 6 (nth 0 A []) 0 in
  let c := nth 6 (nth 6 A []) 0 in
  let r := sqrt (((a - c) / 2) * ((a - c) / 2) + b * b) in
  [(a + c) / 2 + r; (a + c) / 2 - r].

End Example.

(** * Properties *)

Unset Implicit Arguments.

(** ** Linear algebra on lists *)

Lemma has_shape_spec (r c : nat) (A : mat) :
  has_shape r c A = true <->
  length A = r /\ Forall (fun row => length row = c) A.
Proof.
  unfold has_shape. rewrite andb_true_iff, Nat.eqb_eq, forallb_forall, Forall_forall.
  split; intros [H1 H2]; split; auto; intros y Hy.
  - apply Nat.eqb_eq. auto.
  - apply Nat.eqb_eq. auto.
Qed.

Lemma has_shape_ncols (r c : nat) (A : mat) :
  has_shape (S r) c A = true -> ncols A = c.
Proof.
  intros H. apply has_shape_spec in H. destruct H as [H1 H2].
  destruct A as [|row A]; [discriminate|]. simpl. now inversion H2.
Qed.

Lemma length_map2 (f : R -> R -> R) (u v : vec) :
  length (map2 f u v) = Nat.min (length u) (length v).
Proof.
  revert v. induction u as [|a u IH]; intros [|b v]; simpl; auto.
Qed.

Lemma length_scale (k : R) (u : vec) : length (scale k u) = length u.
Proof. unfold scale. apply length_map. Qed.

Lemma length_matvecR (A : mat) (v : vec) : length (matvecR A v) = length A.
Proof. unfold matvecR. apply length_map. Qed.

Lemma length_vecmatR (c : nat) (u : vec) (A : mat) :
  Forall (fun row => length row = c) A -> length (vecmatR c u A) = c.
Proof.
  intros HA. revert u. induction HA as [|row A Hrow HA IH]; intros [|a u]; simpl;
    try apply repeat_length.
  rewrite length_map2, length_scale, IH. lia.
Qed.

Lemma dotR_nil_r (u : vec) : dotR u [] = 0.
Proof. destruct u; reflexivity. Qed.

Lemma dotR_comm (u v : vec) : dotR u v = dotR v u.
Proof.
  revert v. induction u as [|a u IH]; intros [|b v]; simpl; auto.
  rewrite IH. ring.
Qed.

Lemma dotR_scale_l (k : R) (u v : vec) : dotR (scale k u) v = k * dotR u v.
Proof.
  revert v. induction u as [|a u IH]; intros [|b v]; simpl; try ring.
  rewrite IH. ring.
Qed.

Lemma dotR_repeat0_l (c : nat) (v : vec) : dotR (repeat 0 c) v = 0.
Proof.
  revert v. induction c as [|c IH]; intros [|b v]; simpl; auto.
  rewrite IH. ring.
Qed.

Lemma dotR_repeat0_r (c : nat) (u : vec) : dotR u (repeat 0 c) = 0.
Proof. rewrite dotR_comm. apply dotR_repeat0_l. Qed.

Lemma dotR_plus_l (u w v : vec) :
  length u = length w ->
  dotR (map2 Rplus u w) v = dotR u v + dotR w v.
Proof.
  revert w v. induction u as [|a u IH]; intros [|b w] [|c v] H; simpl in *;
    try discriminate; try ring.
  rewrite IH by lia. ring.
Qed.

Lemma dotR_plus_r (u v w : vec) :
  length v = length w ->
  dotR u (map2 Rplus v w) = dotR u v + dotR u w.
Proof.
  intros H. rewrite dotR_comm, dotR_plus_l by assumption.
  now rewrite (dotR_comm v), (dotR_comm w).
Qed.

Lemma dotR_app (u u' v v' : vec) :
  length u = length v ->
  dotR (u ++ u') (v ++ v') = dotR u v + dotR u' v'.
Proof.
  revert v. induction u as [|a u IH]; intros [|b v] H; simpl in *;
    try discriminate; try ring.
  rewrite IH by lia. ring.
Qed.

(** [(u A) . v = u . (A v)]. *)
Lemma dotR_vecmatR (c : nat) (u : vec) (A : mat) (v : vec) :
  Forall (fun row => length row = c) A ->
  dotR (vecmatR c u A) v = dotR u (matvecR A v).
Proof.
  intros HA. revert u.
  induction HA as [|row A Hrow HA IH]; intros [|a u]; simpl;
    try apply dotR_repeat0_l.
  rewrite dotR_plus_l, dotR_scale_l, IH; [reflexivity|].
  now rewrite length_scale, length_vecmatR.
Qed.

Lemma matvecR_plus (A : mat) (v w : vec) :
  length v = length w ->
  matvecR A (map2 Rplus v w) = map2 Rplus (matvecR A v) (matvecR A w).
Proof.
  intros H. induction A as [|row A IH]; simpl; auto.
  now rewrite IH, dotR_plus_r.
Qed.

Lemma map2_plus_minus (a b c : vec) :
  map2 Rminus (map2 Rplus a b) c = map2 Rplus a (map2 Rminus b c).
Proof.
  revert b c. induction a as [|x a IH]; intros [|y b] [|z c]; simpl; auto.
  rewrite IH. f_equal. ring.
Qed.

Lemma broadcast_same (f : R -> R -> R) (u v : vec) :
  length u = length v -> broadcast f u v = Ok (map2 f u v).
Proof. intros H. unfold broadcast. now rewrite H, Nat.eqb_refl. Qed.

Lemma vecmat_ok (r c : nat) (u : vec) (A : mat) :
  has_shape (S r) c A = true -> length u = S r ->
  vecmat u A = Ok (vecmatR c u A).
Proof.
  intros HA Hu. unfold vecmat, nrows.
  rewrite (has_shape_ncols _ _ _ HA).
  apply has_shape_spec in HA. destruct HA as [HA _].
  now rewrite Hu, HA, Nat.eqb_refl.
Qed.

Lemma dot_ok (u v : vec) : length u = length v -> dot u v = Ok (dotR u v).
Proof. intros H. unfold dot. now rewrite H, Nat.eqb_refl. Qed.

Lemma matvec_ok (A : mat) (v : vec) :
  Forall (fun row => length row = length v) A -> matvec A v = Ok (matvecR A v).
Proof.
  intros H. unfold matvec.
  replace (forallb _ A) with true; [reflexivity|].
  symmetry. apply forallb_forall. rewrite Forall_forall in H.
  intros y Hy. apply Nat.eqb_eq. auto.
Qed.

(** ** The CLF constraint *)

Lemma vecmat_len (u : vec) (A : mat) :
  length u = length A -> vecmat u A = Ok (vecmatR (ncols A) u A).
Proof. intros H. unfold vecmat, nrows. now rewrite H, Nat.eqb_refl. Qed.

Lemma shape_rows (r c : nat) (A : mat) :
  has_shape r c A = true -> Forall (fun row => length row = c) A.
Proof. intros H. now apply has_shape_spec in H. Qed.

Lemma shape_len (r c : nat) (A : mat) : has_shape r c A = true -> length A = r.
Proof. intros H. now apply has_shape_spec in H. Qed.

Section CLFTerms.

Variable self : CLFController.
Hypothesis Hwf : controller_wf self.

Variables (eta : vec) (J : mat) (nv : nat).
Hypothesis Heta : length eta = 12%nat.
Hypothesis HJ : has_shape 6 nv J = true.

Ltac shapes := pose proof Hwf as (HP & HF & HG).

Lemma etaP_ok (k : R) :
  vecmat (scale k eta) (P self) = Ok (vecmatR (ncols (P self)) (scale k eta) (P self))
  /\ length (vecmatR (ncols (P self)) (scale k eta) (P self)) = 12%nat.
Proof using Hwf Heta. shapes.
  split.
  - apply vecmat_len. now rewrite length_scale, (shape_len _ _ _ HP).
  - rewrite (has_shape_ncols _ _ _ HP). apply length_vecmatR, (shape_rows _ _ _ HP).
Qed.

Lemma etaPG_ok (k : R) :
  (r1 <~ vecmat (scale k eta) (P self) ;; vecmat r1 (G self)) =
    Ok (vecmatR (ncols (G self))
          (vecmatR (ncols (P self)) (scale k eta) (P self)) (G self))
  /\ length (vecmatR (ncols (G self))
               (vecmatR (ncols (P self)) (scale k eta) (P self)) (G self)) = 6%nat.
Proof using Hwf Heta. shapes.
  destruct (etaP_ok k) as [E L]. rewrite E. simpl. split.
  - apply vecmat_len. now rewrite L, (shape_len _ _ _ HG).
  - rewrite (has_shape_ncols _ _ _ HG). apply length_vecmatR, (shape_rows _ _ _ HG).
Qed.

Lemma etaPF_ok (k : R) :
  (r1 <~ vecmat (scale k eta) (P self) ;; vecmat r1 (F self)) =
    Ok (vecmatR (ncols (F self))
          (vecmatR (ncols (P self)) (scale k eta) (P self)) (F self))
  /\ length (vecmatR (ncols (F self))
               (vecmatR (ncols (P self)) (scale k eta) (P self)) (F self)) = 12%nat.
Proof using Hwf Heta. shapes.
  destruct (etaP_ok k) as [E L]. rewrite E. simpl. split.
  - apply vecmat_len. now rewrite L, (shape_len _ _ _ HF).
  - rewrite (has_shape_ncols _ _ _ HF). apply length_vecmatR, (shape_rows _ _ _ HF).
Qed.

Lemma etaPGJ_ok (k : R) :
  (r1 <~ vecmat (scale k eta) (P self) ;;
   r2 <~ vecmat r1 (G self) ;; vecmat r2 J) =
    Ok (vecmatR (ncols J)
          (vecmatR (ncols (G self))
             (vecmatR (ncols (P self)) (scale k eta) (P self)) (G self)) J)
  /\ length (vecmatR (ncols J)
               (vecmatR (ncols (G self))
                  (vecmatR (ncols (P self)) (scale k eta) (P self)) (G self)) J)
     = nv.
Proof using Hwf Heta HJ. shapes.
  destruct (etaP_ok k) as [E L]. destruct (etaPG_ok k) as [E2 L2].
  rewrite E in *. simpl in *. rewrite E2. simpl. split.
  - apply vecmat_len. now rewrite L2, (shape_len _ _ _ HJ).
  - rewrite (has_shape_ncols _ _ _ HJ). apply length_vecmatR, (shape_rows _ _ _ HJ).
Qed.

Lemma length_clf_row : length (clf_row self eta J) = nv.
Proof using Hwf Heta HJ. apply (etaPGJ_ok 2). Qed.

(** The row applied to accelerations is [2 eta' P G (J vd)]. *)
Lemma clf_row_dot (vd : vec) :
  dotR (clf_row self eta J) vd =
  2 * dotR eta (matvecR (P self) (matvecR (G self) (matvecR J vd))).
Proof using Hwf HJ. shapes.
  unfold clf_row.
  rewrite (has_shape_ncols _ _ _ HJ), (has_shape_ncols _ _ _ HG),
    (has_shape_ncols _ _ _ HP).
  rewrite (dotR_vecmatR _ _ _ _ (shape_rows _ _ _ HJ)).
  rewrite (dotR_vecmatR _ _ _ _ (shape_rows _ _ _ HG)).
  rewrite (dotR_vecmatR _ _ _ _ (shape_rows _ _ _ HP)).
  apply dotR_scale_l.
Qed.

(** [V] as the code computes it, [(eta P) . eta], is [eta' P eta]. *)
Lemma V_code_spec :
  dotR (vecmatR (ncols (P self)) eta (P self)) eta = V_of (P self) eta.
Proof using Hwf. shapes.
  unfold V_of. rewrite (has_shape_ncols _ _ _ HP).
  apply dotR_vecmatR, (shape_rows _ _ _ HP).
Qed.

Lemma clf_ub_spec (Jdv xdd_nom : vec) :
  clf_ub self eta Jdv xdd_nom =
  - gamma self * V_of (P self) eta
  - 2 * dotR eta (matvecR (P self) (matvecR (F self) eta))
  - 2 * dotR eta (matvecR (P self)
                    (matvecR (G self) (map2 Rminus Jdv xdd_nom))).
Proof using Hwf. shapes.
  unfold clf_ub. rewrite V_code_spec.
  rewrite (has_shape_ncols _ _ _ HF), (has_shape_ncols _ _ _ HG),
    (has_shape_ncols _ _ _ HP).
  rewrite (dotR_vecmatR _ _ _ _ (shape_rows _ _ _ HF)).
  rewrite (dotR_vecmatR _ _ _ _ (shape_rows _ _ _ HG)).
  rewrite !(dotR_vecmatR _ _ _ _ (shape_rows _ _ _ HP)).
  rewrite !dotR_scale_l. reflexivity.
Qed.

(** [Vdot] splits into the part that is constant and the part that is
    linear in [vd]. *)
Lemma Vdot_of_split (vd Jdv xdd_nom : vec) :
  length Jdv = 6%nat -> length xdd_nom = 6%nat ->
  Vdot_of (P self) (F self) (G self) eta (nu_of J vd Jdv xdd_nom) =
  2 * dotR eta (matvecR (P self) (matvecR (F self) eta))
  + 2 * dotR eta (matvecR (P self) (matvecR (G self) (matvecR J vd)))
  + 2 * dotR eta (matvecR (P self)
                    (matvecR (G self) (map2 Rminus Jdv xdd_nom))).
Proof using Hwf Heta HJ. shapes.
  intros HJdv Hxdd. unfold Vdot_of, nu_of.
  rewrite map2_plus_minus.
  rewrite (matvecR_plus (G self)).
  2:{ rewrite length_matvecR, length_map2, (shape_len _ _ _ HJ). lia. }
  rewrite !matvecR_plus, !dotR_plus_r.
  - ring.
  - rewrite !length_matvecR. reflexivity.
  - rewrite length_map2, !length_matvecR. rewrite (shape_len _ _ _ HP). lia.
  - rewrite !length_matvecR. reflexivity.
  - rewrite length_map2, !length_matvecR.
    rewrite (shape_len _ _ _ HF), (shape_len _ _ _ HG). lia.
Qed.

End CLFTerms.

(** *** Running the monad *)

Lemma bind_attr {A B : Type} (f : CLFController -> A) (k : A -> Py B)
    (self : CLFController) :
  bind (attr f) k self = k (f self) self.
Proof. reflexivity. Qed.

Lemma bind_lift_ok {A B : Type} (r : res A) (a : A) (k : A -> Py B)
    (self : CLFController) :
  r = Ok a -> bind (lift r) k self = k a self.
Proof. intros ->. reflexivity. Qed.

Lemma bind_lift_raise {A B : Type} (r : res A) (e : exn) (k : A -> Py B)
    (self : CLFController) :
  r = Raise e -> bind (lift r) k self = (self, Raise e).
Proof. intros ->. reflexivity. Qed.

Lemma bind_ok {A B : Type} (m : Py A) (k : A -> Py B)
    (self self' : CLFController) (a : A) :
  m self = (self', Ok a) -> bind m k self = k a self'.
Proof. intros H. unfold bind. now rewrite H. Qed.

Lemma bind_raise {A B : Type} (m : Py A) (k : A -> Py B)
    (self self' : CLFController) (e : exn) :
  m self = (self', Raise e) -> bind m k self = (self', Raise e).
Proof. intros H. unfold bind. now rewrite H. Qed.

(** A bind that returns normally ran both of its halves normally. *)
Lemma bind_inv {A B : Type} (m : Py A) (k : A -> Py B)
    (self self' : CLFController) (b : B) :
  bind m k self = (self', Ok b) ->
  exists s1 a, m self = (s1, Ok a) /\ k a s1 = (self', Ok b).
Proof.
  unfold bind. destruct (m self) as [s1 [a|e]]; intros H.
  - now exists s1, a.
  - discriminate.
Qed.

Lemma lift_inv {A : Type} (r : res A) (self self' : CLFController) (a : A) :
  lift r self = (self', Ok a) -> r = Ok a /\ self' = self.
Proof. unfold lift. intros H. inversion H. auto. Qed.

Lemma rbind_inv {A B : Type} (r : res A) (k : A -> res B) (b : B) :
  rbind r k = Ok b -> exists a, r = Ok a /\ k a = Ok b.
Proof. destruct r as [a|e]; simpl; intros H; [now exists a | discriminate]. Qed.

Lemma the_program_ok (self : CLFController) (m : MathematicalProgram) :
  mp self = Some m -> the_program self = (self, Ok m).
Proof. intros H. unfold the_program. now rewrite H. Qed.

Lemma AddLinearConstraint_ok (A : mat) (lb ub : list bound) (vars : list var)
    (self : CLFController) (m : MathematicalProgram) :
  mp self = Some m ->
  Forall (fun r => length r = length vars) A ->
  length lb = length A -> length ub = length A ->
  AddLinearConstraint A lb ub vars self =
  (set_mp self (add_constraint m (LinearConstraint A lb ub vars)), Ok tt).
Proof.
  intros Hm HA Hlb Hub. unfold AddLinearConstraint.
  rewrite (bind_ok _ _ _ _ _ (the_program_ok _ _ Hm)).
  unfold nrows. rewrite Hlb, Hub, Nat.eqb_refl.
  replace (forallb _ A) with true; [reflexivity|].
  symmetry. apply forallb_forall. rewrite Forall_forall in HA.
  intros y Hy. apply Nat.eqb_eq. auto.
Qed.

(** With conforming shapes [AddVdotConstraint] returns normally, having
    appended the CLF row to the constraints of the program. *)
Lemma AddVdotConstraint_ok (self : CLFController) (m : MathematicalProgram)
    (x_tilde xd_tilde : vec) (J : mat) (vd : list var) (Jdv xdd_nom : vec)
    (delta : list var) :
  mp self = Some m ->
  controller_wf self ->
  length (x_tilde ++ xd_tilde) = 12%nat ->
  has_shape 6 (length vd) J = true ->
  length Jdv = 6%nat -> length xdd_nom = 6%nat -> length delta = 1%nat ->
  AddVdotConstraint x_tilde xd_tilde J vd Jdv xdd_nom delta self =
  (set_mp self
     (add_constraint m
        (clf_constraint self (x_tilde ++ xd_tilde) J Jdv xdd_nom vd delta)),
   Ok tt).
Proof.
  intros Hm Hwf Heta HJ HJdv Hxdd Hdelta.
  unfold AddVdotConstraint.
  set (eta := x_tilde ++ xd_tilde) in *.
  destruct (etaP_ok self Hwf eta Heta 2) as [EP LP].
  destruct (etaPG_ok self Hwf eta Heta 2) as [EG LG].
  destruct (etaPF_ok self Hwf eta Heta 2) as [EF LF].
  destruct (etaPGJ_ok self Hwf eta J _ Heta HJ 2) as [EJ LJ].
  rewrite bind_attr.
  assert (EV : (r <~ vecmat eta (P self) ;; dot r eta) =
               Ok (dotR (vecmatR (ncols (P self)) eta (P self)) eta)).
  { rewrite vecmat_len by (now rewrite Heta, (shape_len _ _ _ (proj1 Hwf))).
    simpl. apply dot_ok.
    rewrite (has_shape_ncols _ _ _ (proj1 Hwf)), Heta.
    apply length_vecmatR, (shape_rows _ _ _ (proj1 Hwf)). }
  rewrite (bind_lift_ok _ _ _ _ EV), bind_attr.
  rewrite (bind_lift_ok _ _ _ _ EJ), !bind_attr.
  assert (E1 : (r1 <~ vecmat (scale 2 eta) (P self) ;;
                r2 <~ vecmat r1 (F self) ;; dot r2 eta) =
               Ok (dotR (vecmatR (ncols (F self))
                     (vecmatR (ncols (P self)) (scale 2 eta) (P self)) (F self))
                     eta)).
  { rewrite EP in *. simpl in *. rewrite EF. simpl. apply dot_ok. now rewrite LF. }
  rewrite (bind_lift_ok _ _ _ _ E1).
  assert (E2 : (r1 <~ vecmat (scale 2 eta) (P self) ;;
                r2 <~ vecmat r1 (G self) ;;
                d <~ sub Jdv xdd_nom ;; dot r2 d) =
               Ok (dotR (vecmatR (ncols (G self))
                     (vecmatR (ncols (P self)) (scale 2 eta) (P self)) (G self))
                     (map2 Rminus Jdv xdd_nom))).
  { rewrite EP in *. simpl in *. rewrite EG. simpl.
    unfold sub. rewrite broadcast_same by lia. simpl. apply dot_ok.
    rewrite LG, length_map2. lia. }
  rewrite (bind_lift_ok _ _ _ _ E2).
  rewrite (AddLinearConstraint_ok _ _ _ _ _ m Hm); [reflexivity| |reflexivity..].
  constructor; [|constructor].
  rewrite !length_app, Hdelta. simpl. f_equal. exact LJ.
Qed.

Lemma holds_linear_row (mu kd : R) (sol : var -> R) (row : vec) (ub : R)
    (vd : list var) (d : var) :
  length row = length vd ->
  holds mu kd sol (LinearConstraint [row ++ [-1]] [NegInf] [Fin ub] (vd ++ [d]))
  <-> dotR row (value sol vd) - sol d <= ub.
Proof.
  intros Hlen. simpl. unfold value. rewrite map_app. simpl.
  rewrite dotR_app by (now rewrite length_map). simpl.
  split.
  - intros (_ & H & _). lra.
  - intros H. repeat split; try exact I. lra.
Qed.

(** The CLF row holds exactly when [Vdot <= -gamma V + delta]. *)
Lemma clf_constraint_iff (self : CLFController) (eta : vec) (J : mat)
    (vd : list var) (Jdv xdd_nom : vec) (d : var) (mu kd : R)
    (sol : var -> R) :
  controller_wf self ->
  length eta = 12%nat ->
  has_shape 6 (length vd) J = true ->
  length Jdv = 6%nat -> length xdd_nom = 6%nat ->
  holds mu kd sol (clf_constraint self eta J Jdv xdd_nom vd [d]) <->
  Vdot_of (P self) (F self) (G self) eta (nu_of J (value sol vd) Jdv xdd_nom)
  <= - gamma self * V_of (P self) eta + sol d.
Proof.
  intros Hwf Heta HJ HJdv Hxdd. unfold clf_constraint.
  rewrite (holds_linear_row mu kd sol _ _ vd d
             (length_clf_row self Hwf eta J _ Heta HJ)).
  rewrite (clf_row_dot self Hwf eta J _ HJ).
  rewrite (clf_ub_spec self Hwf eta).
  rewrite (Vdot_of_split self Hwf eta J _ Heta HJ _ _ _ HJdv Hxdd).
  split; intros H; lra.
Qed.

(** C1. The constraint [AddVdotConstraint] adds is the single row
    [-inf <= (2 eta' P G J) vd - delta <= -gamma V - 2 eta' P F eta
    - 2 eta' P G (Jdv - xdd_nom)], and a solution satisfies it exactly when
    [Vdot <= -gamma V + delta] for [V = eta' P eta] and
    [Vdot = 2 eta' P (F eta + G nu)], [nu = J vd + Jdv - xdd_nom]. *)
Theorem AddVdotConstraint_linearizes_Vdot (self : CLFController)
    (m : MathematicalProgram) (x_tilde xd_tilde : vec) (J : mat)
    (vd : list var) (Jdv xdd_nom : vec) (d : var) :
  mp self = Some m ->
  controller_wf self ->
  length (x_tilde ++ xd_tilde) = 12%nat ->
  has_shape 6 (length vd) J = true ->
  length Jdv = 6%nat -> length xdd_nom = 6%nat ->
  let eta := x_tilde ++ xd_tilde in
  let row := clf_row self eta J in
  let ub := clf_ub self eta Jdv xdd_nom in
  let c := LinearConstraint [row ++ [-1]] [NegInf] [Fin ub] (vd ++ [d]) in
  AddVdotConstraint x_tilde xd_tilde J vd Jdv xdd_nom [d] self =
    (set_mp self (add_constraint m c), Ok tt)
  /\ length row = length vd
  /\ (forall a : vec,
        dotR row a =
        2 * dotR eta (matvecR (P self) (matvecR (G self) (matvecR J a))))
  /\ ub = - gamma self * V_of (P self) eta
          - 2 * dotR eta (matvecR (P self) (matvecR (F self) eta))
          - 2 * dotR eta (matvecR (P self)
                            (matvecR (G self) (map2 Rminus Jdv xdd_nom)))
  /\ (forall (mu kd : R) (sol : var -> R),
        holds mu kd sol c <->
        Vdot_of (P self) (F self) (G self) eta
          (nu_of J (value sol vd) Jdv xdd_nom)
        <= - gamma self * V_of (P self) eta + sol d).
Proof.
  intros Hm Hwf Heta HJ HJdv Hxdd eta row ub c.
  assert (Hrow : length row = length vd)
    by (apply (length_clf_row self Hwf eta J _ Heta HJ)).
  split; [|split; [exact Hrow|split; [|split]]].
  - apply AddVdotConstraint_ok; auto.
  - intros a. apply (clf_row_dot self Hwf eta J _ HJ).
  - apply (clf_ub_spec self Hwf eta).
  - intros mu kd sol.
    apply (clf_constraint_iff self eta J vd Jdv xdd_nom d mu kd sol); auto.
Qed.

(** *** A zero task-space error *)

Lemma scale_repeat0 (k : R) (n : nat) : scale k (repeat 0 n) = repeat 0 n.
Proof.
  unfold scale. induction n as [|n IH]; simpl; auto.
  rewrite IH. f_equal. ring.
Qed.

Lemma map2_plus_repeat0 (k : R) (row : vec) :
  map2 Rplus (scale k (repeat 0 (length row))) (repeat 0 (length row)) =
  repeat 0 (length row).
Proof.
  rewrite scale_repeat0. induction row as [|a row IH]; simpl; auto.
  rewrite IH. f_equal. ring.
Qed.

Lemma map2_plus_scale0 (row : vec) :
  map2 Rplus (scale 0 row) (repeat 0 (length row)) = repeat 0 (length row).
Proof.
  induction row as [|a row IH]; simpl; auto.
  rewrite IH. f_equal. ring.
Qed.

Lemma vecmatR_repeat0 (c n : nat) (A : mat) :
  Forall (fun row => length row = c) A ->
  vecmatR c (repeat 0 n) A = repeat 0 c.
Proof.
  intros HA. revert n.
  induction HA as [|row A Hrow HA IH]; intros [|n]; simpl; auto.
  rewrite IH. subst c. apply map2_plus_scale0.
Qed.

Lemma clf_row_zero (self : CLFController) (J : mat) (nv : nat) :
  controller_wf self -> has_shape 6 nv J = true ->
  clf_row self (repeat 0 12) J = repeat 0 nv.
Proof.
  intros (HP & HF & HG) HJ. unfold clf_row.
  rewrite scale_repeat0.
  rewrite (has_shape_ncols _ _ _ HJ), (has_shape_ncols _ _ _ HG),
    (has_shape_ncols _ _ _ HP).
  rewrite (vecmatR_repeat0 _ _ _ (shape_rows _ _ _ HP)).
  rewrite (vecmatR_repeat0 _ _ _ (shape_rows _ _ _ HG)).
  apply (vecmatR_repeat0 _ _ _ (shape_rows _ _ _ HJ)).
Qed.

Lemma clf_ub_zero (self : CLFController) (Jdv xdd_nom : vec) :
  controller_wf self -> clf_ub self (repeat 0 12) Jdv xdd_nom = 0.
Proof.
  intros (HP & HF & HG). unfold clf_ub.
  rewrite scale_repeat0.
  rewrite (has_shape_ncols _ _ _ HF), (has_shape_ncols _ _ _ HG),
    (has_shape_ncols _ _ _ HP).
  rewrite (vecmatR_repeat0 _ _ _ (shape_rows _ _ _ HP)).
  rewrite (vecmatR_repeat0 _ _ _ (shape_rows _ _ _ HG)).
  rewrite (vecmatR_repeat0 _ _ _ (shape_rows _ _ _ HF)).
  rewrite !dotR_repeat0_l. ring.
Qed.

Lemma holds_slack (mu kd : R) (sol : var -> R) (d : var) :
  holds mu kd sol (slack_constraint [d]) <-> sol d <= 0.
Proof.
  simpl. split.
  - intros (_ & H & _). lra.
  - intros H. repeat split; try exact I. lra.
Qed.

(** C5. With a zero task-space error, [V = 0], the coefficients of [vd] in
    the CLF row all vanish and its right-hand side is [0]: the row reads
    [0 <= delta].  Together with [delta <= 0] it forces [delta = 0], and
    [delta = 0] satisfies both. *)
Theorem zero_error_constraint (self : CLFController) (m : MathematicalProgram)
    (x_tilde xd_tilde : vec) (J : mat) (vd : list var) (Jdv xdd_nom : vec)
    (d : var) :
  mp self = Some m ->
  controller_wf self ->
  x_tilde ++ xd_tilde = repeat 0 12 ->
  has_shape 6 (length vd) J = true ->
  length Jdv = 6%nat -> length xdd_nom = 6%nat ->
  let c := LinearConstraint [repeat 0 (length vd) ++ [-1]] [NegInf] [Fin 0]
             (vd ++ [d]) in
  V_of (P self) (x_tilde ++ xd_tilde) = 0
  /\ AddVdotConstraint x_tilde xd_tilde J vd Jdv xdd_nom [d] self =
       (set_mp self (add_constraint m c), Ok tt)
  /\ (forall (mu kd : R) (sol : var -> R),
        (holds mu kd sol c <-> 0 <= sol d)
        /\ (holds mu kd sol c -> holds mu kd sol (slack_constraint [d]) ->
            sol d = 0)
        /\ (sol d = 0 ->
            holds mu kd sol c /\ holds mu kd sol (slack_constraint [d]))).
Proof.
  intros Hm Hwf Heta HJ HJdv Hxdd c.
  assert (Hlen : length (x_tilde ++ xd_tilde) = 12%nat)
    by (rewrite Heta; apply repeat_length).
  split; [|split].
  - rewrite Heta. unfold V_of. apply dotR_repeat0_l.
  - rewrite (AddVdotConstraint_ok self m) by auto.
    unfold clf_constraint. rewrite Heta.
    rewrite (clf_row_zero self J _ Hwf HJ), (clf_ub_zero self _ _ Hwf).
    reflexivity.
  - intros mu kd sol.
    assert (Hc : holds mu kd sol c <-> 0 <= sol d).
    { unfold c. rewrite holds_linear_row by apply repeat_length.
      rewrite dotR_repeat0_l. split; intros H; lra. }
    rewrite holds_slack, Hc.
    repeat split; intros; lra.
Qed.

Lemma Vdot_of_terms (self : CLFController) (eta nu : vec) :
  controller_wf self ->
  Vdot_of (P self) (F self) (G self) eta nu =
  2 * dotR eta (matvecR (P self) (matvecR (F self) eta))
  + 2 * dotR eta (matvecR (P self) (matvecR (G self) nu)).
Proof.
  intros (HP & HF & HG). unfold Vdot_of.
  rewrite matvecR_plus, dotR_plus_r.
  - ring.
  - now rewrite !length_matvecR.
  - now rewrite !length_matvecR, (shape_len _ _ _ HF), (shape_len _ _ _ HG).
Qed.

(** ** The task-space stage *)

Lemma rbind_ok {A B : Type} (r : res A) (a : A) (k : A -> res B) :
  r = Ok a -> rbind r k = k a.
Proof. intros ->. reflexivity. Qed.

Lemma array2_ok (c : nat) (rows : list vec) :
  Forall (fun u => length u = c) rows -> array2 rows = Ok rows.
Proof.
  intros H. unfold array2.
  replace (forallb _ rows) with true; [reflexivity|].
  symmetry. apply forallb_forall. intros u Hu. apply Nat.eqb_eq.
  destruct rows as [|u0 rows]; [contradiction|].
  rewrite Forall_forall in H. simpl. rewrite (H u Hu). symmetry. apply H. now left.
Qed.

Lemma getmask_ok {A : Type} (l : list A) (mask : list bool) :
  length mask = length l -> getmask l mask = Ok (select l mask).
Proof. intros H. unfold getmask. now rewrite H, Nat.eqb_refl. Qed.

Lemma reshape_4_3_ok (ps : list vec) :
  length ps = 4%nat -> Forall (fun u => length u = 3%nat) ps ->
  reshape_4_3 ps = Ok ps.
Proof.
  intros Hlen H.
  destruct ps as [|a [|b [|c [|d [|e ps]]]]]; try discriminate.
  inversion H as [|? ? Ha H1]; subst. inversion H1 as [|? ? Hb H2]; subst.
  inversion H2 as [|? ? Hc H3]; subst. inversion H3 as [|? ? Hd _]; subst.
  unfold reshape_4_3. simpl. rewrite !length_app. simpl.
  now rewrite Ha, Hb, Hc, Hd.
Qed.

Lemma array3_ok (r c : nat) (Js : list mat) :
  Forall (fun Jf => has_shape (S r) c Jf = true) Js -> array3 Js = Ok Js.
Proof.
  intros H. unfold array3. destruct Js as [|J0 Js]; [reflexivity|].
  assert (H0 : has_shape (S r) c J0 = true) by (now inversion H).
  rewrite (has_shape_ncols _ _ _ H0). unfold nrows. rewrite (shape_len _ _ _ H0).
  replace (forallb _ (J0 :: Js)) with true; [reflexivity|].
  symmetry. apply forallb_forall. rewrite Forall_forall in H. auto.
Qed.

Lemma stack_matvec_ok (Js : list mat) (v : vec) :
  Forall (fun Jf => Forall (fun row => length row = length v) Jf) Js ->
  stack_matvec Js v = Ok (map (fun Jf => matvecR Jf v) Js).
Proof.
  induction 1 as [|Jf Js HJ _ IH]; simpl; auto.
  now rewrite (matvec_ok _ _ HJ), IH.
Qed.

Lemma vstack_ok (c : nat) (A B : mat) :
  Forall (fun row => length row = c) A ->
  Forall (fun row => length row = c) B ->
  vstack A B = Ok (A ++ B).
Proof.
  intros HA HB. unfold vstack.
  destruct A as [|a A]; [reflexivity|].
  destruct B as [|b B]; [now rewrite app_nil_r|].
  simpl. inversion HA; inversion HB; subst.
  replace (length b) with (length a) by congruence.
  now rewrite Nat.eqb_refl.
Qed.

Lemma select_length_le {A : Type} (l : list A) (mask : list bool) :
  length l = length mask -> length (select l mask) = sum mask.
Proof.
  revert mask. induction l as [|a l IH]; intros [|b mask] H; simpl in *;
    try discriminate; auto.
  destruct b; simpl; unfold sum in *; simpl; rewrite IH by lia; reflexivity.
Qed.

Lemma select_Forall {A : Type} (Q : A -> Prop) (l : list A) (mask : list bool) :
  Forall Q l -> Forall Q (select l mask).
Proof.
  intros H. revert mask. induction H as [|a l Ha H IH]; intros [|b mask]; simpl;
    try constructor.
  destruct b; [constructor|]; auto.
Qed.

Lemma length_concat_uniform {A : Type} (c : nat) (rows : list (list A)) :
  Forall (fun u => length u = c) rows ->
  length (concat rows) = (c * length rows)%nat.
Proof.
  induction 1 as [|u rows Hu _ IH]; simpl; [lia|].
  rewrite length_app, IH, Hu. lia.
Qed.

Lemma length_flatten_select (c : nat) (rows : list vec) (mask : list bool) :
  Forall (fun u => length u = c) rows -> length rows = length mask ->
  length (flatten (select rows mask)) = (c * sum mask)%nat.
Proof.
  intros H Hlen. unfold flatten.
  rewrite (length_concat_uniform c) by (now apply select_Forall).
  now rewrite select_length_le.
Qed.

Lemma length_stacked (a b : vec) (rows : list vec) (mask : list bool) :
  length a = 3%nat -> length b = 3%nat ->
  Forall (fun u => length u = 3%nat) rows -> length rows = length mask ->
  length (stacked a b rows mask) = (6 + 3 * sum mask)%nat.
Proof.
  intros Ha Hb H Hlen. unfold stacked.
  rewrite !length_app, Ha, Hb, (length_flatten_select 3) by assumption. lia.
Qed.

Lemma as_vec3_v3 (w : vec3) : as_vec3 (v3 w) = Ok w.
Proof. destruct w. reflexivity. Qed.

Lemma as_vec3_ok (u : vec) :
  length u = 3%nat -> exists w, as_vec3 u = Ok w /\ v3 w = u.
Proof.
  destruct u as [|a [|b [|c [|d u]]]]; try discriminate.
  intros _. now exists (mk3 a b c).
Qed.

Lemma as_vec3_inv (u : vec) (w : vec3) : as_vec3 u = Ok w -> u = v3 w.
Proof.
  destruct u as [|a [|b [|c [|d u]]]]; try discriminate.
  intros H. inversion H. reflexivity.
Qed.

Section TaskSpaceStage.

Variable CalcRpyDt : vec3 -> vec3 -> res vec3.
Variable W : vec3 -> vec3 -> vec3.

(** On well-formed inputs the task-space stage returns normally, with the
    value [task_space_value]. *)
Lemma task_space_ok (plant : Plant) (td : trunk.TrunkData) (v : vec)
    (rpyd rpyd_nom rpydd_nom : vec3) :
  trunk_wf td -> plant_wf plant v ->
  measured_rpyd CalcRpyDt plant v = Ok rpyd ->
  as_vec3 (trunk.rpyd_body td) = Ok rpyd_nom ->
  as_vec3 (trunk.rpydd_body td) = Ok rpydd_nom ->
  task_space CalcRpyDt W plant td v =
  Ok (task_space_value W plant td v rpyd rpyd_nom rpydd_nom).
Proof.
  intros (Hc & Hbody & Hp & Hpd & Hpdd) (Hv & HJb & HJdvb & Hpf & HJf & HJdvf)
    Hrpyd Hrn Hrnn.
  unfold task_space_value, task_space, measured_rpyd in *.
  unfold X_body_of, J_body_of, Jdv_body_of, p_feet_of, J_feet_of, Jdv_feet_of,
    p_feet_nom_of, pd_feet_nom_of, pdd_feet_nom_of, feet in *.
  cbn [map] in *.
  destruct (CalcFramePoseQuantities plant body_frame) as [[X Jb] Jdvb].
  destruct (CalcFramePositionQuantities plant lf_foot_frame) as [[p1 J1] Jdv1].
  destruct (CalcFramePositionQuantities plant rf_foot_frame) as [[p2 J2] Jdv2].
  destruct (CalcFramePositionQuantities plant lh_foot_frame) as [[p3 J3] Jdv3].
  destruct (CalcFramePositionQuantities plant rh_foot_frame) as [[p4 J4] Jdv4].
  cbn [fst snd] in *.
  pose proof (proj1 (Forall_forall _ _) Hbody) as Hb.
  assert (Hb1 : length (trunk.p_body td) = 3%nat) by (apply Hb; simpl; tauto).
  assert (Hb2 : length (trunk.pd_body td) = 3%nat) by (apply Hb; simpl; tauto).
  assert (Hb3 : length (trunk.pdd_body td) = 3%nat) by (apply Hb; simpl; tauto).
  assert (Hb4 : length (trunk.rpy_body td) = 3%nat) by (apply Hb; simpl; tauto).
  clear Hb.
  remember (map negb (trunk.contact_states td)) as swing eqn:Hswing.
  assert (Hs : length swing = 4%nat) by (subst swing; now rewrite length_map).
  rewrite (array2_ok 3 _ Hp), (array2_ok 3 _ Hpd), (array2_ok 3 _ Hpdd).
  cbn [rbind].
  rewrite !getmask_ok by (rewrite Hs; reflexivity). cbn [rbind].
  assert (HJbv : matvec Jb v = Ok (matvecR Jb v)).
  { apply matvec_ok. rewrite Hv. apply (shape_rows _ _ _ HJb). }
  rewrite HJbv in *. cbn [rbind] in *.
  destruct (as_vec3 (firstn 3 (matvecR Jb v))) as [omega3|e] eqn:Eom;
    [|discriminate].
  cbn [rbind] in *. rewrite Hrpyd. cbn [rbind].
  rewrite (reshape_4_3_ok [p1; p2; p3; p4] eq_refl Hpf). cbn [rbind].
  rewrite (array3_ok 2 _ _ HJf). cbn [rbind].
  rewrite (array2_ok 3 _ HJdvf). cbn [rbind].
  rewrite stack_matvec_ok.
  2:{ rewrite Hv. eapply Forall_impl; [|exact HJf].
      intros Jf HJ. apply (shape_rows _ _ _ HJ). }
  cbn [rbind].
  rewrite !getmask_ok by (try rewrite length_map; rewrite ?Hs, ?Hc; reflexivity).
  cbn [rbind].
  assert (HJs : vstack Jb (concat (select [J1; J2; J3; J4] swing)) =
                Ok (Jb ++ concat (select [J1; J2; J3; J4] swing))).
  { apply (vstack_ok (num_velocities plant)); [apply (shape_rows _ _ _ HJb)|].
    apply Forall_concat, select_Forall.
    eapply Forall_impl; [|exact HJf]. intros Jf HJ. apply (shape_rows _ _ _ HJ). }
  rewrite HJs. clear HJs.
  destruct (any swing); cbn [rbind].
  all: rewrite Hrn, Hrnn; cbn [rbind].
  all: fold (stacked (v3 (rotation X)) (v3 (translation X)) [p1; p2; p3; p4] swing).
  all: change (map (fun Jf : mat => matvecR Jf v) [J1; J2; J3; J4])
    with [matvecR J1 v; matvecR J2 v; matvecR J3 v; matvecR J4 v].
  all: repeat match goal with
  | |- context [?a ++ ?b ++ flatten (select ?r ?m)] =>
      fold (stacked a b r m)
  end.
  all: unfold sub.
  all: assert (Hpd_body : length (skipn 3 (matvecR Jb v)) = 3%nat)
    by (now rewrite length_skipn, length_matvecR, (shape_len _ _ _ HJb)).
  all: assert (Hpd_feet : Forall (fun u : vec => length u = 3%nat)
                 [matvecR J1 v; matvecR J2 v; matvecR J3 v; matvecR J4 v]).
  1,3: (pose proof (proj1 (Forall_forall _ _) HJf) as HJf';
        repeat constructor; rewrite length_matvecR;
        apply (shape_len _ (num_velocities plant)), HJf'; simpl; tauto).
  all: rewrite !broadcast_same; [reflexivity| |].
  all: rewrite !length_stacked; auto.
Qed.

End TaskSpaceStage.

(** ** Building the program *)

Lemma set_mp_set_mp (self : CLFController) (m1 m2 : MathematicalProgram) :
  set_mp (set_mp self m1) m2 = set_mp self m2.
Proof. reflexivity. Qed.

Lemma set_mp_same (self : CLFController) (m : MathematicalProgram) :
  mp self = Some m -> set_mp self m = self.
Proof. destruct self. simpl. intros ->. reflexivity. Qed.

Lemma declare_nil (m : MathematicalProgram) : declare m [] = m.
Proof. destruct m. unfold declare. simpl. now rewrite app_nil_r. Qed.

Lemma declare_declare (m : MathematicalProgram) (a b : list var) :
  declare (declare m a) b = declare m (a ++ b).
Proof. unfold declare. simpl. now rewrite app_assoc. Qed.

Lemma add_constraints_nil (m : MathematicalProgram) : add_constraints m [] = m.
Proof. destruct m. unfold add_constraints. simpl. now rewrite app_nil_r. Qed.

Lemma add_constraints_cons (m : MathematicalProgram) (c : constraint)
    (cs : list constraint) :
  add_constraints (add_constraint m c) cs = add_constraints m (c :: cs).
Proof. unfold add_constraints, add_constraint. simpl. now rewrite <- app_assoc. Qed.

Lemma add_constraints_app (m : MathematicalProgram) (cs cs' : list constraint) :
  add_constraints (add_constraints m cs) cs' = add_constraints m (cs ++ cs').
Proof. unfold add_constraints. simpl. now rewrite app_assoc. Qed.

Lemma NewContinuousVariables_ok (n : nat) (name : var_name)
    (self : CLFController) (m : MathematicalProgram) :
  mp self = Some m ->
  NewContinuousVariables n name self =
  (set_mp self (declare m (new_vars name n)), Ok (new_vars name n)).
Proof.
  intros Hm. unfold NewContinuousVariables.
  now rewrite (bind_ok _ _ _ _ _ (the_program_ok _ _ Hm)).
Qed.

Lemma new_force_vars_ok (js : list nat) (self : CLFController)
    (m : MathematicalProgram) :
  mp self = Some m ->
  new_force_vars js self =
  (set_mp self (declare m (concat (map (fun j => new_vars (n_f j) 3) js))),
   Ok (map (fun j => new_vars (n_f j) 3) js)).
Proof.
  revert self m. induction js as [|j js IH]; intros self m Hm; simpl.
  - unfold ret. now rewrite declare_nil, set_mp_same.
  - rewrite (bind_ok _ _ _ _ _ (NewContinuousVariables_ok 3 (n_f j) _ _ Hm)).
    erewrite bind_ok by (apply IH; reflexivity).
    unfold ret. now rewrite set_mp_set_mp, declare_declare.
Qed.

Lemma AddFrictionPyramidConstraint_ok (f_c : list (list var))
    (self : CLFController) (m : MathematicalProgram) :
  mp self = Some m ->
  AddFrictionPyramidConstraint f_c self =
  (set_mp self (add_constraints m (map FrictionPyramidConstraint f_c)), Ok tt).
Proof.
  revert self m. induction f_c as [|f f_c IH]; intros self m Hm; simpl.
  - unfold ret. now rewrite add_constraints_nil, set_mp_same.
  - rewrite (bind_ok _ _ _ _ _ (the_program_ok _ _ Hm)).
    unfold bind at 1.
    erewrite IH by reflexivity.
    now rewrite set_mp_set_mp, add_constraints_cons.
Qed.

Lemma AddContactConstraint_ok (J_c : list mat) (vd : list var)
    (Jdv_c : list vec) (v : vec) (self : CLFController)
    (m : MathematicalProgram) :
  mp self = Some m ->
  AddContactConstraint J_c vd Jdv_c v self =
  (set_mp self (add_constraints m (contact_constraints J_c Jdv_c v vd)), Ok tt).
Proof.
  revert Jdv_c self m.
  induction J_c as [|Jc J_c IH]; intros [|Jdvc Jdv_c] self m Hm; simpl;
    try (unfold ret, contact_constraints; simpl;
         now rewrite add_constraints_nil, set_mp_same).
  rewrite (bind_ok _ _ _ _ _ (the_program_ok _ _ Hm)).
  unfold bind at 1.
  erewrite IH by reflexivity.
  now rewrite set_mp_set_mp, add_constraints_cons.
Qed.

Lemma length_new_vars (name : var_name) (n : nat) : length (new_vars name n) = n.
Proof. unfold new_vars. now rewrite length_map, length_seq. Qed.

Lemma controller_wf_set_mp (self : CLFController) (m : MathematicalProgram) :
  controller_wf self -> controller_wf (set_mp self m).
Proof. intros H. exact H. Qed.

Lemma AddLinearCost_ok (a : vec) (b : R) (vars : list var)
    (self : CLFController) (m : MathematicalProgram) :
  mp self = Some m -> length a = length vars ->
  AddLinearCost a b vars self = (set_mp self (add_cost m (LinearCost a b vars)), Ok tt).
Proof.
  intros Hm Hlen. unfold AddLinearCost.
  rewrite (bind_ok _ _ _ _ _ (the_program_ok _ _ Hm)).
  now rewrite Hlen, Nat.eqb_refl.
Qed.

Lemma AddVdotCost_ok (self : CLFController) (m : MathematicalProgram)
    (x_tilde xd_tilde : vec) (J : mat) (vd : list var) (weight : R) :
  mp self = Some m ->
  controller_wf self ->
  length (x_tilde ++ xd_tilde) = 12%nat ->
  has_shape 6 (length vd) J = true ->
  AddVdotCost x_tilde xd_tilde J vd weight self =
  (set_mp self
     (add_cost m (LinearCost (vdot_cost_row self (x_tilde ++ xd_tilde) J weight)
                    0 vd)),
   Ok tt).
Proof.
  intros Hm Hwf Heta HJ. unfold AddVdotCost.
  destruct (etaPGJ_ok self Hwf (x_tilde ++ xd_tilde) J _ Heta HJ (weight * 2))
    as [EJ LJ].
  rewrite !bind_attr, (bind_lift_ok _ _ _ _ EJ).
  now apply AddLinearCost_ok.
Qed.

Lemma vecmat_bad (u : vec) (A : mat) :
  length u <> nrows A -> vecmat u A = Raise ValueError.
Proof.
  intros H. unfold vecmat. apply Nat.eqb_neq in H. now rewrite H.
Qed.

(** A stacked error whose length is not that of the certificate makes
    [AddVdotCost] raise, leaving the program as it was. *)
Lemma AddVdotCost_raises (self : CLFController) (x_tilde xd_tilde : vec)
    (J : mat) (vd : list var) (weight : R) :
  controller_wf self ->
  length (x_tilde ++ xd_tilde) <> 12%nat ->
  AddVdotCost x_tilde xd_tilde J vd weight self = (self, Raise ValueError).
Proof.
  intros (HP & _) Heta. unfold AddVdotCost.
  rewrite !bind_attr. apply bind_lift_raise.
  rewrite vecmat_bad; [reflexivity|].
  unfold nrows. now rewrite length_scale, (shape_len _ _ _ HP).
Qed.

(** The same steps, run on a controller whose program is [m]. *)
Section At.

Variables (self : CLFController) (m : MathematicalProgram).

Lemma NewContinuousVariables_at (n : nat) (name : var_name) :
  NewContinuousVariables n name (set_mp self m) =
  (set_mp self (declare m (new_vars name n)), Ok (new_vars name n)).
Proof. exact (NewContinuousVariables_ok n name (set_mp self m) m eq_refl). Qed.

Lemma new_force_vars_at (n : nat) :
  new_force_vars (seq 0 n) (set_mp self m) =
  (set_mp self (declare m (concat (force_vars n))), Ok (force_vars n)).
Proof. exact (new_force_vars_ok (seq 0 n) (set_mp self m) m eq_refl). Qed.

Lemma AddJacobianTypeCost_at (J : mat) (vd : list var) (Jdv xdd_nom : vec)
    (weight : R) :
  AddJacobianTypeCost J vd Jdv xdd_nom weight (set_mp self m) =
  (set_mp self (add_cost m (JacobianTypeCost J vd Jdv xdd_nom weight)), Ok tt).
Proof. reflexivity. Qed.

Lemma AddVdotCost_at (x_tilde xd_tilde : vec) (J : mat) (vd : list var)
    (weight : R) :
  controller_wf self ->
  length (x_tilde ++ xd_tilde) = 12%nat ->
  has_shape 6 (length vd) J = true ->
  AddVdotCost x_tilde xd_tilde J vd weight (set_mp self m) =
  (set_mp self
     (add_cost m (LinearCost (vdot_cost_row self (x_tilde ++ xd_tilde) J weight)
                    0 vd)),
   Ok tt).
Proof.
  intros Hwf Heta HJ.
  exact (AddVdotCost_ok (set_mp self m) m x_tilde xd_tilde J vd weight eq_refl
           Hwf Heta HJ).
Qed.

Lemma AddVdotCost_raises_at (x_tilde xd_tilde : vec) (J : mat) (vd : list var)
    (weight : R) :
  controller_wf self ->
  length (x_tilde ++ xd_tilde) <> 12%nat ->
  AddVdotCost x_tilde xd_tilde J vd weight (set_mp self m) =
  (set_mp self m, Raise ValueError).
Proof.
  intros Hwf Heta.
  exact (AddVdotCost_raises (set_mp self m) x_tilde xd_tilde J vd weight Hwf Heta).
Qed.

Lemma AddVdotConstraint_at (x_tilde xd_tilde : vec) (J : mat) (vd : list var)
    (Jdv xdd_nom : vec) (delta : list var) :
  controller_wf self ->
  length (x_tilde ++ xd_tilde) = 12%nat ->
  has_shape 6 (length vd) J = true ->
  length Jdv = 6%nat -> length xdd_nom = 6%nat -> length delta = 1%nat ->
  AddVdotConstraint x_tilde xd_tilde J vd Jdv xdd_nom delta (set_mp self m) =
  (set_mp self
     (add_constraint m
        (clf_constraint self (x_tilde ++ xd_tilde) J Jdv xdd_nom vd delta)),
   Ok tt).
Proof.
  intros Hwf Heta HJ HJdv Hxdd Hd.
  exact (AddVdotConstraint_ok (set_mp self m) m x_tilde xd_tilde J vd Jdv
           xdd_nom delta eq_refl Hwf Heta HJ HJdv Hxdd Hd).
Qed.

Lemma AddSlackConstraint_at :
  AddLinearConstraint [[1]] [NegInf] [Fin 0] (firstn 1 (new_vars n_delta 1))
    (set_mp self m) =
  (set_mp self (add_constraint m (slack_constraint (new_vars n_delta 1))), Ok tt).
Proof. reflexivity. Qed.

Lemma AddDynamicsConstraint_at (M : mat) (vd : list var) (Cv tau_g : vec)
    (S_ : mat) (tau : list var) (J_c : list mat) (f_c : list (list var)) :
  AddDynamicsConstraint M vd Cv tau_g S_ tau J_c f_c (set_mp self m) =
  (set_mp self
     (add_constraint m (DynamicsConstraint M Cv tau_g S_ J_c vd tau f_c)), Ok tt).
Proof. reflexivity. Qed.

Lemma AddFrictionPyramidConstraint_at (f_c : list (list var)) :
  AddFrictionPyramidConstraint f_c (set_mp self m) =
  (set_mp self (add_constraints m (map FrictionPyramidConstraint f_c)), Ok tt).
Proof. exact (AddFrictionPyramidConstraint_ok f_c (set_mp self m) m eq_refl). Qed.

Lemma AddContactConstraint_at (J_c : list mat) (vd : list var)
    (Jdv_c : list vec) (v : vec) :
  AddContactConstraint J_c vd Jdv_c v (set_mp self m) =
  (set_mp self (add_constraints m (contact_constraints J_c Jdv_c v vd)), Ok tt).
Proof. exact (AddContactConstraint_ok J_c vd Jdv_c v (set_mp self m) m eq_refl). Qed.

End At.

Lemma setup_program_ok (self : CLFController) (M : mat) (Cv tau_g : vec)
    (S_ : mat) (ts : TaskSpace) (nv na : nat) (v : vec) :
  controller_wf self -> stance_shapes ts nv ->
  setup_program M Cv tau_g S_ ts nv na v self =
  (set_mp self (tick_program self M Cv tau_g S_ ts nv na v),
   Ok (new_vars n_vd nv, new_vars n_tau na)).
Proof.
  intros Hwf (Heta & HJ & HJdv & Hxdd). unfold setup_program.
  assert (HJ' : has_shape 6 (length (new_vars n_vd nv)) (J ts) = true)
    by (now rewrite length_new_vars).
  unfold bind at 1. unfold new_program.
  rewrite (bind_ok _ _ _ _ _ (NewContinuousVariables_at _ _ _ _)).
  rewrite (bind_ok _ _ _ _ _ (NewContinuousVariables_at _ _ _ _)).
  rewrite (bind_ok _ _ _ _ _ (new_force_vars_at _ _ _)).
  rewrite (bind_ok _ _ _ _ _ (NewContinuousVariables_at _ _ _ _)).
  rewrite (bind_ok _ _ _ _ _ (AddJacobianTypeCost_at _ _ _ _ _ _ _)).
  rewrite (bind_ok _ _ _ _ _ (AddVdotCost_at self _ _ _ _ _ _ Hwf Heta HJ')).
  rewrite (bind_ok _ _ _ _ _ (AddVdotConstraint_at self _ _ _ _ _ _ _
             (new_vars n_delta 1) Hwf Heta HJ' HJdv Hxdd eq_refl)).
  rewrite (bind_ok _ _ _ _ _ (AddSlackConstraint_at _ _)).
  rewrite (bind_ok _ _ _ _ _ (AddDynamicsConstraint_at _ _ _ _ _ _ _ _ _ _)).
  unfold tick_program.
  destruct (any (contact_feet ts)).
  - erewrite bind_ok.
    2:{ rewrite (bind_ok _ _ _ _ _ (AddFrictionPyramidConstraint_at _ _ _)).
        apply AddContactConstraint_at. }
    unfold ret, add_constraints, add_constraint, add_cost, declare, empty_program.
    cbn [decision_variables costs constraints app].
    now rewrite <- app_assoc.
  - unfold bind, ret, add_constraint, add_cost, declare, empty_program.
    cbn [decision_variables costs constraints app].
    reflexivity.
Qed.

Lemma setup_program_raises (self : CLFController) (M : mat) (Cv tau_g : vec)
    (S_ : mat) (ts : TaskSpace) (nv na : nat) (v : vec) :
  controller_wf self ->
  length (x_tilde ts ++ xd_tilde ts) <> 12%nat ->
  setup_program M Cv tau_g S_ ts nv na v self =
  (set_mp self (program_before_clf ts nv na), Raise ValueError).
Proof.
  intros Hwf Heta. unfold setup_program.
  unfold bind at 1. unfold new_program.
  rewrite (bind_ok _ _ _ _ _ (NewContinuousVariables_at _ _ _ _)).
  rewrite (bind_ok _ _ _ _ _ (NewContinuousVariables_at _ _ _ _)).
  rewrite (bind_ok _ _ _ _ _ (new_force_vars_at _ _ _)).
  rewrite (bind_ok _ _ _ _ _ (NewContinuousVariables_at _ _ _ _)).
  rewrite (bind_ok _ _ _ _ _ (AddJacobianTypeCost_at _ _ _ _ _ _ _)).
  rewrite (bind_raise _ _ _ _ _ (AddVdotCost_raises_at self _ _ _ _ _ _ Hwf Heta)).
  reflexivity.
Qed.

Lemma log_diagnostics_ok (self : CLFController) (m : MathematicalProgram)
    (ts : TaskSpace) (nv : nat) (vd : vec) :
  controller_wf self -> stance_shapes ts nv -> length vd = nv ->
  log_diagnostics ts vd (set_mp self m) = (after_tick self m ts vd, Ok tt).
Proof.
  intros Hwf (Heta & HJ & HJdv & Hxdd) Hvd. unfold log_diagnostics.
  set (eta := x_tilde ts ++ xd_tilde ts) in *.
  assert (Hwf' : controller_wf (set_mp self m)) by exact Hwf.
  destruct (etaP_ok _ Hwf' eta Heta 2) as [EP LP].
  destruct (etaPG_ok _ Hwf' eta Heta 2) as [EG LG].
  destruct (etaPF_ok _ Hwf' eta Heta 2) as [EF LF].
  rewrite bind_attr.
  change (P (set_mp self m)) with (P self) in *.
  change (F (set_mp self m)) with (F self) in *.
  change (G (set_mp self m)) with (G self) in *.
  assert (EV : (r <~ vecmat eta (P self) ;; dot r eta) = Ok (V_logged self ts)).
  { destruct Hwf as (HP & _).
    rewrite vecmat_len by (now rewrite Heta, (shape_len _ _ _ HP)).
    cbn [rbind]. apply dot_ok.
    rewrite (has_shape_ncols _ _ _ HP), Heta.
    apply length_vecmatR, (shape_rows _ _ _ HP). }
  rewrite (bind_lift_ok _ _ _ _ EV).
  unfold bind at 1. unfold set_V.
  rewrite (bind_lift_ok _ _ _ _ (dot_ok _ _ eq_refl)).
  unfold bind at 1. unfold set_err.
  rewrite !bind_attr.
  cbn [F G P gamma mp V err Vdot set_mp].
  assert (EVd : (r1 <~ vecmat (scale 2 eta) (P self) ;;
                 r2 <~ vecmat r1 (F self) ;;
                 t1 <~ dot r2 eta ;;
                 r3 <~ vecmat (scale 2 eta) (P self) ;;
                 r4 <~ vecmat r3 (G self) ;;
                 Jvd <~ matvec (J ts) vd ;;
                 s1 <~ add Jvd (Jdv ts) ;;
                 nu <~ sub s1 (xdd_nom ts) ;;
                 t2 <~ dot r4 nu ;;
                 Ok (t1 + t2)) = Ok (Vdot_logged self ts vd)).
  { rewrite EP in *. cbn [rbind] in *. rewrite EF. cbn [rbind].
    rewrite dot_ok by (now rewrite LF). cbn [rbind].
    rewrite EG. cbn [rbind].
    rewrite matvec_ok by (rewrite Hvd; apply (shape_rows _ _ _ HJ)).
    cbn [rbind]. unfold add, sub.
    rewrite broadcast_same
      by (now rewrite length_matvecR, (shape_len _ _ _ HJ)).
    cbn [rbind].
    rewrite broadcast_same
      by (rewrite length_map2, length_matvecR, (shape_len _ _ _ HJ); lia).
    cbn [rbind].
    rewrite dot_ok; [reflexivity|].
    rewrite LG, !length_map2, length_matvecR, (shape_len _ _ _ HJ). lia. }
  rewrite (bind_lift_ok _ _ _ _ EVd).
  reflexivity.
Qed.

Section ControlLawCases.

Variable CalcRpyDt : vec3 -> vec3 -> res vec3.
Variable W : vec3 -> vec3 -> vec3.
Variable Solve : MathematicalProgram -> MathematicalProgramResult.

Variables (plant : Plant) (td : trunk.TrunkData) (q v : vec).
Variables (self : CLFController) (ts : TaskSpace).

Hypothesis Hwf : controller_wf self.
Hypothesis Hts : task_space CalcRpyDt W plant td v = Ok ts.

(** A tick whose stacked error has the length of the certificate: the
    program is built and handed to the solver, whose verdict decides. *)
Lemma ControlLaw_stance :
  stance_shapes ts (num_velocities plant) ->
  let m := plant_program self plant ts v in
  let result := Solve m in
  ControlLaw CalcRpyDt W Solve plant td q v self =
  if is_success result
  then (after_tick self m ts
          (map (GetSolution result) (new_vars n_vd (num_velocities plant))),
        Ok (map (GetSolution result) (new_vars n_tau (num_actuators plant))))
  else (set_mp self m, Raise AssertionError).
Proof using Hwf Hts.
  intros Hsh m result. unfold ControlLaw, plant_program in *.
  destruct (CalcDynamics plant) as [[[M Cv] tau_g] S_].
  rewrite (bind_lift_ok _ _ _ _ Hts).
  rewrite (bind_ok _ _ _ _ _ (setup_program_ok _ _ _ _ _ _ _ _ _ Hwf Hsh)).
  rewrite (bind_ok _ _ _ _ _ (the_program_ok (set_mp self m) m eq_refl)).
  fold result.
  destruct (is_success result).
  - unfold bind at 1. unfold ret at 1.
    assert (Hlen : length (map (GetSolution result)
                             (new_vars n_vd (num_velocities plant))) =
                   num_velocities plant)
      by (now rewrite length_map, length_new_vars).
    rewrite (bind_ok _ _ _ _ _ (log_diagnostics_ok self m ts _ _ Hwf Hsh Hlen)).
    reflexivity.
  - reflexivity.
Qed.

(** A tick whose stacked error has any other length: [AddVdotCost] raises
    before any constraint is added. *)
Lemma ControlLaw_raises :
  length (x_tilde ts ++ xd_tilde ts) <> 12%nat ->
  ControlLaw CalcRpyDt W Solve plant td q v self =
  (set_mp self
     (program_before_clf ts (num_velocities plant) (num_actuators plant)),
   Raise ValueError).
Proof using Hwf Hts.
  intros Heta. unfold ControlLaw.
  destruct (CalcDynamics plant) as [[[M Cv] tau_g] S_].
  rewrite (bind_lift_ok _ _ _ _ Hts).
  now rewrite (bind_raise _ _ _ _ _
                 (setup_program_raises _ _ _ _ _ _ _ _ _ Hwf Heta)).
Qed.

End ControlLawCases.

(** ** Shapes of the task-space quantities *)

Lemma any_false_sum (l : list bool) : any l = false -> sum l = 0%nat.
Proof.
  unfold any, sum. induction l as [|b l IH]; simpl; auto.
  destruct b; simpl; [discriminate|auto].
Qed.

Lemma any_true_sum (l : list bool) : any l = true -> (0 < sum l)%nat.
Proof.
  unfold any, sum. induction l as [|b l IH]; simpl; [discriminate|].
  destruct b; simpl; [lia|auto].
Qed.

Lemma sum_negb (l : list bool) : (sum l + sum (map negb l) = length l)%nat.
Proof.
  unfold sum. induction l as [|b l IH]; simpl; auto.
  destruct b; simpl; lia.
Qed.

Lemma all_true_no_swing (l : list bool) :
  forallb (fun b => b) l = true -> any (map negb l) = false.
Proof.
  unfold any. induction l as [|b l IH]; simpl; auto.
  destruct b; simpl; [auto|discriminate].
Qed.

Section Shapes.

Variable W : vec3 -> vec3 -> vec3.
Variables (plant : Plant) (td : trunk.TrunkData) (v : vec).
Variables (rpyd rpyd_nom rpydd_nom : vec3).

Hypothesis Htd : trunk_wf td.
Hypothesis Hplant : plant_wf plant v.

Let ts := task_space_value W plant td v rpyd rpyd_nom rpydd_nom.

Lemma length_swing_feet : length (swing_feet ts) = 4%nat.
Proof using Htd.
  destruct Htd as (Hc & _). unfold ts, task_space_value. cbn [swing_feet].
  now rewrite length_map.
Qed.

Ltac open_wf :=
  destruct Htd as (Hc & Hbody & Hp & Hpd & Hpdd);
  destruct Hplant as (Hv & HJb & HJdvb & Hpf & HJf & HJdvf);
  pose proof (proj1 (Forall_forall _ _) Hbody) as Hb;
  pose proof (proj1 (Forall_forall _ _) HJf) as HJf'.

Lemma length_pd_feet :
  Forall (fun u : vec => length u = 3%nat)
    (map (fun Jf => matvecR Jf v) (J_feet_of plant)).
Proof using Hplant.
  destruct Hplant as (_ & _ & _ & _ & HJf & _).
  apply Forall_map. eapply Forall_impl; [|exact HJf].
  intros Jf HJ. rewrite length_matvecR. apply (shape_len _ _ _ HJ).
Qed.

Lemma length_pd_body : length (skipn 3 (matvecR (J_body_of plant) v)) = 3%nat.
Proof using Hplant.
  destruct Hplant as (_ & HJb & _).
  now rewrite length_skipn, length_matvecR, (shape_len _ _ _ HJb).
Qed.

Lemma length_x : length (x ts) = (6 + 3 * num_swing ts)%nat.
Proof using Htd Hplant.
  pose proof length_swing_feet as Hs. open_wf.
  unfold ts, task_space_value in *. cbn [x num_swing swing_feet] in *.
  rewrite length_stacked; auto.
Qed.

Lemma length_x_nom : length (x_nom ts) = (6 + 3 * num_swing ts)%nat.
Proof using Htd Hplant.
  pose proof length_swing_feet as Hs. open_wf.
  unfold ts, task_space_value in *. cbn [x_nom num_swing swing_feet] in *.
  rewrite length_stacked; auto; apply Hb; simpl; tauto.
Qed.

Lemma length_xd : length (xd ts) = (6 + 3 * num_swing ts)%nat.
Proof using Htd Hplant.
  pose proof length_swing_feet as Hs. pose proof length_pd_feet as Hpf'.
  pose proof length_pd_body as Hpb. open_wf.
  unfold ts, task_space_value in *. cbn [xd num_swing swing_feet] in *.
  rewrite length_stacked; auto.
Qed.

Lemma length_xd_nom : length (xd_nom ts) = (6 + 3 * num_swing ts)%nat.
Proof using Htd Hplant.
  pose proof length_swing_feet as Hs. open_wf.
  unfold ts, task_space_value in *. cbn [xd_nom num_swing swing_feet] in *.
  rewrite length_stacked; auto; apply Hb; simpl; tauto.
Qed.

Lemma length_xdd_nom : length (xdd_nom ts) = (6 + 3 * num_swing ts)%nat.
Proof using Htd Hplant.
  pose proof length_swing_feet as Hs. open_wf.
  unfold ts, task_space_value in *. cbn [xdd_nom num_swing swing_feet] in *.
  rewrite length_stacked; auto; apply Hb; simpl; tauto.
Qed.

Lemma length_x_tilde : length (x_tilde ts) = (6 + 3 * num_swing ts)%nat.
Proof using Htd Hplant.
  pose proof length_x as H1. pose proof length_x_nom as H2.
  unfold ts, task_space_value in *. cbn [x_tilde x x_nom num_swing] in *.
  rewrite length_map2, H1, H2. lia.
Qed.

Lemma length_xd_tilde : length (xd_tilde ts) = (6 + 3 * num_swing ts)%nat.
Proof using Htd Hplant.
  pose proof length_xd as H1. pose proof length_xd_nom as H2.
  unfold ts, task_space_value in *. cbn [xd_tilde xd xd_nom num_swing] in *.
  rewrite length_map2, H1, H2. lia.
Qed.

(** The stacked error [eta] has [12 + 6 * num_swing] entries. *)
Lemma length_eta :
  length (x_tilde ts ++ xd_tilde ts) = (12 + 6 * num_swing ts)%nat.
Proof using Htd Hplant.
  rewrite length_app, length_x_tilde, length_xd_tilde. lia.
Qed.

Lemma length_J : length (J ts) = (6 + 3 * num_swing ts)%nat.
Proof using Htd Hplant.
  pose proof length_swing_feet as Hs. open_wf.
  unfold ts, task_space_value in *. cbn [J num_swing swing_feet] in *.
  destruct (any (map negb (trunk.contact_states td))) eqn:Hany.
  - rewrite length_app, (shape_len _ _ _ HJb).
    rewrite (length_concat_uniform 3).
    + rewrite select_length_le; [lia|].
      unfold J_feet_of, feet. simpl. now rewrite Hs.
    + apply select_Forall. eapply Forall_impl; [|exact HJf].
      intros Jf HJ. apply (shape_len _ _ _ HJ).
  - rewrite (any_false_sum _ Hany), (shape_len _ _ _ HJb). lia.
Qed.

(** With no swing foot the shapes are those of the certificate. *)
Lemma stance_shapes_value :
  any (swing_feet ts) = false -> stance_shapes ts (num_velocities plant).
Proof using Htd Hplant.
  intros Hany. pose proof length_eta as He. pose proof length_xdd_nom as Hx.
  assert (Hn : num_swing ts = 0%nat) by (apply any_false_sum; exact Hany).
  rewrite Hn in *. open_wf.
  unfold stance_shapes. repeat split; auto.
  - unfold ts, task_space_value in *. cbn [J swing_feet] in *.
    now rewrite Hany.
  - unfold ts, task_space_value in *. cbn [Jdv swing_feet] in *.
    now rewrite Hany.
Qed.

Lemma swing_length_eta :
  any (swing_feet ts) = true -> length (x_tilde ts ++ xd_tilde ts) <> 12%nat.
Proof using Htd Hplant.
  intros Hany. rewrite length_eta.
  pose proof (any_true_sum _ Hany) as Hpos.
  change (sum (swing_feet ts)) with (num_swing ts) in Hpos. lia.
Qed.

End Shapes.

(** ** The logged diagnostics *)

(** [Vdot] as the code logs it is [2 eta' P (F eta + G nu)]. *)
Lemma Vdot_logged_spec (self : CLFController) (ts : TaskSpace) (nv : nat)
    (vd : vec) :
  controller_wf self -> stance_shapes ts nv ->
  Vdot_logged self ts vd =
  Vdot_of (P self) (F self) (G self) (x_tilde ts ++ xd_tilde ts)
    (nu_of (J ts) vd (Jdv ts) (xdd_nom ts)).
Proof.
  intros Hwf (Heta & HJ & HJdv & Hxdd).
  rewrite (Vdot_of_split self Hwf _ (J ts) nv Heta HJ vd _ _ HJdv Hxdd).
  pose proof Hwf as (HP & HF & HG).
  unfold Vdot_logged.
  rewrite (has_shape_ncols _ _ _ HF), (has_shape_ncols _ _ _ HG),
    (has_shape_ncols _ _ _ HP).
  rewrite (dotR_vecmatR _ _ _ _ (shape_rows _ _ _ HF)).
  rewrite (dotR_vecmatR _ _ _ _ (shape_rows _ _ _ HG)).
  rewrite !(dotR_vecmatR _ _ _ _ (shape_rows _ _ _ HP)).
  rewrite !dotR_scale_l.
  rewrite map2_plus_minus.
  rewrite (matvecR_plus (G self)).
  2:{ rewrite length_matvecR, length_map2, (shape_len _ _ _ HJ). lia. }
  rewrite matvecR_plus by (now rewrite !length_matvecR).
  rewrite dotR_plus_r by (now rewrite !length_matvecR).
  ring.
Qed.

Lemma V_logged_spec (self : CLFController) (ts : TaskSpace) :
  controller_wf self ->
  V_logged self ts = V_of (P self) (x_tilde ts ++ xd_tilde ts).
Proof. intros Hwf. apply (V_code_spec self Hwf). Qed.

(** The squared Euclidean norm. *)
Lemma dotR_self_nonneg (u : vec) : 0 <= dotR u u.
Proof.
  induction u as [|a u IH]; simpl; [lra|].
  pose proof (Rle_0_sqr a) as Ha. unfold Rsqr in Ha. lra.
Qed.

Lemma norm_sqr (u : vec) : norm u * norm u = dotR u u.
Proof. unfold norm. apply sqrt_sqrt, dotR_self_nonneg. Qed.

(** ** The claims about a tick *)

Lemma select_none {A : Type} (l : list A) (mask : list bool) :
  any mask = false -> select l mask = [].
Proof.
  unfold any. revert mask. induction l as [|a l IH]; intros [|b mask]; simpl; auto.
  destruct b; simpl; [discriminate|auto].
Qed.

Lemma trunk_wf_rates (td : trunk.TrunkData) :
  trunk_wf td ->
  exists rpyd_nom rpydd_nom,
    as_vec3 (trunk.rpyd_body td) = Ok rpyd_nom /\
    as_vec3 (trunk.rpydd_body td) = Ok rpydd_nom.
Proof.
  intros (_ & Hbody & _).
  pose proof (proj1 (Forall_forall _ _) Hbody) as Hb.
  destruct (as_vec3_ok (trunk.rpyd_body td)) as (a & Ha & _);
    [apply Hb; simpl; tauto|].
  destruct (as_vec3_ok (trunk.rpydd_body td)) as (b & Hb' & _);
    [apply Hb; simpl; tauto|].
  now exists a, b.
Qed.

Section Tick.

Variable CalcRpyDt : vec3 -> vec3 -> res vec3.
Variable W : vec3 -> vec3 -> vec3.
Variable Solve : MathematicalProgram -> MathematicalProgramResult.

Variables (plant : Plant) (td : trunk.TrunkData) (q v : vec).

Hypothesis Htick : tick_wf CalcRpyDt plant td v.

(** On a well-formed tick the task-space stage returns the value
    [task_space_value]. *)
Lemma tick_task_space :
  exists rpyd rpyd_nom rpydd_nom,
    measured_rpyd CalcRpyDt plant v = Ok rpyd /\
    as_vec3 (trunk.rpyd_body td) = Ok rpyd_nom /\
    as_vec3 (trunk.rpydd_body td) = Ok rpydd_nom /\
    task_space CalcRpyDt W plant td v =
    Ok (task_space_value W plant td v rpyd rpyd_nom rpydd_nom).
Proof using Htick.
  destruct Htick as (Htd & Hplant & rpyd & Hrpyd).
  destruct (trunk_wf_rates td Htd) as (rn & rnn & Hrn & Hrnn).
  exists rpyd, rn, rnn. repeat split; auto.
  now apply task_space_ok.
Qed.

(** C6. The stacked task vector is body orientation, body position, then
    the positions of the swing feet, in that order; it has
    [6 + 3 * num_swing] entries and the stacked Jacobian as many rows.  With
    every foot in contact both are the 6-dimensional body-only ones. *)
Theorem stacked_task_vector_layout :
  exists ts,
    task_space CalcRpyDt W plant td v = Ok ts
    /\ swing_feet ts = map negb (trunk.contact_states td)
    /\ num_swing ts = sum (swing_feet ts)
    /\ x ts = v3 (rotation (X_body_of plant))
              ++ v3 (translation (X_body_of plant))
              ++ flatten (select (p_feet_of plant) (swing_feet ts))
    /\ x_nom ts = trunk.rpy_body td ++ trunk.p_body td
                  ++ flatten (select (p_feet_nom_of td) (swing_feet ts))
    /\ length (x ts) = (6 + 3 * num_swing ts)%nat
    /\ length (x_nom ts) = (6 + 3 * num_swing ts)%nat
    /\ length (J ts) = (6 + 3 * num_swing ts)%nat
    /\ (forallb (fun b => b) (trunk.contact_states td) = true ->
        num_swing ts = 0%nat
        /\ x ts = v3 (rotation (X_body_of plant))
                  ++ v3 (translation (X_body_of plant))
        /\ length (x ts) = 6%nat
        /\ x_nom ts = trunk.rpy_body td ++ trunk.p_body td
        /\ J ts = J_body_of plant
        /\ length (J ts) = 6%nat).
Proof using Htick.
  destruct tick_task_space as (rpyd & rn & rnn & _ & _ & _ & Hts).
  destruct Htick as (Htd & Hplant & _).
  exists (task_space_value W plant td v rpyd rn rnn).
  split; [exact Hts|].
  split; [reflexivity|]. split; [reflexivity|].
  split; [reflexivity|]. split; [reflexivity|].
  split; [now apply length_x|].
  split; [now apply length_x_nom|].
  split; [now apply length_J|].
  intros Hall. apply all_true_no_swing in Hall.
  assert (Hn : sum (map negb (trunk.contact_states td)) = 0%nat)
    by (now apply any_false_sum).
  pose proof (length_x W plant td v rpyd rn rnn Htd Hplant) as Hx.
  pose proof (length_J W plant td v rpyd rn rnn Htd Hplant) as HJ.
  unfold task_space_value in *. cbn [num_swing x x_nom J] in *.
  unfold stacked in *. rewrite Hn in *.
  rewrite !select_none by exact Hall.
  rewrite Hall in *. unfold flatten. simpl concat. rewrite !app_nil_r.
  repeat split; auto.
Qed.

(** C9. The swing flags are the negated contact flags, so every one of the
    four feet is in exactly one of the two sets, and the program declares
    one block of three force variables per contact foot: as many blocks as
    there are true contact flags. *)
Theorem feet_partition_and_force_variables (self : CLFController) :
  controller_wf self ->
  exists ts,
    task_space CalcRpyDt W plant td v = Ok ts
    /\ contact_feet ts = trunk.contact_states td
    /\ length (contact_feet ts) = 4%nat
    /\ length (swing_feet ts) = 4%nat
    /\ (forall i, (i < 4)%nat ->
          nth i (swing_feet ts) false = negb (nth i (contact_feet ts) true))
    /\ num_contact ts = sum (contact_feet ts)
    /\ num_swing ts = sum (swing_feet ts)
    /\ (num_contact ts + num_swing ts = 4)%nat
    /\ exists self' r m,
         ControlLaw CalcRpyDt W Solve plant td q v self = (self', r)
         /\ mp self' = Some m
         /\ decision_variables m =
            ((new_vars n_vd (num_velocities plant)
              ++ new_vars n_tau (num_actuators plant))
             ++ concat (force_vars (num_contact ts)))
            ++ new_vars n_delta 1
         /\ length (force_vars (num_contact ts)) = sum (trunk.contact_states td)
         /\ Forall (fun f => length f = 3%nat) (force_vars (num_contact ts)).
Proof using Htick.
  intros Hwf.
  destruct tick_task_space as (rpyd & rn & rnn & _ & _ & _ & Hts).
  destruct Htick as (Htd & Hplant & _).
  set (ts := task_space_value W plant td v rpyd rn rnn) in *.
  pose proof Htd as (Hc & _).
  exists ts.
  split; [exact Hts|]. split; [reflexivity|]. split; [exact Hc|].
  split; [unfold ts; cbn [swing_feet task_space_value]; now rewrite length_map|].
  split.
  { intros i Hi. unfold ts. cbn [swing_feet contact_feet task_space_value].
    change false with (negb true) at 1. apply map_nth. }
  split; [reflexivity|]. split; [reflexivity|].
  split.
  { unfold ts. cbn [num_contact num_swing task_space_value].
    now rewrite sum_negb. }
  assert (Hfv : length (force_vars (num_contact ts)) = sum (trunk.contact_states td)
                /\ Forall (fun f => length f = 3%nat) (force_vars (num_contact ts))).
  { unfold force_vars. rewrite length_map, length_seq. split; [reflexivity|].
    apply Forall_map, Forall_forall. intros j _. apply length_new_vars. }
  destruct (any (swing_feet ts)) eqn:Hany.
  - pose proof (swing_length_eta W plant td v rpyd rn rnn Htd Hplant Hany) as He.
    rewrite (ControlLaw_raises CalcRpyDt W Solve plant td q v self ts Hwf Hts He).
    eexists _, _, _. split; [reflexivity|]. split; [reflexivity|].
    split; [reflexivity|exact Hfv].
  - pose proof (stance_shapes_value W plant td v rpyd rn rnn Htd Hplant Hany) as Hsh.
    rewrite (ControlLaw_stance CalcRpyDt W Solve plant td q v self ts Hwf Hts Hsh).
    destruct (is_success _); eexists _, _, _;
      (split; [reflexivity|]); (split; [reflexivity|]);
      (split; [|exact Hfv]);
      unfold plant_program; destruct (CalcDynamics plant) as [[[M Cv] tg] S_];
      reflexivity.
Qed.

(** C10. The nominal roll-pitch-yaw rates and accelerations are turned
    into angular quantities with the orientation measured on the robot, the
    one also used for the measured rate; when the measured and the nominal
    rate agree the angular part of the velocity error is zero, whatever the
    nominal orientation. *)
Theorem nominal_rates_use_measured_orientation :
  exists ts rpyd rpyd_nom rpydd_nom,
    task_space CalcRpyDt W plant td v = Ok ts
    /\ measured_rpyd CalcRpyDt plant v = Ok rpyd
    /\ v3 rpyd_nom = trunk.rpyd_body td
    /\ v3 rpydd_nom = trunk.rpydd_body td
    /\ firstn 3 (xd ts) = v3 (W (rotation (X_body_of plant)) rpyd)
    /\ firstn 3 (xd_nom ts) = v3 (W (rotation (X_body_of plant)) rpyd_nom)
    /\ firstn 3 (xdd_nom ts) = v3 (W (rotation (X_body_of plant)) rpydd_nom)
    /\ (rpyd = rpyd_nom -> firstn 3 (xd_tilde ts) = [0; 0; 0]).
Proof using Htick.
  destruct tick_task_space as (rpyd & rn & rnn & Hrpyd & Hrn & Hrnn & Hts).
  exists (task_space_value W plant td v rpyd rn rnn), rpyd, rn, rnn.
  split; [exact Hts|]. split; [exact Hrpyd|].
  split; [symmetry; now apply as_vec3_inv|].
  split; [symmetry; now apply as_vec3_inv|].
  split; [reflexivity|]. split; [reflexivity|]. split; [reflexivity|].
  intros <-. unfold task_space_value. cbn [xd_tilde]. unfold stacked.
  cbn [v3 app map2 firstn]. now rewrite !Rminus_diag.
Qed.



Variable self : CLFController.
Hypothesis Hwf : controller_wf self.

Let nv := num_velocities plant.
Let na := num_actuators plant.

(** What the controller does on a well-formed tick: with a swing foot it
    raises in [AddVdotCost]; with every foot in contact it builds the
    program and the verdict of the solver decides. *)
Lemma tick_outcome :
  exists ts,
    task_space CalcRpyDt W plant td v = Ok ts /\
    ((any (swing_feet ts) = true /\
      ControlLaw CalcRpyDt W Solve plant td q v self =
      (set_mp self (program_before_clf ts nv na), Raise ValueError))
     \/
     (any (swing_feet ts) = false /\ stance_shapes ts nv /\
      let m := plant_program self plant ts v in
      let result := Solve m in
      ControlLaw CalcRpyDt W Solve plant td q v self =
      if is_success result
      then (after_tick self m ts (map (GetSolution result) (new_vars n_vd nv)),
            Ok (map (GetSolution result) (new_vars n_tau na)))
      else (set_mp self m, Raise AssertionError))).
Proof using Htick Hwf.
  destruct tick_task_space
    as (rpyd & rn & rnn & _ & _ & _ & Hts).
  destruct Htick as (Htd & Hplant & _).
  exists (task_space_value W plant td v rpyd rn rnn).
  split; [exact Hts|].
  destruct (any (swing_feet (task_space_value W plant td v rpyd rn rnn)))
    eqn:Hany; [left|right].
  - split; [reflexivity|].
    apply (ControlLaw_raises CalcRpyDt W Solve plant td q v self _ Hwf Hts).
    now apply swing_length_eta.
  - pose proof (stance_shapes_value W plant td v rpyd rn rnn Htd Hplant Hany)
      as Hsh.
    split; [reflexivity|]. split; [exact Hsh|].
    apply (ControlLaw_stance CalcRpyDt W Solve plant td q v self _ Hwf Hts Hsh).
Qed.

(** An accepted tick had every foot in contact and a successful solve. *)
Lemma accepted_tick (self' : CLFController) (tau : vec) :
  ControlLaw CalcRpyDt W Solve plant td q v self = (self', Ok tau) ->
  exists ts,
    task_space CalcRpyDt W plant td v = Ok ts
    /\ any (swing_feet ts) = false
    /\ stance_shapes ts nv
    /\ let m := plant_program self plant ts v in
       is_success (Solve m) = true
       /\ self' = after_tick self m ts
                    (map (GetSolution (Solve m)) (new_vars n_vd nv))
       /\ tau = map (GetSolution (Solve m)) (new_vars n_tau na).
Proof using Htick Hwf.
  intros Hrun.
  destruct tick_outcome as (ts & Hts & [(Hany & E) | (Hany & Hsh & E)]).
  - rewrite E in Hrun. discriminate.
  - exists ts. split; [exact Hts|]. split; [exact Hany|]. split; [exact Hsh|].
    cbv zeta in E. rewrite E in Hrun.
    destruct (is_success (Solve (plant_program self plant ts v))) eqn:Hok;
      [|discriminate].
    inversion Hrun. cbv zeta. repeat split; auto.
Qed.

(** C3. A returned torque is the one the solver found for the program of
    this tick, and the solver reported success; when the solver does not
    report success the call raises and returns no torque, and when it does
    the solved torque is returned. *)
Theorem solve_failure_is_fatal :
  (forall self' tau,
      ControlLaw CalcRpyDt W Solve plant td q v self = (self', Ok tau) ->
      exists m,
        mp self' = Some m /\ is_success (Solve m) = true /\
        tau = map (GetSolution (Solve m)) (new_vars n_tau na))
  /\ (forall ts,
        task_space CalcRpyDt W plant td v = Ok ts ->
        any (swing_feet ts) = false ->
        let m := plant_program self plant ts v in
        (is_success (Solve m) = false ->
         ControlLaw CalcRpyDt W Solve plant td q v self =
         (set_mp self m, Raise AssertionError))
        /\ (is_success (Solve m) = true ->
            exists self',
              ControlLaw CalcRpyDt W Solve plant td q v self =
              (self', Ok (map (GetSolution (Solve m)) (new_vars n_tau na))))).
Proof using Htick Hwf.
  split.
  - intros self' tau Hrun.
    destruct (accepted_tick self' tau Hrun)
      as (ts & _ & _ & _ & Hok & -> & ->).
    exists (plant_program self plant ts v). auto.
  - intros ts Hts Hany m.
    destruct tick_outcome as (ts' & Hts' & [(Hany' & E) | (_ & _ & E)]).
    + rewrite Hts in Hts'. inversion Hts'; subst ts'. congruence.
    + rewrite Hts in Hts'. inversion Hts'; subst ts'.
      cbv zeta in E. fold m in E. split; intros Hs; rewrite Hs in E.
      * exact E.
      * eexists. exact E.
Qed.

(** C2. After an accepted solve whose answer satisfies the constraints of
    the program, the logged [Vdot = 2 eta' P F eta + 2 eta' P G (J vd + Jdv
    - xdd_nom)], taken at the solved [vd], is at most [-gamma V + delta] for
    the solved slack [delta <= 0], hence at most [-gamma V]. *)
Theorem accepted_solution_decreases_V (mu kd : R) (self' : CLFController)
    (tau : vec) :
  ControlLaw CalcRpyDt W Solve plant td q v self = (self', Ok tau) ->
  (forall m, mp self' = Some m -> feasible mu kd (GetSolution (Solve m)) m) ->
  exists ts m Vv Vd,
    task_space CalcRpyDt W plant td v = Ok ts
    /\ mp self' = Some m
    /\ V self' = Some Vv
    /\ Vdot self' = Some Vd
    /\ let eta := x_tilde ts ++ xd_tilde ts in
       let sol := GetSolution (Solve m) in
       let delta := sol (n_delta, 0%nat) in
       Vv = V_of (P self) eta
       /\ Vd = 2 * dotR eta (matvecR (P self) (matvecR (F self) eta))
               + 2 * dotR eta
                       (matvecR (P self)
                          (matvecR (G self)
                             (nu_of (J ts) (value sol (new_vars n_vd nv))
                                (Jdv ts) (xdd_nom ts))))
       /\ Vd <= - gamma self * Vv + delta
       /\ delta <= 0
       /\ Vd <= - gamma self * Vv.
Proof using Htick Hwf.
  intros Hrun Hfeas.
  destruct (accepted_tick self' tau Hrun)
    as (ts & Hts & Hany & Hsh & Hok & -> & ->).
  set (m := plant_program self plant ts v) in *.
  specialize (Hfeas m eq_refl).
  exists ts, m, (V_logged self ts),
    (Vdot_logged self ts (map (GetSolution (Solve m)) (new_vars n_vd nv))).
  split; [exact Hts|]. split; [reflexivity|].
  split; [reflexivity|]. split; [reflexivity|].
  cbv zeta.
  set (eta := x_tilde ts ++ xd_tilde ts).
  set (sol := GetSolution (Solve m)) in *.
  assert (Hclf : holds mu kd sol
                   (clf_constraint self eta (J ts) (Jdv ts) (xdd_nom ts)
                      (new_vars n_vd nv) [(n_delta, 0%nat)])
                 /\ holds mu kd sol (slack_constraint [(n_delta, 0%nat)])).
  { unfold feasible, m, plant_program in Hfeas.
    destruct (CalcDynamics plant) as [[[M Cv] tg] S_].
    unfold tick_program in Hfeas. cbn [constraints app] in Hfeas.
    inversion Hfeas as [|c1 l1 H1 Hrest]; subst.
    inversion Hrest as [|c2 l2 H2 _]; subst.
    split; [exact H1|exact H2]. }
  destruct Hclf as (Hclf & Hslack).
  pose proof Hsh as (Heta & HJ & HJdv & Hxdd).
  assert (HJ' : has_shape 6 (length (new_vars n_vd nv)) (J ts) = true)
    by (now rewrite length_new_vars).
  apply (clf_constraint_iff self eta (J ts) (new_vars n_vd nv) (Jdv ts)
           (xdd_nom ts) (n_delta, 0%nat) mu kd sol Hwf Heta HJ' HJdv Hxdd)
    in Hclf.
  apply holds_slack in Hslack.
  rewrite (V_logged_spec self ts Hwf).
  rewrite (Vdot_logged_spec self ts nv _ Hwf Hsh). fold eta.
  unfold value in Hclf.
  split; [reflexivity|].
  split; [apply (Vdot_of_terms self _ _ Hwf)|].
  split; [exact Hclf|]. split; [exact Hslack|]. lra.
Qed.

(** C8 (as the code has it). After an accepted solve the controller holds
    [V = eta' P eta], [Vdot] at the solved [vd], and as tracking error the
    squared Euclidean norm [x_tilde . x_tilde] of the position error. *)
Theorem diagnostics_logged (self' : CLFController) (tau : vec) :
  ControlLaw CalcRpyDt W Solve plant td q v self = (self', Ok tau) ->
  exists ts m,
    task_space CalcRpyDt W plant td v = Ok ts
    /\ mp self' = Some m
    /\ let eta := x_tilde ts ++ xd_tilde ts in
       let sol := GetSolution (Solve m) in
       V self' = Some (V_of (P self) eta)
       /\ Vdot self' =
          Some (Vdot_of (P self) (F self) (G self) eta
                  (nu_of (J ts) (map sol (new_vars n_vd nv)) (Jdv ts)
                     (xdd_nom ts)))
       /\ err self' = Some (dotR (x_tilde ts) (x_tilde ts))
       /\ dotR (x_tilde ts) (x_tilde ts) = norm (x_tilde ts) * norm (x_tilde ts).
Proof using Htick Hwf.
  intros Hrun.
  destruct (accepted_tick self' tau Hrun)
    as (ts & Hts & Hany & Hsh & Hok & -> & ->).
  exists ts, (plant_program self plant ts v).
  split; [exact Hts|]. split; [reflexivity|].
  cbv zeta. unfold after_tick. cbn [V Vdot err].
  rewrite (V_logged_spec self ts Hwf).
  rewrite (Vdot_logged_spec self ts nv _ Hwf Hsh).
  repeat split. symmetry. apply norm_sqr.
Qed.

(** A tick with a swing foot raises before any constraint is added. *)
Lemma swing_tick_raises (ts : TaskSpace) :
  task_space CalcRpyDt W plant td v = Ok ts ->
  any (swing_feet ts) = true ->
  ControlLaw CalcRpyDt W Solve plant td q v self =
  (set_mp self (program_before_clf ts nv na), Raise ValueError)
  /\ constraints (program_before_clf ts nv na) = [].
Proof using Htick Hwf.
  intros Hts Hany.
  destruct tick_outcome as (ts' & Hts' & [(_ & E) | (Hany' & _)]);
    rewrite Hts in Hts'; inversion Hts'; subst ts'.
  - split; [exact E|reflexivity].
  - congruence.
Qed.

End Tick.

(** ** The theorems at the example tick *)

Lemma example_controller_wf : controller_wf Example.controller.
Proof. repeat split. Qed.

Lemma example_program_wf :
  controller_wf (set_mp Example.controller empty_program).
Proof. repeat split. Qed.

Lemma example_tick_wf (contact : list bool) :
  length contact = 4%nat ->
  tick_wf Example.CalcRpyDt Example.plant (Example.setpoint contact) Example.v.
Proof.
  intros Hc. split; [|split].
  - split; [exact Hc|]. repeat split; repeat constructor.
  - repeat split; repeat constructor.
  - eexists. reflexivity.
Qed.

Lemma example_stance_wf :
  tick_wf Example.CalcRpyDt Example.plant Example.stance Example.v.
Proof. exact (example_tick_wf [true; true; true; true] eq_refl). Qed.

Lemma example_flight_wf :
  tick_wf Example.CalcRpyDt Example.plant Example.flight Example.v.
Proof. exact (example_tick_wf [false; false; false; false] eq_refl). Qed.

Lemma example_run :
  ControlLaw Example.CalcRpyDt Example.CalcAngVel Example.Solve Example.plant
    Example.stance Example.q Example.v Example.controller =
  (fst Example.outcome, Ok [0]).
Proof. vm_compute. reflexivity. Qed.

Ltac evaluate := lazy - [IZR Rminus Rdiv Rle].

(** The answer of the example solver satisfies every constraint of the
    program of the example tick. *)
Lemma example_feasible (m : MathematicalProgram) :
  mp (fst Example.outcome) = Some m ->
  feasible (7 / 10) 0 Example.answer m.
Proof.
  intros Hm. lazy - [IZR Rminus Rdiv] in Hm.
  injection Hm as <-.
  unfold feasible. cbn [constraints].
  repeat match goal with |- Forall _ (_ :: _) => constructor end;
    try apply Forall_nil.
  all: evaluate; first [ repeat split; lra | repeat (f_equal; try lra) ].
Qed.

Lemma AddVdotConstraint_linearizes_Vdot_witness :
  exists c,
    AddVdotConstraint Example.x_tilde_ex (repeat 0 6) (eye 6) (new_vars n_vd 6)
      (repeat 0 6) (repeat 0 6) [(n_delta, 0%nat)]
      (set_mp Example.controller empty_program) =
    (set_mp Example.controller (add_constraint empty_program c), Ok tt)
    /\ (holds (7 / 10) 0 Example.answer c <->
        Vdot_of Example.P_ex F_template G_template
          (Example.x_tilde_ex ++ repeat 0 6)
          (nu_of (eye 6) (value Example.answer (new_vars n_vd 6))
             (repeat 0 6) (repeat 0 6))
        <= - 1 * V_of Example.P_ex (Example.x_tilde_ex ++ repeat 0 6)
           + Example.answer (n_delta, 0%nat)).
Proof.
  destruct (AddVdotConstraint_linearizes_Vdot
              (set_mp Example.controller empty_program) empty_program
              Example.x_tilde_ex (repeat 0 6) (eye 6) (new_vars n_vd 6)
              (repeat 0 6) (repeat 0 6) (n_delta, 0%nat)
              eq_refl example_program_wf eq_refl eq_refl eq_refl eq_refl)
    as (Hrun & _ & _ & _ & Hiff).
  eexists. split; [exact Hrun|]. apply Hiff.
Defined.

Lemma zero_error_constraint_witness :
  V_of Example.P_ex (repeat 0 6 ++ repeat 0 6) = 0
  /\ AddVdotConstraint (repeat 0 6) (repeat 0 6) (eye 6) (new_vars n_vd 6)
       (repeat 0 6) (repeat 0 6) [(n_delta, 0%nat)]
       (set_mp Example.controller empty_program) =
     (set_mp Example.controller
        (add_constraint empty_program
           (LinearConstraint [repeat 0 6 ++ [-1]] [NegInf] [Fin 0]
              (new_vars n_vd 6 ++ [(n_delta, 0%nat)]))),
      Ok tt).
Proof.
  destruct (zero_error_constraint
              (set_mp Example.controller empty_program) empty_program
              (repeat 0 6) (repeat 0 6) (eye 6) (new_vars n_vd 6)
              (repeat 0 6) (repeat 0 6) (n_delta, 0%nat)
              eq_refl example_program_wf eq_refl eq_refl eq_refl eq_refl)
    as (HV & Hrun & _).
  split; [exact HV|exact Hrun].
Defined.

Lemma stacked_task_vector_layout_witness :
  exists ts,
    task_space Example.CalcRpyDt Example.CalcAngVel Example.plant
      Example.stance Example.v = Ok ts
    /\ length (x ts) = 6%nat /\ length (J ts) = 6%nat.
Proof.
  destruct (stacked_task_vector_layout Example.CalcRpyDt Example.CalcAngVel
              Example.plant Example.stance Example.v
              example_stance_wf)
    as (ts & Hts & _ & _ & _ & _ & _ & _ & _ & Hall).
  destruct (Hall eq_refl) as (_ & _ & Hx & _ & _ & HJ).
  exists ts. split; [exact Hts|]. split; [exact Hx|exact HJ].
Defined.

Lemma feet_partition_and_force_variables_witness :
  exists ts,
    task_space Example.CalcRpyDt Example.CalcAngVel Example.plant
      Example.stance Example.v = Ok ts
    /\ (num_contact ts + num_swing ts = 4)%nat
    /\ length (force_vars (num_contact ts)) = 4%nat.
Proof.
  destruct (feet_partition_and_force_variables Example.CalcRpyDt
              Example.CalcAngVel Example.Solve Example.plant Example.stance
              Example.q Example.v example_stance_wf
              Example.controller example_controller_wf)
    as (ts & Hts & _ & _ & _ & _ & _ & _ & Hsum & _ & _ & _ & _ & _ & _ & Hf & _).
  exists ts. split; [exact Hts|]. split; [exact Hsum|exact Hf].
Defined.

Lemma nominal_rates_use_measured_orientation_witness :
  exists ts,
    task_space Example.CalcRpyDt Example.CalcAngVel Example.plant
      Example.stance Example.v = Ok ts
    /\ firstn 3 (xd_tilde ts) = [0; 0; 0].
Proof.
  destruct (nominal_rates_use_measured_orientation Example.CalcRpyDt
              Example.CalcAngVel Example.plant Example.stance Example.v
              example_stance_wf)
    as (ts & rpyd & rn & rnn & Hts & Hrpyd & Hrn & _ & _ & _ & _ & Hzero).
  exists ts. split; [exact Hts|]. apply Hzero.
  injection Hrpyd as <-.
  destruct rn as [a b c]. injection Hrn as -> -> ->.
  evaluate. f_equal; lra.
Defined.

Lemma solve_failure_is_fatal_witness :
  (exists self',
      ControlLaw Example.CalcRpyDt Example.CalcAngVel Example.Solve_fails
        Example.plant Example.stance Example.q Example.v Example.controller =
      (self', Raise AssertionError))
  /\ (exists self',
        ControlLaw Example.CalcRpyDt Example.CalcAngVel Example.Solve
          Example.plant Example.stance Example.q Example.v Example.controller =
        (self', Ok [0])).
Proof.
  split.
  - destruct (solve_failure_is_fatal Example.CalcRpyDt Example.CalcAngVel
                Example.Solve_fails Example.plant Example.stance Example.q
                Example.v example_stance_wf Example.controller
                example_controller_wf) as (_ & Hverdict).
    destruct (tick_task_space Example.CalcRpyDt Example.CalcAngVel
                Example.plant Example.stance Example.v
                example_stance_wf) as (rpyd & rn & rnn & _ & _ & _ & Hts).
    destruct (Hverdict _ Hts) as (Hfail & _).
    { reflexivity. }
    eexists. apply Hfail. reflexivity.
  - destruct (solve_failure_is_fatal Example.CalcRpyDt Example.CalcAngVel
                Example.Solve Example.plant Example.stance Example.q
                Example.v example_stance_wf Example.controller
                example_controller_wf) as (Hret & _).
    destruct (Hret _ _ example_run) as (m & _ & _ & _).
    eexists. exact example_run.
Defined.

Lemma accepted_solution_decreases_V_witness :
  exists Vv Vd,
    V (fst Example.outcome) = Some Vv
    /\ Vdot (fst Example.outcome) = Some Vd
    /\ Vd <= - gamma Example.controller * Vv.
Proof.
  destruct (accepted_solution_decreases_V Example.CalcRpyDt Example.CalcAngVel
              Example.Solve Example.plant Example.stance Example.q Example.v
              example_stance_wf Example.controller
              example_controller_wf (7 / 10) 0 (fst Example.outcome) [0]
              example_run example_feasible)
    as (ts & m & Vv & Vd & _ & _ & HV & HVd & _ & _ & _ & _ & Hdec).
  exists Vv, Vd. split; [exact HV|]. split; [exact HVd|exact Hdec].
Defined.

Lemma diagnostics_logged_witness :
  exists ts,
    task_space Example.CalcRpyDt Example.CalcAngVel Example.plant
      Example.stance Example.v = Ok ts
    /\ err (fst Example.outcome) = Some (dotR (x_tilde ts) (x_tilde ts)).
Proof.
  destruct (diagnostics_logged Example.CalcRpyDt Example.CalcAngVel
              Example.Solve Example.plant Example.stance Example.q Example.v
              example_stance_wf Example.controller
              example_controller_wf (fst Example.outcome) [0] example_run)
    as (ts & m & Hts & _ & _ & _ & Herr & _).
  exists ts. split; [exact Hts|exact Herr].
Defined.

(** ** Where the code departs from the specification *)

(** C8, as stated, fails: at the example tick the stored tracking error is
    [4], the square of the norm [2] of the position error. *)
Lemma tracking_error_is_not_the_norm :
  exists self' tau ts e,
    ControlLaw Example.CalcRpyDt Example.CalcAngVel Example.Solve Example.plant
      Example.stance Example.q Example.v Example.controller = (self', Ok tau)
    /\ task_space Example.CalcRpyDt Example.CalcAngVel Example.plant
         Example.stance Example.v = Ok ts
    /\ err self' = Some e
    /\ e = 4 /\ norm (x_tilde ts) = 2 /\ e <> norm (x_tilde ts).
Proof.
  destruct (accepted_tick Example.CalcRpyDt Example.CalcAngVel Example.Solve
              Example.plant Example.stance Example.q Example.v
              example_stance_wf Example.controller
              example_controller_wf _ _ example_run)
    as (ts & Hts & _ & _ & _ & Hself & _).
  exists (fst Example.outcome), [0], ts, (dotR (x_tilde ts) (x_tilde ts)).
  split; [exact example_run|]. split; [exact Hts|].
  split; [rewrite Hself; reflexivity|].
  assert (He : dotR (x_tilde ts) (x_tilde ts) = 4).
  { lazy - [IZR Rminus Rdiv] in Hts. injection Hts as <-.
    cbn [x_tilde]. evaluate. lra. }
  assert (Hn : norm (x_tilde ts) = 2).
  { unfold norm. rewrite He. replace 4 with (2 * 2) by lra.
    apply sqrt_square. lra. }
  split; [exact He|]. split; [exact Hn|]. rewrite He, Hn. lra.
Qed.

(** C7, on the code: with no foot in contact the stacked error has 36
    entries while the certificate is 12 by 12, and [ControlLaw] raises a
    [ValueError] in [AddVdotCost]; the program it leaves behind holds the
    variables and the tracking cost but no constraint, the dynamics
    equality included. *)
Theorem no_contact_tick_raises :
  exists self' m ts,
    ControlLaw Example.CalcRpyDt Example.CalcAngVel Example.Solve Example.plant
      Example.flight Example.q Example.v Example.controller =
    (self', Raise ValueError)
    /\ task_space Example.CalcRpyDt Example.CalcAngVel Example.plant
         Example.flight Example.v = Ok ts
    /\ num_contact ts = 0%nat
    /\ length (x_tilde ts ++ xd_tilde ts) = 36%nat
    /\ mp self' = Some m
    /\ constraints m = [].
Proof.
  destruct (tick_task_space Example.CalcRpyDt Example.CalcAngVel Example.plant
              Example.flight Example.v example_flight_wf)
    as (rpyd & rn & rnn & _ & _ & _ & Hts).
  destruct (swing_tick_raises Example.CalcRpyDt Example.CalcAngVel
              Example.Solve Example.plant Example.flight Example.q Example.v
              example_flight_wf Example.controller example_controller_wf
              _ Hts eq_refl) as (Hrun & Hnone).
  pose proof example_flight_wf as (Htd & Hplant & _).
  eexists _, _, _. split; [exact Hrun|]. split; [exact Hts|].
  split; [reflexivity|].
  split; [exact (length_eta _ _ _ _ _ _ _ Htd Hplant)|].
  split; [reflexivity|exact Hnone].
Qed.

(** ** Matrix algebra for the certificate *)

Lemma nth_map2_plus (j : nat) (u w : vec) :
  length u = length w ->
  nth j (map2 Rplus u w) 0 = nth j u 0 + nth j w 0.
Proof.
  revert j w. induction u as [|a u IH]; intros [|j] [|b w] H; simpl in *;
    try discriminate; try ring.
  apply IH. lia.
Qed.

Lemma nth_scale (j : nat) (k : R) (u : vec) :
  nth j (scale k u) 0 = k * nth j u 0.
Proof.
  revert j. induction u as [|a u IH]; intros [|j]; simpl; try ring. apply IH.
Qed.

Lemma nth_repeat0 (j n : nat) : nth j (repeat 0 n) 0 = 0.
Proof. revert j. induction n as [|n IH]; intros [|j]; simpl; auto. Qed.

Lemma nth_vecmatR (c j : nat) (x : vec) (A : mat) :
  Forall (fun row => length row = c) A ->
  nth j (vecmatR c x A) 0 = dotR x (map (fun r => nth j r 0) A).
Proof.
  intros HA. revert x. induction HA as [|row A Hrow HA IH]; intros [|a x]; simpl;
    try apply nth_repeat0.
  rewrite nth_map2_plus, nth_scale, IH; [reflexivity|].
  now rewrite length_scale, length_vecmatR.
Qed.

Lemma length_transpose (c : nat) (A : mat) : length (transpose c A) = c.
Proof. unfold transpose. now rewrite length_map, length_seq. Qed.

(** [A' x = x A]. *)
Lemma matvecR_transpose (c : nat) (A : mat) (x : vec) :
  Forall (fun row => length row = c) A ->
  matvecR (transpose c A) x = vecmatR c x A.
Proof.
  intros HA. apply (nth_ext _ _ 0 0).
  - now rewrite length_matvecR, length_transpose, length_vecmatR.
  - intros j Hj. rewrite length_matvecR, length_transpose in Hj.
    rewrite (nth_vecmatR _ _ _ _ HA).
    unfold matvecR, transpose. rewrite map_map.
    rewrite (nth_indep _ 0 (dotR (map (fun r => nth 0 r 0) A) x))
      by (now rewrite length_map, length_seq).
    rewrite (map_nth (fun j0 => dotR (map (fun r => nth j0 r 0) A) x)
               (seq 0 c) 0%nat j).
    rewrite seq_nth by exact Hj. simpl. apply dotR_comm.
Qed.

Lemma matvecR_mmulR (A B : mat) (x : vec) :
  Forall (fun row => length row = ncols B) B ->
  matvecR (mmulR A B) x = matvecR A (matvecR B x).
Proof.
  intros HB. unfold mmulR, matvecR at 1 2. rewrite map_map.
  apply map_ext. intros r. now apply dotR_vecmatR.
Qed.

Lemma dotR_minus_l (u w v : vec) :
  length u = length w ->
  dotR (map2 Rminus u w) v = dotR u v - dotR w v.
Proof.
  revert w v. induction u as [|a u IH]; intros [|b w] [|c v] H; simpl in *;
    try discriminate; try ring.
  rewrite IH by lia. ring.
Qed.

Lemma matvecR_madd (r c : nat) (A B : mat) (x : vec) :
  has_shape r c A = true -> has_shape r c B = true ->
  matvecR (madd A B) x = map2 Rplus (matvecR A x) (matvecR B x).
Proof.
  intros HA HB. apply has_shape_spec in HA, HB.
  destruct HA as (HlA & HA), HB as (HlB & HB). subst r.
  revert B HlB HB. induction HA as [|a A Ha HA IH]; intros [|b B] HlB HB;
    simpl in *; try discriminate; auto.
  inversion HB; subst. unfold madd in *. simpl.
  rewrite dotR_plus_l by congruence. f_equal. apply IH; auto.
Qed.

Lemma matvecR_msub (r c : nat) (A B : mat) (x : vec) :
  has_shape r c A = true -> has_shape r c B = true ->
  matvecR (msub A B) x = map2 Rminus (matvecR A x) (matvecR B x).
Proof.
  intros HA HB. apply has_shape_spec in HA, HB.
  destruct HA as (HlA & HA), HB as (HlB & HB). subst r.
  revert B HlB HB. induction HA as [|a A Ha HA IH]; intros [|b B] HlB HB;
    simpl in *; try discriminate; auto.
  inversion HB; subst. unfold msub in *. simpl.
  rewrite dotR_minus_l by congruence. f_equal. apply IH; auto.
Qed.

Lemma shape_mmulR (r k c : nat) (A B : mat) :
  length A = r -> has_shape (S k) c B = true -> has_shape r c (mmulR A B) = true.
Proof.
  intros HA HB. apply has_shape_spec. unfold mmulR. rewrite length_map.
  split; [exact HA|]. apply Forall_map, Forall_forall. intros row _.
  rewrite (has_shape_ncols _ _ _ HB). apply length_vecmatR, (shape_rows _ _ _ HB).
Qed.

Lemma shape_transpose (r c : nat) (A : mat) :
  length A = r -> has_shape c r (transpose c A) = true.
Proof.
  intros HA. apply has_shape_spec. split; [apply length_transpose|].
  unfold transpose. apply Forall_map, Forall_forall. intros j _.
  now rewrite length_map.
Qed.

Lemma shape_madd (r c : nat) (A B : mat) :
  has_shape r c A = true -> has_shape r c B = true ->
  has_shape r c (madd A B) = true.
Proof.
  intros HA HB. apply has_shape_spec in HA, HB. apply has_shape_spec.
  destruct HA as (HlA & HA), HB as (HlB & HB). unfold madd.
  rewrite length_map, length_combine, HlA, HlB. split; [lia|].
  apply Forall_map, Forall_forall. intros [a b] Hin. simpl.
  rewrite Forall_forall in HA, HB.
  rewrite length_map2, (HA a), (HB b); [lia| |].
  - eapply in_combine_r; eauto.
  - eapply in_combine_l; eauto.
Qed.

Lemma shape_msub (r c : nat) (A B : mat) :
  has_shape r c A = true -> has_shape r c B = true ->
  has_shape r c (msub A B) = true.
Proof.
  intros HA HB. apply has_shape_spec in HA, HB. apply has_shape_spec.
  destruct HA as (HlA & HA), HB as (HlB & HB). unfold msub.
  rewrite length_map, length_combine, HlA, HlB. split; [lia|].
  apply Forall_map, Forall_forall. intros [a b] Hin. simpl.
  rewrite Forall_forall in HA, HB.
  rewrite length_map2, (HA a), (HB b); [lia| |].
  - eapply in_combine_r; eauto.
  - eapply in_combine_l; eauto.
Qed.

Lemma matvecR_repeat0 (A : mat) (n : nat) :
  matvecR A (repeat 0 n) = repeat 0 (length A).
Proof.
  induction A as [|row A IH]; simpl; auto.
  now rewrite dotR_repeat0_r, IH.
Qed.

Lemma dotR_scale_r (k : R) (u v : vec) : dotR u (scale k v) = k * dotR u v.
Proof. rewrite dotR_comm, dotR_scale_l. now rewrite dotR_comm. Qed.

Lemma matvecR_scale (A : mat) (k : R) (x : vec) :
  matvecR A (scale k x) = scale k (matvecR A x).
Proof.
  induction A as [|row A IH]; simpl; auto.
  rewrite dotR_scale_r. f_equal. exact IH.
Qed.

Lemma dotR_self_zero (y : vec) : dotR y y = 0 -> y = repeat 0 (length y).
Proof.
  induction y as [|a y IH]; simpl; auto. intros H.
  pose proof (dotR_self_nonneg y) as Hy.
  assert (Ha : a * a = 0) by nra.
  assert (Hy0 : dotR y y = 0) by nra.
  f_equal; [nra|auto].
Qed.

Lemma symmetric_vecmatR (n : nat) (A : mat) (x : vec) :
  has_shape (S n) (S n) A = true -> symmetric A ->
  vecmatR (S n) x A = matvecR A x.
Proof.
  intros HA Hsym. unfold symmetric in Hsym.
  rewrite (has_shape_ncols _ _ _ HA) in Hsym.
  rewrite <- Hsym at 2.
  symmetry. apply matvecR_transpose, (shape_rows _ _ _ HA).
Qed.

(** A positive-semidefinite form that vanishes at [x] has [P x = 0]. *)
Lemma psd_kernel (n : nat) (A : mat) (x : vec) :
  has_shape (S n) (S n) A = true -> symmetric A ->
  positive_semidefinite (S n) A ->
  length x = S n ->
  dotR x (matvecR A x) = 0 ->
  matvecR A x = repeat 0 (S n).
Proof.
  intros HA Hsym Hpsd Hx Hq.
  set (y := matvecR A x).
  assert (Hy : length y = S n)
    by (unfold y; now rewrite length_matvecR, (shape_len _ _ _ HA)).
  set (b := dotR y y). set (c := dotR y (matvecR A y)).
  assert (Hc : 0 <= c) by (apply Hpsd; exact Hy).
  assert (Hb : 0 <= b) by apply dotR_self_nonneg.
  assert (Hxy : dotR x (matvecR A y) = b).
  { rewrite <- (dotR_vecmatR (S n)) by apply (shape_rows _ _ _ HA).
    now rewrite (symmetric_vecmatR n A x HA Hsym). }
  assert (Hform : forall t, 0 <= 2 * t * b + t * t * c).
  { intros t.
    pose proof (Hpsd (map2 Rplus x (scale t y))) as H.
    rewrite length_map2, length_scale, Hx, Hy in H.
    specialize (H (Nat.min_id _)).
    rewrite matvecR_plus in H by (now rewrite length_scale, Hx, Hy).
    rewrite matvecR_scale in H.
    rewrite dotR_plus_l in H by (now rewrite length_scale, Hx, Hy).
    rewrite !dotR_plus_r in H
      by (now rewrite length_scale, !length_matvecR).
    rewrite !dotR_scale_l, !dotR_scale_r in H.
    fold y in H. fold b in H. fold c in H.
    rewrite Hxy in H. unfold y in H at 1. rewrite Hq in H. lra. }
  assert (Hb0 : b = 0).
  { specialize (Hform (- b / (c + 1))).
    assert (Hc1 : 0 < c + 1) by lra.
    assert (E : 2 * (- b / (c + 1)) * b + (- b / (c + 1)) * (- b / (c + 1)) * c
                = - (b * b) * (c + 2) / ((c + 1) * (c + 1))).
    { field. lra. }
    rewrite E in Hform.
    assert (Hden : 0 < (c + 1) * (c + 1)) by nra.
    assert (Hnum : 0 <= - (b * b) * (c + 2)).
    { apply (Rmult_le_reg_r (/ ((c + 1) * (c + 1)))).
      - now apply Rinv_0_lt_compat.
      - rewrite Rmult_0_l. exact Hform. }
    nra. }
  unfold b in Hb0. apply dotR_self_zero in Hb0. now rewrite Hy in Hb0.
Qed.

Lemma length_12 (x : vec) :
  length x = 12%nat ->
  exists x0 x1 x2 x3 x4 x5 x6 x7 x8 x9 x10 x11,
    x = [x0; x1; x2; x3; x4; x5; x6; x7; x8; x9; x10; x11].
Proof.
  intros H.
  do 12 (destruct x as [|? x]; [discriminate|]).
  destruct x; [|discriminate]. repeat eexists.
Qed.

Lemma dotR_minus_r (u v w : vec) :
  length v = length w ->
  dotR u (map2 Rminus v w) = dotR u v - dotR u w.
Proof.
  intros H. rewrite dotR_comm, dotR_minus_l by assumption.
  now rewrite (dotR_comm v), (dotR_comm w).
Qed.

Lemma rect_of_shape (r c : nat) (B : mat) :
  has_shape (S r) c B = true -> Forall (fun row => length row = ncols B) B.
Proof.
  intros H. rewrite (has_shape_ncols _ _ _ H). apply (shape_rows _ _ _ H).
Qed.

(** [Q x = 100 x]. *)
Lemma matvecR_Q_weight (x : vec) :
  length x = 12%nat -> matvecR Q_weight x = scale 100 x.
Proof.
  intros H. destruct (length_12 x H)
    as (x0 & x1 & x2 & x3 & x4 & x5 & x6 & x7 & x8 & x9 & x10 & x11 & ->).
  vm_compute. repeat (f_equal; try ring).
Qed.

(** The quadratic form of the left-hand side of the Riccati equation. *)
Lemma care_form (A : mat) (x : vec) :
  has_shape 12 12 A = true ->
  dotR x (matvecR
            (care_residual F_template G_template Q_weight R_inverse A) x) =
  dotR x (matvecR (transpose 12 F_template) (matvecR A x))
  + dotR x (matvecR A (matvecR F_template x))
  - dotR x (matvecR A
              (matvecR G_template
                 (matvecR R_inverse
                    (matvecR (transpose 6 G_template) (matvecR A x)))))
  + dotR x (matvecR Q_weight x).
Proof.
  intros HA.
  assert (HF : has_shape 12 12 F_template = true) by reflexivity.
  assert (HG : has_shape 12 6 G_template = true) by reflexivity.
  assert (HQ : has_shape 12 12 Q_weight = true) by reflexivity.
  assert (HR : has_shape 6 6 R_inverse = true) by reflexivity.
  assert (HFt : has_shape 12 12 (transpose 12 F_template) = true)
    by (now apply shape_transpose).
  assert (HGt : has_shape 6 12 (transpose 6 G_template) = true)
    by (now apply shape_transpose).
  unfold care_residual.
  change (ncols F_template) with 12%nat. change (ncols G_template) with 6%nat.
  assert (H1 : has_shape 12 12 (mmulR (transpose 12 F_template) A) = true)
    by (apply (shape_mmulR 12 11); [apply length_transpose|exact HA]).
  assert (H2 : has_shape 12 12 (mmulR A F_template) = true)
    by (apply (shape_mmulR 12 11); [apply (shape_len _ _ _ HA)|exact HF]).
  assert (H3a : has_shape 12 6 (mmulR A G_template) = true)
    by (apply (shape_mmulR 12 11); [apply (shape_len _ _ _ HA)|exact HG]).
  assert (H3b : has_shape 12 6 (mmulR (mmulR A G_template) R_inverse) = true)
    by (apply (shape_mmulR 12 5); [apply (shape_len _ _ _ H3a)|exact HR]).
  assert (H3c : has_shape 12 12
                  (mmulR (mmulR (mmulR A G_template) R_inverse)
                     (transpose 6 G_template)) = true)
    by (apply (shape_mmulR 12 5); [apply (shape_len _ _ _ H3b)|exact HGt]).
  assert (H3 : has_shape 12 12
                 (mmulR (mmulR (mmulR (mmulR A G_template) R_inverse)
                           (transpose 6 G_template)) A) = true)
    by (apply (shape_mmulR 12 11); [apply (shape_len _ _ _ H3c)|exact HA]).
  pose proof (shape_madd _ _ _ _ H1 H2) as H12.
  pose proof (shape_msub _ _ _ _ H12 H3) as H123.
  rewrite (matvecR_madd _ _ _ _ _ H123 HQ).
  rewrite (matvecR_msub _ _ _ _ _ H12 H3).
  rewrite (matvecR_madd _ _ _ _ _ H1 H2).
  rewrite !matvecR_mmulR by (eapply rect_of_shape; eassumption).
  rewrite dotR_plus_r, dotR_minus_r, dotR_plus_r; [ring|..];
    rewrite ?length_map2, !length_matvecR, ?length_transpose,
      ?(shape_len _ _ _ HA); reflexivity.
Qed.

Lemma matvecR_zeros (r c : nat) (x : vec) :
  matvecR (zeros r c) x = repeat 0 r.
Proof.
  unfold zeros. induction r as [|r IH]; simpl; auto.
  now rewrite dotR_repeat0_l, IH.
Qed.

(** A symmetric positive-semidefinite solution of the Riccati equation of
    [__init__] is positive-definite, because [Q] is. *)
Lemma care_positive_definite (A : mat) :
  has_shape 12 12 A = true -> symmetric A ->
  positive_semidefinite 12 A ->
  care_residual F_template G_template Q_weight R_inverse A = zeros 12 12 ->
  positive_definite 12 A.
Proof.
  intros HA Hsym Hpsd Hcare x Hx Hx0.
  destruct (Rle_lt_dec (dotR x (matvecR A x)) 0) as [Hle|Hlt]; [|exact Hlt].
  exfalso. apply Hx0.
  assert (Hq : dotR x (matvecR A x) = 0)
    by (pose proof (Hpsd x Hx); lra).
  pose proof (psd_kernel 11 A x HA Hsym Hpsd Hx Hq) as Hker.
  pose proof (care_form A x HA) as Hform.
  rewrite Hcare in Hform.
  rewrite matvecR_zeros, dotR_repeat0_r in Hform.
  rewrite Hker in Hform.
  rewrite !matvecR_repeat0 in Hform.
  rewrite !dotR_repeat0_r in Hform.
  replace (dotR x (matvecR A (matvecR F_template x))) with 0 in Hform.
  2:{ rewrite <- (dotR_vecmatR 12) by apply (shape_rows _ _ _ HA).
      rewrite (symmetric_vecmatR 11 A x HA Hsym), Hker.
      now rewrite dotR_repeat0_l. }
  rewrite (matvecR_Q_weight x Hx), dotR_scale_r in Hform.
  assert (Hxx : dotR x x = 0) by lra.
  apply dotR_self_zero in Hxx. now rewrite Hx in Hxx.
Qed.

Lemma fold_left_Rmin_In (l : vec) (a : R) : In (fold_left Rmin l a) (a :: l).
Proof.
  revert a. induction l as [|b l IH]; intros a; simpl; [now left|].
  destruct (IH (Rmin a b)) as [H|H].
  - rewrite <- H. unfold Rmin. destruct (Rle_dec a b); auto.
  - right. now right.
Qed.

Lemma fold_left_Rmax_In (l : vec) (a : R) : In (fold_left Rmax l a) (a :: l).
Proof.
  revert a. induction l as [|b l IH]; intros a; simpl; [now left|].
  destruct (IH (Rmax a b)) as [H|H].
  - rewrite <- H. unfold Rmax. destruct (Rle_dec a b); auto.
  - right. now right.
Qed.

Lemma np_min_In (l : vec) :
  l <> [] -> exists a, np_min l = Ok a /\ In a l.
Proof.
  destruct l as [|a l]; [congruence|]. intros _.
  eexists. split; [reflexivity|apply fold_left_Rmin_In].
Qed.

Lemma np_max_In (l : vec) :
  l <> [] -> exists a, np_max l = Ok a /\ In a l.
Proof.
  destruct l as [|a l]; [congruence|]. intros _.
  eexists. split; [reflexivity|apply fold_left_Rmax_In].
Qed.

Lemma nonzero_dotR_self (x : vec) :
  x <> repeat 0 (length x) -> 0 < dotR x x.
Proof.
  intros Hx. pose proof (dotR_self_nonneg x) as H.
  destruct (Req_dec (dotR x x) 0) as [E|E]; [|lra].
  exfalso. apply Hx. now apply dotR_self_zero.
Qed.

(** Every eigenvalue of [Q = 100 I] is [100]. *)
Lemma eigenvalue_Q_weight (lam : R) : eigenvalue 12 Q_weight lam -> lam = 100.
Proof.
  intros (x & Hx & Hx0 & Heq).
  rewrite (matvecR_Q_weight x Hx) in Heq.
  assert (H : dotR x (scale 100 x) = dotR x (scale lam x)) by (now rewrite Heq).
  rewrite !dotR_scale_r in H.
  rewrite <- Hx in Hx0. pose proof (nonzero_dotR_self x Hx0). nra.
Qed.

(** The eigenvalues of a positive-definite array are positive. *)
Lemma eigenvalue_positive (A : mat) (lam : R) :
  positive_definite 12 A -> eigenvalue 12 A lam -> 0 < lam.
Proof.
  intros Hpd (x & Hx & Hx0 & Heq).
  pose proof (Hpd x Hx Hx0) as H. rewrite Heq, dotR_scale_r in H.
  rewrite <- Hx in Hx0. pose proof (nonzero_dotR_self x Hx0). nra.
Qed.

(** ** The closed-form certificate *)

Ltac entrywise tac :=
  repeat match goal with
         | |- @eq (list _) (_ :: _) (_ :: _) => apply (f_equal2 cons)
         | |- @eq (list _) [] [] => reflexivity
         end;
  tac.

Lemma F_template_blocks : F_template = Example.blocks 0 1 0 0.
Proof. vm_compute. entrywise ltac:(ring). Qed.

Lemma Ft_blocks : transpose 12 F_template = Example.blocks 0 0 1 0.
Proof. vm_compute. entrywise ltac:(ring). Qed.

Lemma Q_weight_blocks : Q_weight = Example.blocks 100 0 0 100.
Proof. vm_compute. entrywise ltac:(ring). Qed.

Lemma mmulR_blocks (a b c d a' b' c' d' : R) :
  mmulR (Example.blocks a b c d) (Example.blocks a' b' c' d') =
  Example.blocks (a * a' + b * c') (a * b' + b * d')
    (c * a' + d * c') (c * b' + d * d').
Proof. vm_compute. entrywise ltac:(ring). Qed.

Lemma mmulR_blocks_G (a b c d : R) :
  mmulR (Example.blocks a b c d) G_template = Example.vblocks b d.
Proof. vm_compute. entrywise ltac:(ring). Qed.

Lemma mmulR_vblocks_Rinv (a b : R) :
  mmulR (Example.vblocks a b) R_inverse = Example.vblocks a b.
Proof. vm_compute. entrywise ltac:(ring). Qed.

Lemma mmulR_vblocks_Gt (a b : R) :
  mmulR (Example.vblocks a b) (transpose 6 G_template) = Example.blocks 0 a 0 b.
Proof. vm_compute. entrywise ltac:(ring). Qed.

Lemma madd_blocks (a b c d a' b' c' d' : R) :
  madd (Example.blocks a b c d) (Example.blocks a' b' c' d') =
  Example.blocks (a + a') (b + b') (c + c') (d + d').
Proof. vm_compute. entrywise ltac:(ring). Qed.

Lemma msub_blocks (a b c d a' b' c' d' : R) :
  msub (Example.blocks a b c d) (Example.blocks a' b' c' d') =
  Example.blocks (a - a') (b - b') (c - c') (d - d').
Proof. vm_compute. entrywise ltac:(ring). Qed.

Lemma blocks_zero (a b c d : R) :
  a = 0 -> b = 0 -> c = 0 -> d = 0 -> Example.blocks a b c d = zeros 12 12.
Proof. intros -> -> -> ->. vm_compute. entrywise ltac:(ring). Qed.

(** [[a I, b I], [b I, c I]] solves the Riccati equation of [__init__] when
    [b * b = 100], [a = b * c] and [c * c = 2 * b + 100]. *)
Lemma block_scalar_care (a b c : R) :
  b * b = 100 -> a = b * c -> c * c = 2 * b + 100 ->
  care_residual F_template G_template Q_weight R_inverse
    (Example.block_scalar a b c) = zeros 12 12.
Proof.
  intros Hb Ha Hc. unfold care_residual, Example.block_scalar.
  change (ncols F_template) with 12%nat. change (ncols G_template) with 6%nat.
  rewrite Ft_blocks, mmulR_blocks_G, mmulR_vblocks_Rinv, mmulR_vblocks_Gt.
  rewrite F_template_blocks at 1. rewrite Q_weight_blocks.
  rewrite !mmulR_blocks, madd_blocks, msub_blocks, madd_blocks.
  apply blocks_zero; nra.
Qed.

Lemma block_scalar_shape (a b c : R) :
  has_shape 12 12 (Example.block_scalar a b c) = true.
Proof. reflexivity. Qed.

Lemma block_scalar_symmetric (a b c : R) : symmetric (Example.block_scalar a b c).
Proof. unfold symmetric. vm_compute. reflexivity. Qed.

Lemma block_scalar_form (a b c : R)
    (x0 x1 x2 x3 x4 x5 y0 y1 y2 y3 y4 y5 : R) :
  dotR [x0; x1; x2; x3; x4; x5; y0; y1; y2; y3; y4; y5]
    (matvecR (Example.block_scalar a b c)
       [x0; x1; x2; x3; x4; x5; y0; y1; y2; y3; y4; y5]) =
  (a * x0 * x0 + 2 * b * x0 * y0 + c * y0 * y0)
  + (a * x1 * x1 + 2 * b * x1 * y1 + c * y1 * y1)
  + (a * x2 * x2 + 2 * b * x2 * y2 + c * y2 * y2)
  + (a * x3 * x3 + 2 * b * x3 * y3 + c * y3 * y3)
  + (a * x4 * x4 + 2 * b * x4 * y4 + c * y4 * y4)
  + (a * x5 * x5 + 2 * b * x5 * y5 + c * y5 * y5).
Proof. vm_compute. ring. Qed.

Lemma binary_form_nonneg (a b c x y : R) :
  0 < a -> b * b <= a * c -> 0 <= a * x * x + 2 * b * x * y + c * y * y.
Proof.
  intros Ha Hdisc.
  assert (H : 0 <= a * (a * x * x + 2 * b * x * y + c * y * y)).
  { replace (a * (a * x * x + 2 * b * x * y + c * y * y))
      with ((a * x + b * y) * (a * x + b * y) + (a * c - b * b) * (y * y))
      by ring.
    pose proof (Rle_0_sqr (a * x + b * y)) as H1. unfold Rsqr in H1.
    pose proof (Rle_0_sqr y) as H2. unfold Rsqr in H2. nra. }
  apply (Rmult_le_reg_l a); [exact Ha|]. now rewrite Rmult_0_r.
Qed.

Lemma block_scalar_psd (a b c : R) :
  0 < a -> b * b <= a * c ->
  positive_semidefinite 12 (Example.block_scalar a b c).
Proof.
  intros Ha Hdisc x Hx.
  destruct (length_12 x Hx)
    as (x0 & x1 & x2 & x3 & x4 & x5 & y0 & y1 & y2 & y3 & y4 & y5 & ->).
  rewrite block_scalar_form.
  pose proof (binary_form_nonneg a b c x0 y0 Ha Hdisc).
  pose proof (binary_form_nonneg a b c x1 y1 Ha Hdisc).
  pose proof (binary_form_nonneg a b c x2 y2 Ha Hdisc).
  pose proof (binary_form_nonneg a b c x3 y3 Ha Hdisc).
  pose proof (binary_form_nonneg a b c x4 y4 Ha Hdisc).
  pose proof (binary_form_nonneg a b c x5 y5 Ha Hdisc).
  lra.
Qed.

(** A root of the characteristic polynomial of [[a, b], [b, c]] is an
    eigenvalue of [[a I, b I], [b I, c I]]. *)
Lemma block_scalar_eigenvalue (a b c lam : R) :
  b <> 0 ->
  lam * lam - (a + c) * lam + (a * c - b * b) = 0 ->
  eigenvalue 12 (Example.block_scalar a b c) lam.
Proof.
  intros Hb Hchar.
  exists [b; 0; 0; 0; 0; 0; lam - a; 0; 0; 0; 0; 0].
  split; [reflexivity|]. split.
  - intros H. injection H as H _. exact (Hb H).
  - vm_compute. entrywise ltac:(try ring). nra.
Qed.

Lemma eigenvalue_Q_weight_100 : eigenvalue 12 Q_weight 100.
Proof.
  exists [1; 0; 0; 0; 0; 0; 0; 0; 0; 0; 0; 0].
  split; [reflexivity|]. split.
  - intros H. injection H as H. lra.
  - now apply matvecR_Q_weight.
Qed.

Lemma example_eigvals_Q :
  Example.eigvals Q_weight = [100; 100].
Proof.
  unfold Example.eigvals.
  change (nth 0 (nth 0 Q_weight []) 0) with (100 * 1).
  change (nth 6 (nth 0 Q_weight []) 0) with (100 * 0).
  change (nth 6 (nth 6 Q_weight []) 0) with (100 * 1).
  cbv zeta.
  replace ((100 * 1 - 100 * 1) / 2 * ((100 * 1 - 100 * 1) / 2)
           + 100 * 0 * (100 * 0)) with 0 by field.
  rewrite sqrt_0. f_equal; [field|f_equal; field].
Qed.

Lemma example_eigvals_P (s : R) :
  s * s = 30 ->
  Forall (eigenvalue 12 (Example.P_closed s)) (Example.eigvals (Example.P_closed s)).
Proof.
  intros Hs. unfold Example.eigvals.
  change (nth 0 (nth 0 (Example.P_closed s) []) 0) with (20 * s * 1).
  change (nth 6 (nth 0 (Example.P_closed s) []) 0) with (10 * 1).
  change (nth 6 (nth 6 (Example.P_closed s) []) 0) with (2 * s * 1).
  cbv zeta.
  set (D := (20 * s * 1 - 2 * s * 1) / 2 * ((20 * s * 1 - 2 * s * 1) / 2)
            + 10 * 1 * (10 * 1)).
  assert (HD : 0 <= D) by (unfold D; nra).
  pose proof (sqrt_sqrt D HD) as Hr.
  set (r := sqrt D) in *.
  assert (HDv : D = 81 * (s * s) + 100) by (unfold D; field).
  repeat constructor; apply block_scalar_eigenvalue; try lra; nra.
Qed.

Lemma sqrt_30 : sqrt 30 * sqrt 30 = 30 /\ 0 < sqrt 30.
Proof. split; [apply sqrt_sqrt; lra|apply sqrt_lt_R0; lra]. Qed.

Lemma example_care_contract : care_contract Example.care.
Proof.
  destruct sqrt_30 as (Hs & Hpos).
  exists (Example.P_closed (sqrt 30)).
  split; [reflexivity|]. split; [apply block_scalar_shape|].
  split; [apply block_scalar_symmetric|].
  split; [apply block_scalar_psd; nra|].
  apply block_scalar_care; nra.
Qed.

Lemma example_eigvals_contract_Q : eigvals_contract Example.eigvals Q_weight.
Proof.
  unfold eigvals_contract. rewrite example_eigvals_Q.
  split; [discriminate|]. repeat constructor; apply eigenvalue_Q_weight_100.
Qed.

Lemma example_eigvals_contract_P (P0 : mat) :
  Example.care F_template G_template Q_weight R_weight = Ok P0 ->
  eigvals_contract Example.eigvals P0.
Proof.
  intros H. injection H as <-. split.
  - unfold Example.eigvals. discriminate.
  - apply example_eigvals_P, sqrt_30.
Qed.

(** * Further properties of the controller *)

(** ** The two CLF builders *)

Lemma vdot_cost_row_dot (self : CLFController) (eta : vec) (J : mat) (nv : nat)
    (weight : R) (acc : vec) :
  controller_wf self -> has_shape 6 nv J = true ->
  dotR (vdot_cost_row self eta J weight) acc =
  weight * (2 * dotR eta (matvecR (P self) (matvecR (G self) (matvecR J acc)))).
Proof.
  intros (HP & HF & HG) HJ. unfold vdot_cost_row.
  rewrite (has_shape_ncols _ _ _ HJ), (has_shape_ncols _ _ _ HG),
    (has_shape_ncols _ _ _ HP).
  rewrite (dotR_vecmatR _ _ _ _ (shape_rows _ _ _ HJ)).
  rewrite (dotR_vecmatR _ _ _ _ (shape_rows _ _ _ HG)).
  rewrite (dotR_vecmatR _ _ _ _ (shape_rows _ _ _ HP)).
  rewrite dotR_scale_l. ring.
Qed.

(** X1. [AddVdotCost] adds one linear cost on [vd], with no constant term,
    and touches no constraint; its value at an acceleration is [weight]
    times what that acceleration contributes to [Vdot], that is
    [weight * (Vdot(vd) - Vdot(0))]. *)
Theorem AddVdotCost_costs_the_linear_part_of_Vdot (self : CLFController)
    (m : MathematicalProgram) (x_tilde xd_tilde : vec) (J : mat)
    (vd : list var) (weight : R) :
  mp self = Some m ->
  controller_wf self ->
  length (x_tilde ++ xd_tilde) = 12%nat ->
  has_shape 6 (length vd) J = true ->
  let eta := x_tilde ++ xd_tilde in
  exists a self',
    AddVdotCost x_tilde xd_tilde J vd weight self = (self', Ok tt)
    /\ mp self' = Some (add_cost m (LinearCost a 0 vd))
    /\ constraints (add_cost m (LinearCost a 0 vd)) = constraints m
    /\ length a = length vd
    /\ forall (Jdv xdd_nom acc : vec),
         length Jdv = 6%nat -> length xdd_nom = 6%nat ->
         dotR a acc =
         weight *
         (Vdot_of (P self) (F self) (G self) eta (nu_of J acc Jdv xdd_nom)
          - Vdot_of (P self) (F self) (G self) eta
              (nu_of J (repeat 0 (length vd)) Jdv xdd_nom)).
Proof.
  intros Hm Hwf Heta HJ eta.
  exists (vdot_cost_row self eta J weight). eexists.
  split; [apply (AddVdotCost_ok self m); auto|].
  split; [reflexivity|]. split; [reflexivity|].
  split; [apply (etaPGJ_ok self Hwf eta J _ Heta HJ (weight * 2))|].
  intros Jdv xdd_nom acc HJdv Hxdd.
  rewrite (vdot_cost_row_dot self eta J _ weight acc Hwf HJ).
  rewrite !(Vdot_of_split self Hwf eta J _ Heta HJ _ _ _ HJdv Hxdd).
  rewrite (matvecR_repeat0 J), (matvecR_repeat0 (G self)),
    (matvecR_repeat0 (P self)), dotR_repeat0_r.
  ring.
Qed.

Lemma AddVdotConstraint_raises (self : CLFController) (x_tilde xd_tilde : vec)
    (J : mat) (vd : list var) (Jdv xdd_nom : vec) (delta : list var) :
  controller_wf self ->
  length (x_tilde ++ xd_tilde) <> 12%nat ->
  AddVdotConstraint x_tilde xd_tilde J vd Jdv xdd_nom delta self =
  (self, Raise ValueError).
Proof.
  intros (HP & _) Heta. unfold AddVdotConstraint.
  rewrite !bind_attr. apply bind_lift_raise.
  rewrite vecmat_bad; [reflexivity|].
  unfold nrows. now rewrite (shape_len _ _ _ HP).
Qed.

(** X2. The certificate fixes the length of the stacked error: handed an
    error of any length other than 12, [AddVdotCost] and [AddVdotConstraint]
    both raise [ValueError] and leave the controller, its program included,
    exactly as it was. *)
Theorem CLF_builders_reject_other_lengths (self : CLFController)
    (x_tilde xd_tilde : vec) (J : mat) (vd : list var) (Jdv xdd_nom : vec)
    (delta : list var) (weight : R) :
  controller_wf self ->
  length (x_tilde ++ xd_tilde) <> 12%nat ->
  AddVdotCost x_tilde xd_tilde J vd weight self = (self, Raise ValueError)
  /\ AddVdotConstraint x_tilde xd_tilde J vd Jdv xdd_nom delta self =
     (self, Raise ValueError).
Proof.
  intros Hwf Heta. split.
  - now apply AddVdotCost_raises.
  - now apply AddVdotConstraint_raises.
Qed.

(** X3. The slack cannot relax the decrease condition: the CLF row and
    [delta <= 0] hold together only if [Vdot <= -gamma V] already holds at
    the accelerations, and whenever it does, [delta = 0] satisfies both. *)
Theorem slack_never_relaxes (self : CLFController) (eta : vec) (J : mat)
    (vd : list var) (Jdv xdd_nom : vec) (d : var) (mu kd : R)
    (sol : var -> R) :
  controller_wf self ->
  length eta = 12%nat ->
  has_shape 6 (length vd) J = true ->
  length Jdv = 6%nat -> length xdd_nom = 6%nat ->
  let clf := clf_constraint self eta J Jdv xdd_nom vd [d] in
  let Vd := Vdot_of (P self) (F self) (G self) eta
              (nu_of J (value sol vd) Jdv xdd_nom) in
  (holds mu kd sol clf -> holds mu kd sol (slack_constraint [d]) ->
   Vd <= - gamma self * V_of (P self) eta)
  /\ (Vd <= - gamma self * V_of (P self) eta -> sol d = 0 ->
      holds mu kd sol clf /\ holds mu kd sol (slack_constraint [d])).
Proof.
  intros Hwf Heta HJ HJdv Hxdd clf Vd. unfold clf, Vd.
  rewrite (clf_constraint_iff self eta J vd Jdv xdd_nom d mu kd sol
             Hwf Heta HJ HJdv Hxdd).
  rewrite holds_slack. split.
  - intros H1 H2. lra.
  - intros H1 H2. rewrite H2. split; lra.
Qed.

(** ** The template of the error dynamics *)

Lemma length_6 (x : vec) :
  length x = 6%nat -> exists x0 x1 x2 x3 x4 x5, x = [x0; x1; x2; x3; x4; x5].
Proof.
  intros H.
  do 6 (destruct x as [|? x]; [discriminate|]).
  destruct x; [|discriminate]. repeat eexists.
Qed.

(** X4. The template [F], [G] of [__init__] is a double integrator on the
    stacked error: [F eta + G nu] is the velocity error followed by [nu],
    so [Vdot = 2 eta' P [xd_tilde; nu]]. *)
Theorem template_is_a_double_integrator (x_tilde xd_tilde nu : vec) :
  length x_tilde = 6%nat -> length xd_tilde = 6%nat -> length nu = 6%nat ->
  let eta := x_tilde ++ xd_tilde in
  matvecR F_template eta = xd_tilde ++ repeat 0 6
  /\ matvecR G_template nu = repeat 0 6 ++ nu
  /\ map2 Rplus (matvecR F_template eta) (matvecR G_template nu) =
     xd_tilde ++ nu
  /\ forall P0 : mat,
       Vdot_of P0 F_template G_template eta nu =
       2 * dotR eta (matvecR P0 (xd_tilde ++ nu)).
Proof.
  intros Hx Hxd Hnu eta. unfold eta.
  destruct (length_6 _ Hx) as (x0 & x1 & x2 & x3 & x4 & x5 & ->).
  destruct (length_6 _ Hxd) as (y0 & y1 & y2 & y3 & y4 & y5 & ->).
  destruct (length_6 _ Hnu) as (n0 & n1 & n2 & n3 & n4 & n5 & ->).
  assert (Hsum : map2 Rplus
                   (matvecR F_template
                      ([x0; x1; x2; x3; x4; x5] ++ [y0; y1; y2; y3; y4; y5]))
                   (matvecR G_template [n0; n1; n2; n3; n4; n5]) =
                 [y0; y1; y2; y3; y4; y5] ++ [n0; n1; n2; n3; n4; n5])
    by (vm_compute; entrywise ltac:(ring)).
  split; [vm_compute; entrywise ltac:(ring)|].
  split; [vm_compute; entrywise ltac:(ring)|].
  split; [exact Hsum|].
  intros P0. unfold Vdot_of. now rewrite Hsum.
Qed.

(** ** The certificate across a tick *)

Lemma same_certificate_refl (a : CLFController) : same_certificate a a.
Proof. repeat split. Qed.

Lemma same_certificate_trans (a b c : CLFController) :
  same_certificate a b -> same_certificate b c -> same_certificate a c.
Proof.
  intros (H1 & H2 & H3 & H4) (K1 & K2 & K3 & K4).
  repeat split; congruence.
Qed.

Lemma keeps_ret {A : Type} (a : A) : keeps_certificate (ret a).
Proof. intros self. apply same_certificate_refl. Qed.

Lemma keeps_lift {A : Type} (r : res A) : keeps_certificate (lift r).
Proof. intros self. apply same_certificate_refl. Qed.

Lemma keeps_attr {A : Type} (f : CLFController -> A) : keeps_certificate (attr f).
Proof. intros self. apply same_certificate_refl. Qed.

Lemma keeps_bind {A B : Type} (m : Py A) (k : A -> Py B) :
  keeps_certificate m -> (forall a, keeps_certificate (k a)) ->
  keeps_certificate (bind m k).
Proof.
  intros Hm Hk self. unfold bind. specialize (Hm self).
  destruct (m self) as [self' [a|e]]; cbn [fst] in *.
  - exact (same_certificate_trans _ _ _ (Hk a self') Hm).
  - exact Hm.
Qed.

Lemma keeps_set_mp {A : Type} (f : CLFController -> MathematicalProgram)
    (g : CLFController -> res A) :
  keeps_certificate (fun self => (set_mp self (f self), g self)).
Proof. intros self. repeat split. Qed.

Lemma keeps_the_program : keeps_certificate the_program.
Proof.
  intros self. unfold the_program. destruct (mp self); apply same_certificate_refl.
Qed.

Lemma keeps_if {A : Type} (b : bool) (m1 m2 : Py A) :
  keeps_certificate m1 -> keeps_certificate m2 ->
  keeps_certificate (if b then m1 else m2).
Proof. now destruct b. Qed.

Lemma keeps_new_program : keeps_certificate new_program.
Proof. intros self. repeat split. Qed.

Lemma keeps_NewContinuousVariables (n : nat) (name : var_name) :
  keeps_certificate (NewContinuousVariables n name).
Proof.
  unfold NewContinuousVariables. apply keeps_bind; [apply keeps_the_program|].
  intros m self. repeat split.
Qed.

Lemma keeps_AddLinearCost (a : vec) (b : R) (vars : list var) :
  keeps_certificate (AddLinearCost a b vars).
Proof.
  unfold AddLinearCost. apply keeps_bind; [apply keeps_the_program|].
  intros m. apply keeps_if; [|apply keeps_lift]. intros self. repeat split.
Qed.

Lemma keeps_AddLinearConstraint (A : mat) (lb ub : list bound) (vars : list var) :
  keeps_certificate (AddLinearConstraint A lb ub vars).
Proof.
  unfold AddLinearConstraint. apply keeps_bind; [apply keeps_the_program|].
  intros m. apply keeps_if; [|apply keeps_lift]. intros self. repeat split.
Qed.

Lemma keeps_AddVdotCost (x_tilde xd_tilde : vec) (J : mat) (vd : list var)
    (weight : R) :
  keeps_certificate (AddVdotCost x_tilde xd_tilde J vd weight).
Proof.
  unfold AddVdotCost.
  repeat (apply keeps_bind; [first [apply keeps_attr|apply keeps_lift]|intros ?]).
  apply keeps_AddLinearCost.
Qed.

Lemma keeps_AddVdotConstraint (x_tilde xd_tilde : vec) (J : mat) (vd : list var)
    (Jdv xdd_nom : vec) (delta : list var) :
  keeps_certificate (AddVdotConstraint x_tilde xd_tilde J vd Jdv xdd_nom delta).
Proof.
  unfold AddVdotConstraint.
  repeat (apply keeps_bind; [first [apply keeps_attr|apply keeps_lift]|intros ?]).
  apply keeps_AddLinearConstraint.
Qed.

Lemma keeps_add (f : MathematicalProgram -> MathematicalProgram) :
  keeps_certificate
    (bind the_program (fun m self => (set_mp self (f m), Ok tt))).
Proof.
  apply keeps_bind; [apply keeps_the_program|]. intros m self. repeat split.
Qed.

Lemma keeps_AddFrictionPyramidConstraint (f_c : list (list var)) :
  keeps_certificate (AddFrictionPyramidConstraint f_c).
Proof.
  induction f_c as [|f f_c IH]; cbn [AddFrictionPyramidConstraint];
    [apply keeps_ret|].
  apply keeps_bind; [apply keeps_the_program|]. intros m.
  apply keeps_bind; [intros self; repeat split|]. intros _. exact IH.
Qed.

Lemma keeps_AddContactConstraint (J_c : list mat) (vd : list var)
    (Jdv_c : list vec) (v : vec) :
  keeps_certificate (AddContactConstraint J_c vd Jdv_c v).
Proof.
  revert Jdv_c. induction J_c as [|J0 J_c IH]; intros [|Jdv0 Jdv_c];
    cbn [AddContactConstraint]; try apply keeps_ret.
  apply keeps_bind; [apply keeps_the_program|]. intros m.
  apply keeps_bind; [intros self; repeat split|]. intros _. apply IH.
Qed.

Lemma keeps_new_force_vars (js : list nat) :
  keeps_certificate (new_force_vars js).
Proof.
  induction js as [|j js IH]; cbn [new_force_vars]; [apply keeps_ret|].
  apply keeps_bind; [apply keeps_NewContinuousVariables|]. intros f.
  apply keeps_bind; [exact IH|]. intros fs. apply keeps_ret.
Qed.

Lemma keeps_setup_program (M : mat) (Cv tau_g : vec) (S_ : mat)
    (ts : TaskSpace) (nv na : nat) (v : vec) :
  keeps_certificate (setup_program M Cv tau_g S_ ts nv na v).
Proof.
  unfold setup_program.
  repeat (apply keeps_bind;
          [first [ apply keeps_new_program
                 | apply keeps_NewContinuousVariables
                 | apply keeps_new_force_vars
                 | apply keeps_AddVdotCost
                 | apply keeps_AddVdotConstraint
                 | apply keeps_AddLinearConstraint
                 | apply keeps_add
                 | idtac ]
          |intros ?]).
  - apply keeps_if; [|apply keeps_ret].
    apply keeps_bind; [apply keeps_AddFrictionPyramidConstraint|].
    intros _. apply keeps_AddContactConstraint.
  - apply keeps_ret.
Qed.

Lemma keeps_log_diagnostics (ts : TaskSpace) (vd : vec) :
  keeps_certificate (log_diagnostics ts vd).
Proof.
  unfold log_diagnostics.
  repeat (apply keeps_bind;
          [first [ apply keeps_attr | apply keeps_lift
                 | intros self; repeat split ]
          |intros ?]).
  intros self. repeat split.
Qed.

(** X5. [ControlLaw] never assigns the certificate: whatever the inputs,
    and whether it returns or raises, [F], [G], [P] and [gamma] are after
    the call what they were before it. *)
Theorem ControlLaw_keeps_the_certificate
    (CalcRpyDt : vec3 -> vec3 -> res vec3) (W : vec3 -> vec3 -> vec3)
    (Solve : MathematicalProgram -> MathematicalProgramResult)
    (plant : Plant) (td : trunk.TrunkData) (q v : vec) (self : CLFController) :
  same_certificate (fst (ControlLaw CalcRpyDt W Solve plant td q v self)) self.
Proof.
  revert self. change (keeps_certificate (ControlLaw CalcRpyDt W Solve plant td q v)).
  unfold ControlLaw. destruct (CalcDynamics plant) as [[[M Cv] tau_g] S_].
  apply keeps_bind; [apply keeps_lift|]. intros ts.
  apply keeps_bind; [apply keeps_setup_program|]. intros [vd tau].
  apply keeps_bind; [apply keeps_the_program|]. intros m.
  apply keeps_bind; [apply keeps_if; [apply keeps_ret|apply keeps_lift]|].
  intros _.
  apply keeps_bind; [apply keeps_log_diagnostics|]. intros _. apply keeps_ret.
Qed.

(** ** Ticks the controller cannot start *)

Section RejectedInputs.

Variable CalcRpyDt : vec3 -> vec3 -> res vec3.
Variable W : vec3 -> vec3 -> vec3.
Variable Solve : MathematicalProgram -> MathematicalProgramResult.

Variables (plant : Plant) (td : trunk.TrunkData) (q v : vec).
Variable self : CLFController.

(** A failure while the task-space quantities are computed leaves the
    controller as it was. *)
Lemma task_space_failure (e : exn) :
  task_space CalcRpyDt W plant td v = Raise e ->
  ControlLaw CalcRpyDt W Solve plant td q v self = (self, Raise e).
Proof using Type.
  intros H. unfold ControlLaw.
  destruct (CalcDynamics plant) as [[[M Cv] tau_g] S_].
  now apply bind_lift_raise.
Qed.

(** X6. A setpoint whose list of contact flags is not empty and does not
    have four entries is refused by the boolean indexing of the nominal
    foot positions: [ControlLaw] raises [IndexError] before a program is
    created, and the controller is left as it was. *)
Theorem wrong_number_of_contact_flags :
  Forall (fun u : vec => length u = 3%nat) (p_feet_nom_of td) ->
  Forall (fun u : vec => length u = 3%nat) (pd_feet_nom_of td) ->
  Forall (fun u : vec => length u = 3%nat) (pdd_feet_nom_of td) ->
  trunk.contact_states td <> [] ->
  length (trunk.contact_states td) <> 4%nat ->
  task_space CalcRpyDt W plant td v = Raise IndexError
  /\ ControlLaw CalcRpyDt W Solve plant td q v self = (self, Raise IndexError).
Proof using Type.
  intros Hp Hpd Hpdd _ Hc.
  assert (Hts : task_space CalcRpyDt W plant td v = Raise IndexError).
  { unfold task_space.
    unfold p_feet_nom_of, pd_feet_nom_of, pdd_feet_nom_of in *.
    rewrite (array2_ok 3 _ Hp), (array2_ok 3 _ Hpd), (array2_ok 3 _ Hpdd).
    cbn [rbind]. unfold getmask at 1. rewrite length_map.
    apply Nat.eqb_neq in Hc. cbn [length]. rewrite Hc. reflexivity. }
  split; [exact Hts|now apply task_space_failure].
Qed.

(** X7. When pydrake refuses to convert the measured angular velocity to
    roll-pitch-yaw rates, as it does at gimbal lock, the exception leaves
    [ControlLaw] unchanged, no program is created and the controller is
    left as it was. *)
Theorem rate_conversion_failure_is_passed_on (e : exn) :
  trunk_wf td -> plant_wf plant v ->
  measured_rpyd CalcRpyDt plant v = Raise e ->
  task_space CalcRpyDt W plant td v = Raise e
  /\ ControlLaw CalcRpyDt W Solve plant td q v self = (self, Raise e).
Proof using Type.
  intros (Hc & Hbody & Hp & Hpd & Hpdd) (Hv & HJb & HJdvb & Hpf & HJf & HJdvf)
    Hrpyd.
  assert (Hts : task_space CalcRpyDt W plant td v = Raise e).
  { unfold task_space, measured_rpyd in *.
    unfold X_body_of, J_body_of, p_feet_nom_of, pd_feet_nom_of,
      pdd_feet_nom_of in *.
    destruct (CalcFramePoseQuantities plant body_frame) as [[X Jb] Jdvb].
    cbn [fst snd] in *.
    remember (map negb (trunk.contact_states td)) as swing eqn:Hswing.
    assert (Hs : length swing = 4%nat)
      by (rewrite Hswing; now rewrite length_map).
    rewrite (array2_ok 3 _ Hp), (array2_ok 3 _ Hpd), (array2_ok 3 _ Hpdd).
    cbn [rbind].
    rewrite !getmask_ok by (rewrite Hs; reflexivity). cbn [rbind].
    assert (HJbv : matvec Jb v = Ok (matvecR Jb v)).
    { apply matvec_ok. rewrite Hv. apply (shape_rows _ _ _ HJb). }
    rewrite HJbv in *. cbn [rbind] in *.
    destruct (as_vec3 (firstn 3 (matvecR Jb v))) as [omega3|e'] eqn:Eom;
      cbn [rbind] in *.
    - rewrite Hrpyd. reflexivity.
    - exfalso.
      destruct (as_vec3_ok (firstn 3 (matvecR Jb v))) as (w & Hw & _).
      + rewrite length_firstn, length_matvecR, (shape_len _ _ _ HJb).
        reflexivity.
      + congruence. }
  split; [exact Hts|now apply task_space_failure].
Qed.

End RejectedInputs.

(** ** Outcomes of a well-formed tick *)

Lemma some_swing (l : list bool) :
  forallb (fun b => b) l = false -> any (map negb l) = true.
Proof.
  unfold any. induction l as [|b l IH]; simpl; [discriminate|].
  destruct b; simpl; auto.
Qed.

Lemma all_contact (l : list bool) :
  length l = 4%nat -> any (map negb l) = false -> l = [true; true; true; true].
Proof.
  intros Hl Hany.
  do 4 (destruct l as [|[|] l]; try discriminate).
  destruct l; [reflexivity|discriminate].
Qed.

Lemma plant_program_certificate (self1 self2 : CLFController) (plant : Plant)
    (ts : TaskSpace) (v : vec) :
  same_certificate self1 self2 ->
  plant_program self1 plant ts v = plant_program self2 plant ts v.
Proof.
  intros (HF & HG & HP & Hg). unfold plant_program.
  destruct (CalcDynamics plant) as [[[M Cv] tau_g] S_].
  unfold tick_program, vdot_cost_row, clf_constraint, clf_row, clf_ub.
  now rewrite HF, HG, HP, Hg.
Qed.

Lemma after_tick_certificate (self1 self2 : CLFController)
    (m : MathematicalProgram) (ts : TaskSpace) (vd : vec) :
  same_certificate self1 self2 ->
  after_tick self1 m ts vd = after_tick self2 m ts vd.
Proof.
  intros (HF & HG & HP & Hg). unfold after_tick, V_logged, Vdot_logged.
  now rewrite HF, HG, HP, Hg.
Qed.

Lemma select_map {A B : Type} (f : A -> B) (l : list A) (mask : list bool) :
  select (map f l) mask = map f (select l mask).
Proof.
  revert mask. induction l as [|a l IH]; intros [|b mask]; simpl; auto.
  destruct b; simpl; now rewrite IH.
Qed.

Lemma matvecR_app (A B : mat) (v : vec) :
  matvecR (A ++ B) v = matvecR A v ++ matvecR B v.
Proof. unfold matvecR. apply map_app. Qed.

Lemma matvecR_concat (Js : list mat) (v : vec) :
  matvecR (concat Js) v = flatten (map (fun Jf => matvecR Jf v) Js).
Proof.
  unfold flatten. induction Js as [|J0 Js IH]; simpl; auto.
  now rewrite matvecR_app, IH.
Qed.

Section TickProperties.

Variable CalcRpyDt : vec3 -> vec3 -> res vec3.
Variable W : vec3 -> vec3 -> vec3.
Variable Solve : MathematicalProgram -> MathematicalProgramResult.

Variables (plant : Plant) (td : trunk.TrunkData) (q v : vec).

Hypothesis Htick : tick_wf CalcRpyDt plant td v.

Let nv := num_velocities plant.
Let na := num_actuators plant.

Lemma tick_value (ts : TaskSpace) :
  task_space CalcRpyDt W plant td v = Ok ts ->
  exists rpyd rn rnn, ts = task_space_value W plant td v rpyd rn rnn.
Proof using Htick.
  intros Hts.
  destruct (tick_task_space CalcRpyDt W plant td v Htick)
    as (rpyd & rn & rnn & _ & _ & _ & Hts').
  exists rpyd, rn, rnn. congruence.
Qed.

(** X8. The Jacobians and bias terms kept for the contact feet are as many
    as the force blocks the program declares, one per true contact flag and
    at most four, and each is three rows over the velocities: no contact
    force is left without its Jacobian in the dynamics constraint. *)
Theorem contact_data_match_the_force_blocks :
  exists ts,
    task_space CalcRpyDt W plant td v = Ok ts
    /\ (num_contact ts <= 4)%nat
    /\ length (J_c ts) = num_contact ts
    /\ length (Jdv_c ts) = num_contact ts
    /\ length (force_vars (num_contact ts)) = num_contact ts
    /\ Forall (fun Jf => has_shape 3 nv Jf = true) (J_c ts)
    /\ Forall (fun u : vec => length u = 3%nat) (Jdv_c ts).
Proof using Htick.
  destruct (tick_task_space CalcRpyDt W plant td v Htick)
    as (rpyd & rn & rnn & _ & _ & _ & Hts).
  destruct Htick as ((Hc & _) & (_ & _ & _ & _ & HJf & HJdvf) & _).
  exists (task_space_value W plant td v rpyd rn rnn).
  split; [exact Hts|].
  unfold task_space_value. cbn [num_contact J_c Jdv_c].
  split.
  { pose proof (sum_negb (trunk.contact_states td)) as H. rewrite Hc in H. lia. }
  split; [apply select_length_le; unfold J_feet_of; now rewrite length_map, Hc|].
  split; [apply select_length_le; unfold Jdv_feet_of; now rewrite length_map, Hc|].
  split; [unfold force_vars; now rewrite length_map, length_seq|].
  split; [now apply select_Forall|now apply select_Forall].
Qed.

(** X9. When the two conversions of [RollPitchYaw] undo each other, as
    they do away from gimbal lock, the measured task-space velocity is the
    task Jacobian applied to the generalized velocity, [xd = J v]: the
    angular velocity goes to roll-pitch-yaw rates and back unchanged, and
    the selected feet follow the body in the same order as the rows of
    [J]. *)
Theorem measured_velocity_is_J_v :
  (forall rpy omega rpyd, CalcRpyDt rpy omega = Ok rpyd -> W rpy rpyd = omega) ->
  exists ts,
    task_space CalcRpyDt W plant td v = Ok ts
    /\ xd ts = matvecR (J ts) v.
Proof using Htick.
  intros Hround.
  destruct (tick_task_space CalcRpyDt W plant td v Htick)
    as (rpyd & rn & rnn & Hrpyd & _ & _ & Hts).
  exists (task_space_value W plant td v rpyd rn rnn).
  split; [exact Hts|].
  unfold measured_rpyd in Hrpyd.
  destruct (matvec (J_body_of plant) v) as [Jv|e] eqn:EJv; [|discriminate].
  cbn [rbind] in Hrpyd.
  destruct (as_vec3 (firstn 3 Jv)) as [omega|e] eqn:Eom; [|discriminate].
  cbn [rbind] in Hrpyd.
  apply Hround in Hrpyd. apply as_vec3_inv in Eom.
  assert (HJv : Jv = matvecR (J_body_of plant) v).
  { unfold matvec in EJv. destruct (forallb _ _); congruence. }
  unfold task_space_value. cbn [xd J]. unfold stacked.
  rewrite Hrpyd, <- Eom, HJv. rewrite select_map.
  destruct (any (map negb (trunk.contact_states td))) eqn:Hany.
  - rewrite matvecR_app, matvecR_concat.
    rewrite <- (firstn_skipn 3 (matvecR (J_body_of plant) v)) at 3.
    now rewrite <- app_assoc.
  - rewrite (select_none _ _ Hany). unfold flatten. cbn [map concat].
    rewrite app_nil_r. apply firstn_skipn.
Qed.

Variable self : CLFController.
Hypothesis Hwf : controller_wf self.

(** X10. Every tick with a foot off the ground is rejected: the stacked
    error then has [12 + 6 * num_swing] entries, more than the 12 the
    certificate takes, and [ControlLaw] raises [ValueError] in
    [AddVdotCost], leaving a program with the tracking cost alone and no
    constraint. *)
Theorem swing_tick_is_rejected :
  forallb (fun b => b) (trunk.contact_states td) = false ->
  exists ts m,
    task_space CalcRpyDt W plant td v = Ok ts
    /\ (0 < num_swing ts)%nat
    /\ length (x_tilde ts ++ xd_tilde ts) = (12 + 6 * num_swing ts)%nat
    /\ ControlLaw CalcRpyDt W Solve plant td q v self =
       (set_mp self m, Raise ValueError)
    /\ costs m =
       [JacobianTypeCost (J ts) (new_vars n_vd nv) (Jdv ts) (xdd_nom ts) 1]
    /\ constraints m = [].
Proof using Htick Hwf.
  intros Hsome. apply some_swing in Hsome.
  destruct (tick_task_space CalcRpyDt W plant td v Htick)
    as (rpyd & rn & rnn & _ & _ & _ & Hts).
  pose proof Htick as (Htd & Hplant & _).
  set (ts := task_space_value W plant td v rpyd rn rnn) in *.
  exists ts, (program_before_clf ts nv na).
  split; [exact Hts|].
  split; [exact (any_true_sum _ Hsome)|].
  split; [exact (length_eta W plant td v rpyd rn rnn Htd Hplant)|].
  split; [|split; reflexivity].
  apply (ControlLaw_raises CalcRpyDt W Solve plant td q v self ts Hwf Hts).
  exact (swing_length_eta W plant td v rpyd rn rnn Htd Hplant Hsome).
Qed.

(** X11. A tick that returns a torque had all four feet in contact; the
    program it solved declares [nv + na + 13] decision variables, the
    accelerations, the torques, four blocks of three contact forces and the
    slack, and the torque returned has one entry per actuator. *)
Theorem accepted_tick_program_layout (self' : CLFController) (tau : vec) :
  ControlLaw CalcRpyDt W Solve plant td q v self = (self', Ok tau) ->
  trunk.contact_states td = [true; true; true; true]
  /\ length tau = na
  /\ exists ts m,
       task_space CalcRpyDt W plant td v = Ok ts
       /\ num_contact ts = 4%nat /\ num_swing ts = 0%nat
       /\ mp self' = Some m
       /\ decision_variables m =
          ((new_vars n_vd nv ++ new_vars n_tau na) ++ concat (force_vars 4))
          ++ new_vars n_delta 1
       /\ length (decision_variables m) = (nv + na + 13)%nat.
Proof using Htick Hwf.
  intros Hrun.
  destruct (accepted_tick CalcRpyDt W Solve plant td q v Htick self Hwf
              self' tau Hrun)
    as (ts & Hts & Hany & _ & _ & Hself & Htau).
  destruct (tick_value ts Hts) as (rpyd & rn & rnn & Hval).
  pose proof Htick as ((Hc & _) & _ & _).
  assert (Hall : trunk.contact_states td = [true; true; true; true]).
  { apply all_contact; [exact Hc|]. rewrite Hval in Hany. exact Hany. }
  assert (Hnc : num_contact ts = 4%nat).
  { rewrite Hval. unfold task_space_value. cbn [num_contact].
    now rewrite Hall. }
  split; [exact Hall|].
  split; [rewrite Htau; now rewrite length_map, length_new_vars|].
  exists ts, (plant_program self plant ts v).
  split; [exact Hts|]. split; [exact Hnc|].
  split.
  { rewrite Hval. unfold task_space_value. cbn [num_swing].
    now rewrite Hall. }
  split; [rewrite Hself; reflexivity|].
  unfold plant_program. destruct (CalcDynamics plant) as [[[M Cv] tau_g] S_].
  unfold tick_program. cbn [decision_variables]. rewrite Hnc.
  split; [reflexivity|].
  rewrite !length_app, !length_new_vars. fold nv na.
  change (length (concat (force_vars 4))) with 12%nat. lia.
Qed.

(** X12. A tick that raises leaves the diagnostics of the tick before:
    [V], [err] and [Vdot] are not touched, while [self.mp] already holds
    the program of the failed tick; the exception is the [ValueError] of a
    swing foot or the [AssertionError] of a failed solve. *)
Theorem raising_tick_keeps_old_diagnostics (self' : CLFController) (e : exn) :
  ControlLaw CalcRpyDt W Solve plant td q v self = (self', Raise e) ->
  V self' = V self /\ err self' = err self /\ Vdot self' = Vdot self
  /\ (e = ValueError \/ e = AssertionError)
  /\ exists ts m,
       task_space CalcRpyDt W plant td v = Ok ts
       /\ mp self' = Some m
       /\ decision_variables m =
          ((new_vars n_vd nv ++ new_vars n_tau na)
           ++ concat (force_vars (num_contact ts)))
          ++ new_vars n_delta 1.
Proof using Htick Hwf.
  intros Hrun.
  destruct (tick_outcome CalcRpyDt W Solve plant td q v Htick self Hwf)
    as (ts & Hts & [(Hany & E) | (Hany & Hsh & E)]).
  - rewrite E in Hrun. injection Hrun as <- <-.
    repeat split; auto. exists ts. eexists.
    split; [exact Hts|]. split; reflexivity.
  - cbv zeta in E. rewrite E in Hrun.
    destruct (is_success (Solve (plant_program self plant ts v)));
      [discriminate|].
    injection Hrun as <- <-.
    repeat split; auto. exists ts, (plant_program self plant ts v).
    split; [exact Hts|]. split; [reflexivity|].
    unfold plant_program. destruct (CalcDynamics plant) as [[[M Cv] tau_g] S_].
    reflexivity.
Qed.

(** X13. A tick starts from a fresh program and overwrites the
    diagnostics: two controllers with the same certificate, whatever
    programs and diagnostics the ticks before left on them, return or raise
    the same, leave the same program, and after an accepted tick are
    equal. *)
Theorem tick_ignores_earlier_state (other : CLFController) :
  same_certificate self other ->
  let run1 := ControlLaw CalcRpyDt W Solve plant td q v self in
  let run2 := ControlLaw CalcRpyDt W Solve plant td q v other in
  snd run1 = snd run2
  /\ mp (fst run1) = mp (fst run2)
  /\ (forall tau, snd run1 = Ok tau -> fst run1 = fst run2).
Proof using Htick Hwf.
  intros Hsame run1 run2.
  assert (Hwf' : controller_wf other).
  { destruct Hsame as (HF & HG & HP & _). unfold controller_wf.
    rewrite <- HF, <- HG, <- HP. exact Hwf. }
  destruct (tick_outcome CalcRpyDt W Solve plant td q v Htick self Hwf)
    as (ts & Hts & [(Hany & E) | (Hany & Hsh & E)]);
  destruct (tick_outcome CalcRpyDt W Solve plant td q v Htick other Hwf')
    as (ts' & Hts' & [(Hany' & E') | (Hany' & Hsh' & E')]);
  rewrite Hts in Hts'; injection Hts' as <-; try congruence.
  - unfold run1, run2. rewrite E, E'. cbn [fst snd].
    split; [reflexivity|]. split; [reflexivity|]. discriminate.
  - cbv zeta in E, E'. unfold run1, run2. rewrite E, E'.
    rewrite <- (plant_program_certificate self other plant ts v Hsame).
    destruct (is_success (Solve (plant_program self plant ts v))); cbn [fst snd].
    + split; [reflexivity|]. split; [reflexivity|]. intros _ _.
      now apply after_tick_certificate.
    + split; [reflexivity|]. split; [reflexivity|]. discriminate.
Qed.

(** An accepted solve that satisfies the constraints of its program
    satisfies the decrease condition at the logged values. *)
Lemma accepted_decrease (mu kd : R) (self' : CLFController) (tau : vec) :
  ControlLaw CalcRpyDt W Solve plant td q v self = (self', Ok tau) ->
  (forall m, mp self' = Some m -> feasible mu kd (GetSolution (Solve m)) m) ->
  exists ts,
    task_space CalcRpyDt W plant td v = Ok ts
    /\ length (x_tilde ts ++ xd_tilde ts) = 12%nat
    /\ V self' = Some (V_logged self ts)
    /\ V_logged self ts = V_of (P self) (x_tilde ts ++ xd_tilde ts)
    /\ exists Vd,
         Vdot self' = Some Vd
         /\ Vd <= - gamma self * V_logged self ts.
Proof using Htick Hwf.
  intros Hrun Hfeas.
  destruct (accepted_tick CalcRpyDt W Solve plant td q v Htick self Hwf
              self' tau Hrun)
    as (ts & Hts & Hany & Hsh & Hok & Hself & _).
  remember (plant_program self plant ts v) as m eqn:Hm.
  rewrite Hself in Hfeas. specialize (Hfeas m eq_refl).
  pose proof Hsh as (Heta & HJ & HJdv & Hxdd).
  exists ts. split; [exact Hts|]. split; [exact Heta|].
  split; [rewrite Hself; reflexivity|].
  split; [apply (V_logged_spec self ts Hwf)|].
  eexists. split; [rewrite Hself; reflexivity|].
  remember (x_tilde ts ++ xd_tilde ts) as eta eqn:Heq.
  remember (GetSolution (Solve m)) as sol eqn:Hsol.
  assert (Hclf : holds mu kd sol
                   (clf_constraint self eta (J ts) (Jdv ts) (xdd_nom ts)
                      (new_vars n_vd nv) [(n_delta, 0%nat)])
                 /\ holds mu kd sol (slack_constraint [(n_delta, 0%nat)])).
  { unfold feasible in Hfeas. rewrite Hm in Hfeas. unfold plant_program in Hfeas.
    destruct (CalcDynamics plant) as [[[M Cv] tg] S_].
    unfold tick_program in Hfeas. cbn [constraints app] in Hfeas.
    rewrite <- Heq in Hfeas.
    inversion Hfeas as [|c1 l1 H1 Hrest].
    inversion Hrest as [|c2 l2 H2 _].
    split; [exact H1|exact H2]. }
  destruct Hclf as (Hclf & Hslack).
  assert (HJ' : has_shape 6 (length (new_vars n_vd nv)) (J ts) = true)
    by (now rewrite length_new_vars).
  apply (clf_constraint_iff self eta (J ts) (new_vars n_vd nv) (Jdv ts)
           (xdd_nom ts) (n_delta, 0%nat) mu kd sol Hwf Heta HJ' HJdv Hxdd)
    in Hclf.
  apply holds_slack in Hslack.
  rewrite (V_logged_spec self ts Hwf).
  rewrite (Vdot_logged_spec self ts nv _ Hwf Hsh). rewrite <- Heq.
  unfold value, nv in Hclf. lra.
Qed.

(** X14. With a positive-definite certificate and a positive rate, as
    [__init__] builds them, an accepted solve that satisfies its
    constraints logs [V >= 0] and [Vdot <= 0]; [V] is zero only at zero
    error, and away from it [V > 0] and [Vdot < 0], so the candidate
    Lyapunov function strictly decreases. *)
Theorem accepted_tick_strictly_decreases_V (mu kd : R)
    (self' : CLFController) (tau : vec) :
  positive_definite 12 (P self) -> 0 < gamma self ->
  ControlLaw CalcRpyDt W Solve plant td q v self = (self', Ok tau) ->
  (forall m, mp self' = Some m -> feasible mu kd (GetSolution (Solve m)) m) ->
  exists ts Vv Vd,
    task_space CalcRpyDt W plant td v = Ok ts
    /\ V self' = Some Vv /\ Vdot self' = Some Vd
    /\ 0 <= Vv /\ Vd <= 0
    /\ (Vv = 0 <-> x_tilde ts ++ xd_tilde ts = repeat 0 12)
    /\ (x_tilde ts ++ xd_tilde ts <> repeat 0 12 -> 0 < Vv /\ Vd < 0).
Proof using Htick Hwf.
  intros Hpd Hgamma Hrun Hfeas.
  destruct (accepted_decrease mu kd self' tau Hrun Hfeas)
    as (ts & Hts & Heta & HV & HVof & Vd & HVd & Hdec).
  exists ts, (V_logged self ts), Vd.
  split; [exact Hts|]. split; [exact HV|]. split; [exact HVd|].
  rewrite HVof in *. unfold V_of in *.
  remember (x_tilde ts ++ xd_tilde ts) as eta eqn:Heq.
  destruct (list_eq_dec Req_dec_T eta (repeat 0 12)) as [Hz|Hnz].
  - assert (H0 : dotR eta (matvecR (P self) eta) = 0)
      by (rewrite Hz at 1; apply dotR_repeat0_l).
    rewrite H0 in *.
    split; [lra|]. split; [lra|]. split; [tauto|]. intros Hne. contradiction.
  - pose proof (Hpd eta Heta Hnz) as Hpos.
    split; [lra|]. split; [nra|].
    split; [split; [lra|contradiction]|]. intros _. split; [exact Hpos|nra].
Qed.

End TickProperties.

(** ** The Riccati equation of the constructor in closed form *)

Lemma pair_characteristic (a b c lam x y : R) :
  a * x + b * y = lam * x -> b * x + c * y = lam * y ->
  x <> 0 \/ y <> 0 ->
  lam * lam - (a + c) * lam + (a * c - b * b) = 0.
Proof.
  intros H1 H2 Hxy.
  set (d := lam * lam - (a + c) * lam + (a * c - b * b)).
  assert (Hx : d * x = 0).
  { unfold d.
    replace ((lam * lam - (a + c) * lam + (a * c - b * b)) * x)
      with ((lam - c) * (lam * x - a * x) - b * (b * x)) by ring.
    rewrite <- H1.
    replace (b * x) with (lam * y - c * y) by lra. ring. }
  assert (Hy : d * y = 0).
  { unfold d.
    replace ((lam * lam - (a + c) * lam + (a * c - b * b)) * y)
      with ((lam - a) * (lam * y - c * y) - b * (b * y)) by ring.
    rewrite <- H2.
    replace (b * y) with (lam * x - a * x) by lra. ring. }
  destruct Hxy as [Hne|Hne].
  - destruct (Rmult_integral _ _ Hx); [assumption|contradiction].
  - destruct (Rmult_integral _ _ Hy); [assumption|contradiction].
Qed.

Lemma block_scalar_matvecR (a b c : R)
    (x0 x1 x2 x3 x4 x5 y0 y1 y2 y3 y4 y5 : R) :
  matvecR (Example.block_scalar a b c)
    [x0; x1; x2; x3; x4; x5; y0; y1; y2; y3; y4; y5] =
  [a * x0 + b * y0; a * x1 + b * y1; a * x2 + b * y2;
   a * x3 + b * y3; a * x4 + b * y4; a * x5 + b * y5;
   b * x0 + c * y0; b * x1 + c * y1; b * x2 + c * y2;
   b * x3 + c * y3; b * x4 + c * y4; b * x5 + c * y5].
Proof. vm_compute. entrywise ltac:(ring). Qed.

Lemma block_scalar_eigenvalue_inv (a b c lam : R) :
  eigenvalue 12 (Example.block_scalar a b c) lam ->
  lam * lam - (a + c) * lam + (a * c - b * b) = 0.
Proof.
  intros (x & Hx & Hx0 & Heq).
  destruct (length_12 x Hx)
    as (x0 & x1 & x2 & x3 & x4 & x5 & y0 & y1 & y2 & y3 & y4 & y5 & ->).
  rewrite block_scalar_matvecR in Heq. cbn [scale map] in Heq.
  injection Heq as E0 E1 E2 E3 E4 E5 E6 E7 E8 E9 E10 E11.
  destruct (Req_dec x0 0) as [Z0|N0];
    [|exact (pair_characteristic a b c lam x0 y0 E0 E6 (or_introl N0))].
  destruct (Req_dec y0 0) as [Z6|N6];
    [|exact (pair_characteristic a b c lam x0 y0 E0 E6 (or_intror N6))].
  destruct (Req_dec x1 0) as [Z1|N1];
    [|exact (pair_characteristic a b c lam x1 y1 E1 E7 (or_introl N1))].
  destruct (Req_dec y1 0) as [Z7|N7];
    [|exact (pair_characteristic a b c lam x1 y1 E1 E7 (or_intror N7))].
  destruct (Req_dec x2 0) as [Z2|N2];
    [|exact (pair_characteristic a b c lam x2 y2 E2 E8 (or_introl N2))].
  destruct (Req_dec y2 0) as [Z8|N8];
    [|exact (pair_characteristic a b c lam x2 y2 E2 E8 (or_intror N8))].
  destruct (Req_dec x3 0) as [Z3|N3];
    [|exact (pair_characteristic a b c lam x3 y3 E3 E9 (or_introl N3))].
  destruct (Req_dec y3 0) as [Z9|N9];
    [|exact (pair_characteristic a b c lam x3 y3 E3 E9 (or_intror N9))].
  destruct (Req_dec x4 0) as [Z4|N4];
    [|exact (pair_characteristic a b c lam x4 y4 E4 E10 (or_introl N4))].
  destruct (Req_dec y4 0) as [Z10|N10];
    [|exact (pair_characteristic a b c lam x4 y4 E4 E10 (or_intror N10))].
  destruct (Req_dec x5 0) as [Z5|N5];
    [|exact (pair_characteristic a b c lam x5 y5 E5 E11 (or_introl N5))].
  destruct (Req_dec y5 0) as [Z11|N11];
    [|exact (pair_characteristic a b c lam x5 y5 E5 E11 (or_intror N11))].
  exfalso. apply Hx0. subst. reflexivity.
Qed.

(** X15. The Riccati equation [__init__] poses, with its [F], [G],
    [Q = 100 I] and [R = I], is solved by the symmetric positive-definite
    [[20 s I, 10 I], [10 I, 2 s I]] with [s] the square root of 30, whose
    eigenvalues are exactly [11 s + r] and [11 s - r] with [r] the square
    root of 2530; with this solution [gamma] is [100 / (11 s + r)]. *)
Theorem riccati_solution_in_closed_form :
  let s := sqrt 30 in
  let r := sqrt 2530 in
  let P0 := Example.P_closed s in
  care_residual F_template G_template Q_weight R_inverse P0 = zeros 12 12
  /\ has_shape 12 12 P0 = true
  /\ symmetric P0
  /\ positive_definite 12 P0
  /\ (forall lam, eigenvalue 12 P0 lam <-> lam = 11 * s + r \/ lam = 11 * s - r)
  /\ 0 < 11 * s - r < 11 * s + r.
Proof.
  intros s r P0.
  destruct sqrt_30 as (Hs & Hspos). fold s in Hs, Hspos.
  assert (Hr : r * r = 2530) by (apply sqrt_sqrt; lra).
  assert (Hrpos : 0 < r) by (apply sqrt_lt_R0; lra).
  assert (Hcare : care_residual F_template G_template Q_weight R_inverse P0
                  = zeros 12 12) by (apply block_scalar_care; nra).
  assert (Hsym : symmetric P0) by apply block_scalar_symmetric.
  assert (Hpsd : positive_semidefinite 12 P0) by (apply block_scalar_psd; nra).
  split; [exact Hcare|]. split; [reflexivity|]. split; [exact Hsym|].
  split; [apply care_positive_definite; auto|].
  split.
  - intros lam. split.
    + intros H. apply block_scalar_eigenvalue_inv in H.
      assert (Hf : (lam - (11 * s + r)) * (lam - (11 * s - r)) = 0) by nra.
      destruct (Rmult_integral _ _ Hf); [left|right]; lra.
    + intros [-> | ->]; apply block_scalar_eigenvalue; try lra; nra.
  - split; [|lra].
    assert (H : r * r < (11 * s) * (11 * s)) by nra.
    destruct (Rlt_le_dec r (11 * s)) as [Hlt|Hge]; [lra|]. nra.
Qed.

(** ** The rate of the certificate *)

Lemma fold_left_Rmax_ge (l : vec) (a x : R) :
  In x (a :: l) -> x <= fold_left Rmax l a.
Proof.
  revert a x. induction l as [|b l IH]; intros a x H; simpl.
  - destruct H as [->|[]]. lra.
  - assert (Hab : Rmax a b <= fold_left Rmax l (Rmax a b))
      by (apply IH; now left).
    destruct H as [->|[->|H]].
    + pose proof (Rmax_l x b). lra.
    + pose proof (Rmax_r a x). lra.
    + apply IH. now right.
Qed.

Lemma np_max_ge (l : vec) (m x : R) : np_max l = Ok m -> In x l -> x <= m.
Proof.
  destruct l as [|a l]; [discriminate|]. intros H Hx.
  injection H as <-. now apply fold_left_Rmax_ge.
Qed.

Section Rate.

Variable ContinuousAlgebraicRiccatiEquation : mat -> mat -> mat -> mat -> res mat.
Variable eigvals : mat -> vec.

Hypothesis Hcare : care_contract ContinuousAlgebraicRiccatiEquation.
Hypothesis HeigQ : eigvals_contract eigvals Q_weight.
Hypothesis HeigP :
  forall P0,
    ContinuousAlgebraicRiccatiEquation F_template G_template Q_weight R_weight
    = Ok P0 ->
    eigvals_contract eigvals P0.

(** X16. The rate [gamma] stored by [__init__] is the smallest of the
    ratios of the eigenvalue [100] of [Q] to the eigenvalues computed for
    [P]: [gamma * lam <= 100] for each of them, with equality for one. *)
Theorem gamma_is_the_smallest_ratio :
  exists self,
    __init__ ContinuousAlgebraicRiccatiEquation eigvals = Ok self
    /\ (forall lam, In lam (eigvals (P self)) -> gamma self * lam <= 100)
    /\ (exists lam,
          In lam (eigvals (P self)) /\ eigenvalue 12 (P self) lam
          /\ gamma self * lam = 100).
Proof using Hcare HeigQ HeigP.
  destruct Hcare as (P0 & HP0 & Hshape & Hsym & Hpsd & Hres).
  pose proof (care_positive_definite P0 Hshape Hsym Hpsd Hres) as Hpd.
  destruct HeigQ as (HQne & HQall).
  destruct (HeigP P0 HP0) as (HPne & HPall).
  destruct (np_min_In _ HQne) as (lmin & Hmin & Hmin_in).
  destruct (np_max_In _ HPne) as (lmax & Hmax & Hmax_in).
  rewrite Forall_forall in HQall, HPall.
  assert (Hl : lmin = 100) by (apply eigenvalue_Q_weight, HQall, Hmin_in).
  assert (Hm : 0 < lmax)
    by (apply (eigenvalue_positive P0); [exact Hpd|apply HPall, Hmax_in]).
  exists (mkController F_template G_template P0 (lmin / lmax)
            None None None None).
  split.
  { unfold __init__. rewrite HP0. cbn [rbind]. rewrite Hmin. cbn [rbind].
    rewrite Hmax. reflexivity. }
  cbn [P gamma]. rewrite Hl.
  assert (Hg : 100 / lmax * lmax = 100) by (field; lra).
  assert (Hgpos : 0 < 100 / lmax) by (apply Rdiv_lt_0_compat; lra).
  split.
  - intros lam Hlam. pose proof (np_max_ge _ _ _ Hmax Hlam) as Hle.
    rewrite <- Hg at 2. apply Rmult_le_compat_l; lra.
  - exists lmax. split; [exact Hmax_in|]. split; [apply HPall, Hmax_in|exact Hg].
Qed.

End Rate.

(** ** The further properties at the example tick *)

Lemma example_eta_12 : length (Example.x_tilde_ex ++ repeat 0 6) = 12%nat.
Proof. reflexivity. Qed.

Lemma binary_form_zero (x y : R) :
  0 <= 2 * x * x + 2 * x * y + y * y
  /\ (2 * x * x + 2 * x * y + y * y = 0 -> x = 0 /\ y = 0).
Proof.
  replace (2 * x * x + 2 * x * y + y * y) with (x * x + (x + y) * (x + y))
    by ring.
  pose proof (Rle_0_sqr x) as Hx. pose proof (Rle_0_sqr (x + y)) as Hxy.
  unfold Rsqr in *. split; [lra|]. intros H.
  assert (H1 : x * x = 0) by lra. assert (H2 : (x + y) * (x + y) = 0) by lra.
  apply Rmult_integral in H1. apply Rmult_integral in H2. lra.
Qed.

Lemma example_P_form (x0 x1 x2 x3 x4 x5 y0 y1 y2 y3 y4 y5 : R) :
  dotR [x0; x1; x2; x3; x4; x5; y0; y1; y2; y3; y4; y5]
    (matvecR Example.P_ex [x0; x1; x2; x3; x4; x5; y0; y1; y2; y3; y4; y5]) =
  (2 * x0 * x0 + 2 * x0 * y0 + y0 * y0)
  + (2 * x1 * x1 + 2 * x1 * y1 + y1 * y1)
  + (2 * x2 * x2 + 2 * x2 * y2 + y2 * y2)
  + (2 * x3 * x3 + 2 * x3 * y3 + y3 * y3)
  + (2 * x4 * x4 + 2 * x4 * y4 + y4 * y4)
  + (2 * x5 * x5 + 2 * x5 * y5 + y5 * y5).
Proof. vm_compute. ring. Qed.

(** The certificate of the example controller is positive-definite. *)
Lemma example_P_positive_definite : positive_definite 12 Example.P_ex.
Proof.
  intros x Hx Hx0.
  destruct (length_12 x Hx)
    as (x0 & x1 & x2 & x3 & x4 & x5 & y0 & y1 & y2 & y3 & y4 & y5 & ->).
  rewrite example_P_form.
  destruct (binary_form_zero x0 y0) as (N0 & Z0).
  destruct (binary_form_zero x1 y1) as (N1 & Z1).
  destruct (binary_form_zero x2 y2) as (N2 & Z2).
  destruct (binary_form_zero x3 y3) as (N3 & Z3).
  destruct (binary_form_zero x4 y4) as (N4 & Z4).
  destruct (binary_form_zero x5 y5) as (N5 & Z5).
  match goal with |- 0 < ?t => destruct (Rle_lt_dec t 0) as [Hle|Hlt] end;
    [|exact Hlt].
  exfalso. apply Hx0.
  destruct Z0 as (-> & ->); [lra|]. destruct Z1 as (-> & ->); [lra|].
  destruct Z2 as (-> & ->); [lra|]. destruct Z3 as (-> & ->); [lra|].
  destruct Z4 as (-> & ->); [lra|]. destruct Z5 as (-> & ->); [lra|].
  reflexivity.
Qed.

Lemma example_flight_run :
  exists self',
    ControlLaw Example.CalcRpyDt Example.CalcAngVel Example.Solve Example.plant
      Example.flight Example.q Example.v Example.controller =
    (self', Raise ValueError).
Proof.
  destruct (tick_task_space Example.CalcRpyDt Example.CalcAngVel Example.plant
              Example.flight Example.v example_flight_wf)
    as (rpyd & rn & rnn & _ & _ & _ & Hts).
  destruct (swing_tick_raises Example.CalcRpyDt Example.CalcAngVel
              Example.Solve Example.plant Example.flight Example.q Example.v
              example_flight_wf Example.controller example_controller_wf
              _ Hts eq_refl) as (Hrun & _).
  eexists. exact Hrun.
Qed.

Lemma AddVdotCost_costs_the_linear_part_of_Vdot_witness :
  exists a self',
    AddVdotCost Example.x_tilde_ex (repeat 0 6) (eye 6) (new_vars n_vd 6) 1
      (set_mp Example.controller empty_program) = (self', Ok tt)
    /\ mp self' = Some (add_cost empty_program (LinearCost a 0 (new_vars n_vd 6)))
    /\ length a = 6%nat.
Proof.
  destruct (AddVdotCost_costs_the_linear_part_of_Vdot
              (set_mp Example.controller empty_program) empty_program
              Example.x_tilde_ex (repeat 0 6) (eye 6) (new_vars n_vd 6) 1
              eq_refl example_program_wf eq_refl eq_refl)
    as (a & self' & Hrun & Hmp & _ & Hlen & _).
  exists a, self'. split; [exact Hrun|]. split; [exact Hmp|exact Hlen].
Defined.

Lemma CLF_builders_reject_other_lengths_witness :
  AddVdotCost (repeat 0 9) (repeat 0 9) (eye 6) (new_vars n_vd 6) 1
    (set_mp Example.controller empty_program) =
  (set_mp Example.controller empty_program, Raise ValueError)
  /\ AddVdotConstraint (repeat 0 9) (repeat 0 9) (eye 6) (new_vars n_vd 6)
       (repeat 0 6) (repeat 0 6) [(n_delta, 0%nat)]
       (set_mp Example.controller empty_program) =
     (set_mp Example.controller empty_program, Raise ValueError).
Proof.
  apply (CLF_builders_reject_other_lengths
           (set_mp Example.controller empty_program)
           (repeat 0 9) (repeat 0 9) (eye 6) (new_vars n_vd 6)
           (repeat 0 6) (repeat 0 6) [(n_delta, 0%nat)] 1 example_program_wf).
  simpl. lia.
Defined.

Lemma slack_never_relaxes_witness :
  holds (7 / 10) 0 Example.answer
    (clf_constraint Example.controller (Example.x_tilde_ex ++ repeat 0 6)
       (eye 6) (repeat 0 6) (repeat 0 6) (new_vars n_vd 6) [(n_delta, 0%nat)])
  /\ holds (7 / 10) 0 Example.answer (slack_constraint [(n_delta, 0%nat)]).
Proof.
  apply (proj2 (slack_never_relaxes Example.controller
                  (Example.x_tilde_ex ++ repeat 0 6) (eye 6) (new_vars n_vd 6)
                  (repeat 0 6) (repeat 0 6) (n_delta, 0%nat) (7 / 10) 0
                  Example.answer example_controller_wf example_eta_12
                  eq_refl eq_refl eq_refl)).
  - evaluate. lra.
  - reflexivity.
Defined.

Lemma template_is_a_double_integrator_witness :
  map2 Rplus (matvecR F_template ([1; 2; 3; 4; 5; 6] ++ [7; 8; 9; 10; 11; 12]))
    (matvecR G_template [13; 14; 15; 16; 17; 18]) =
  [7; 8; 9; 10; 11; 12] ++ [13; 14; 15; 16; 17; 18].
Proof.
  exact (proj1 (proj2 (proj2
           (template_is_a_double_integrator [1; 2; 3; 4; 5; 6]
              [7; 8; 9; 10; 11; 12] [13; 14; 15; 16; 17; 18]
              eq_refl eq_refl eq_refl)))).
Defined.

Lemma wrong_number_of_contact_flags_witness :
  ControlLaw Example.CalcRpyDt Example.CalcAngVel Example.Solve Example.plant
    (Example.setpoint [true; true; true]) Example.q Example.v
    Example.controller =
  (Example.controller, Raise IndexError).
Proof.
  apply (wrong_number_of_contact_flags Example.CalcRpyDt Example.CalcAngVel
           Example.Solve Example.plant (Example.setpoint [true; true; true])
           Example.q Example.v Example.controller).
  - repeat constructor.
  - repeat constructor.
  - repeat constructor.
  - discriminate.
  - simpl. lia.
Defined.

Lemma rate_conversion_failure_is_passed_on_witness :
  ControlLaw Example.CalcRpyDt_locked Example.CalcAngVel Example.Solve
    Example.plant Example.stance Example.q Example.v Example.controller =
  (Example.controller, Raise RuntimeError).
Proof.
  pose proof example_stance_wf as (Htd & Hplant & _).
  apply (rate_conversion_failure_is_passed_on Example.CalcRpyDt_locked
           Example.CalcAngVel Example.Solve Example.plant Example.stance
           Example.q Example.v Example.controller RuntimeError Htd Hplant).
  reflexivity.
Defined.

Lemma contact_data_match_the_force_blocks_witness :
  exists ts,
    task_space Example.CalcRpyDt Example.CalcAngVel Example.plant
      Example.stance Example.v = Ok ts
    /\ length (J_c ts) = num_contact ts
    /\ length (force_vars (num_contact ts)) = num_contact ts.
Proof.
  destruct (contact_data_match_the_force_blocks Example.CalcRpyDt
              Example.CalcAngVel Example.plant Example.stance Example.v
              example_stance_wf)
    as (ts & Hts & _ & HJ & _ & Hf & _).
  exists ts. split; [exact Hts|]. split; [exact HJ|exact Hf].
Defined.

Lemma measured_velocity_is_J_v_witness :
  exists ts,
    task_space Example.CalcRpyDt Example.CalcAngVel Example.plant
      Example.flight Example.v = Ok ts
    /\ xd ts = matvecR (J ts) Example.v.
Proof.
  apply (measured_velocity_is_J_v Example.CalcRpyDt Example.CalcAngVel
           Example.plant Example.flight Example.v example_flight_wf).
  intros rpy omega rpyd H. unfold Example.CalcRpyDt in H.
  injection H as <-. reflexivity.
Defined.

Lemma swing_tick_is_rejected_witness :
  exists ts m,
    task_space Example.CalcRpyDt Example.CalcAngVel Example.plant
      Example.flight Example.v = Ok ts
    /\ ControlLaw Example.CalcRpyDt Example.CalcAngVel Example.Solve
         Example.plant Example.flight Example.q Example.v Example.controller =
       (set_mp Example.controller m, Raise ValueError)
    /\ constraints m = [].
Proof.
  destruct (swing_tick_is_rejected Example.CalcRpyDt Example.CalcAngVel
              Example.Solve Example.plant Example.flight Example.q Example.v
              example_flight_wf Example.controller example_controller_wf
              eq_refl)
    as (ts & m & Hts & _ & _ & Hrun & _ & Hnone).
  exists ts, m. split; [exact Hts|]. split; [exact Hrun|exact Hnone].
Defined.

Lemma accepted_tick_program_layout_witness :
  exists m,
    mp (fst Example.outcome) = Some m
    /\ length (decision_variables m) = 20%nat.
Proof.
  destruct (accepted_tick_program_layout Example.CalcRpyDt Example.CalcAngVel
              Example.Solve Example.plant Example.stance Example.q Example.v
              example_stance_wf Example.controller example_controller_wf
              (fst Example.outcome) [0] example_run)
    as (_ & _ & ts & m & _ & _ & _ & Hm & _ & Hvars).
  exists m. split; [exact Hm|exact Hvars].
Defined.

Lemma raising_tick_keeps_old_diagnostics_witness :
  exists self',
    ControlLaw Example.CalcRpyDt Example.CalcAngVel Example.Solve Example.plant
      Example.flight Example.q Example.v Example.controller =
    (self', Raise ValueError)
    /\ V self' = None /\ err self' = None /\ Vdot self' = None.
Proof.
  destruct example_flight_run as (self' & Hrun).
  destruct (raising_tick_keeps_old_diagnostics Example.CalcRpyDt
              Example.CalcAngVel Example.Solve Example.plant Example.flight
              Example.q Example.v example_flight_wf Example.controller
              example_controller_wf self' ValueError Hrun)
    as (HV & Herr & HVdot & _).
  exists self'. split; [exact Hrun|].
  split; [exact HV|]. split; [exact Herr|exact HVdot].
Defined.

Lemma tick_ignores_earlier_state_witness :
  snd (ControlLaw Example.CalcRpyDt Example.CalcAngVel Example.Solve
         Example.plant Example.stance Example.q Example.v Example.controller) =
  snd (ControlLaw Example.CalcRpyDt Example.CalcAngVel Example.Solve
         Example.plant Example.stance Example.q Example.v
         (set_log (set_mp Example.controller empty_program) 1 2 3)).
Proof.
  destruct (tick_ignores_earlier_state Example.CalcRpyDt Example.CalcAngVel
              Example.Solve Example.plant Example.stance Example.q Example.v
              example_stance_wf Example.controller example_controller_wf
              (set_log (set_mp Example.controller empty_program) 1 2 3))
    as (Hres & _).
  - repeat split.
  - exact Hres.
Defined.

Lemma accepted_tick_strictly_decreases_V_witness :
  exists Vv Vd,
    V (fst Example.outcome) = Some Vv
    /\ Vdot (fst Example.outcome) = Some Vd
    /\ 0 <= Vv /\ Vd <= 0.
Proof.
  destruct (accepted_tick_strictly_decreases_V Example.CalcRpyDt
              Example.CalcAngVel Example.Solve Example.plant Example.stance
              Example.q Example.v example_stance_wf Example.controller
              example_controller_wf (7 / 10) 0 (fst Example.outcome) [0]
              example_P_positive_definite Rlt_0_1 example_run example_feasible)
    as (ts & Vv & Vd & _ & HV & HVd & Hpos & Hneg & _).
  exists Vv, Vd. split; [exact HV|]. split; [exact HVd|].
  split; [exact Hpos|exact Hneg].
Defined.

Lemma gamma_is_the_smallest_ratio_witness :
  exists self,
    __init__ Example.care Example.eigvals = Ok self
    /\ (forall lam, In lam (Example.eigvals (P self)) -> gamma self * lam <= 100).
Proof.
  destruct (gamma_is_the_smallest_ratio Example.care Example.eigvals
              example_care_contract example_eigvals_contract_Q
              example_eigvals_contract_P)
    as (self & Hinit & Hle & _).
  exists self. split; [exact Hinit|exact Hle].
Defined.

(** ** The stabilizing solution of the Riccati equation is unique *)

Lemma map2_minus_zero (u w : vec) :
  length u = length w ->
  map2 Rminus u w = repeat 0 (length u) -> u = w.
Proof.
  revert w. induction u as [|a u IH]; intros [|b w] H E; simpl in *;
    try discriminate; auto.
  injection E as E1 E2. f_equal; [lra|]. apply IH; [lia|exact E2].
Qed.

(** Two arrays of one length that pair alike with every array are equal. *)
Lemma vec_ext (u w : vec) :
  length u = length w ->
  (forall x, length x = length u -> dotR u x = dotR w x) -> u = w.
Proof.
  intros Hlen H.
  assert (Hd : length (map2 Rminus u w) = length u)
    by (rewrite length_map2, <- Hlen; apply Nat.min_id).
  apply map2_minus_zero; [exact Hlen|].
  rewrite <- Hd. apply dotR_self_zero.
  rewrite dotR_minus_l by exact Hlen.
  rewrite (H _ Hd). lra.
Qed.

Lemma mat_ext (r c : nat) (A B : mat) :
  has_shape r c A = true -> has_shape r c B = true ->
  (forall x, length x = c -> matvecR A x = matvecR B x) -> A = B.
Proof.
  intros HA HB. apply has_shape_spec in HA, HB.
  destruct HA as (HlA & HA), HB as (HlB & HB). subst r.
  revert B HlB HB. induction HA as [|a A Ha HA IH]; intros [|b B] HlB HB H;
    simpl in *; try discriminate; auto.
  inversion HB as [|? ? Hb HB']; subst.
  f_equal.
  - apply vec_ext; [congruence|]. intros x Hx.
    specialize (H x Hx). now injection H.
  - apply IH; [lia|exact HB'|]. intros x Hx.
    specialize (H x Hx). now injection H.
Qed.

Lemma matvecR_minus (A : mat) (v w : vec) :
  length v = length w ->
  matvecR A (map2 Rminus v w) = map2 Rminus (matvecR A v) (matvecR A w).
Proof.
  intros H. induction A as [|row A IH]; simpl; auto.
  now rewrite IH, dotR_minus_r.
Qed.

(** [y . (A' x) = (A y) . x]. *)
Lemma dotR_transpose (c : nat) (A : mat) (x y : vec) :
  Forall (fun row => length row = c) A ->
  dotR (matvecR (transpose c A) y) x = dotR y (matvecR A x).
Proof.
  intros HA. rewrite (matvecR_transpose c A y HA). now apply dotR_vecmatR.
Qed.

(** The bilinear form of the left-hand side of the Riccati equation. *)
Lemma care_bilinear (A : mat) (x y : vec) :
  has_shape 12 12 A = true ->
  dotR y (matvecR
            (care_residual F_template G_template Q_weight R_inverse A) x) =
  dotR y (matvecR (transpose 12 F_template) (matvecR A x))
  + dotR y (matvecR A (matvecR F_template x))
  - dotR y (matvecR A
              (matvecR G_template
                 (matvecR R_inverse
                    (matvecR (transpose 6 G_template) (matvecR A x)))))
  + dotR y (matvecR Q_weight x).
Proof.
  intros HA.
  assert (HF : has_shape 12 12 F_template = true) by reflexivity.
  assert (HG : has_shape 12 6 G_template = true) by reflexivity.
  assert (HQ : has_shape 12 12 Q_weight = true) by reflexivity.
  assert (HR : has_shape 6 6 R_inverse = true) by reflexivity.
  assert (HFt : has_shape 12 12 (transpose 12 F_template) = true)
    by (now apply shape_transpose).
  assert (HGt : has_shape 6 12 (transpose 6 G_template) = true)
    by (now apply shape_transpose).
  unfold care_residual.
  change (ncols F_template) with 12%nat. change (ncols G_template) with 6%nat.
  assert (H1 : has_shape 12 12 (mmulR (transpose 12 F_template) A) = true)
    by (apply (shape_mmulR 12 11); [apply length_transpose|exact HA]).
  assert (H2 : has_shape 12 12 (mmulR A F_template) = true)
    by (apply (shape_mmulR 12 11); [apply (shape_len _ _ _ HA)|exact HF]).
  assert (H3a : has_shape 12 6 (mmulR A G_template) = true)
    by (apply (shape_mmulR 12 11); [apply (shape_len _ _ _ HA)|exact HG]).
  assert (H3b : has_shape 12 6 (mmulR (mmulR A G_template) R_inverse) = true)
    by (apply (shape_mmulR 12 5); [apply (shape_len _ _ _ H3a)|exact HR]).
  assert (H3c : has_shape 12 12
                  (mmulR (mmulR (mmulR A G_template) R_inverse)
                     (transpose 6 G_template)) = true)
    by (apply (shape_mmulR 12 5); [apply (shape_len _ _ _ H3b)|exact HGt]).
  assert (H3 : has_shape 12 12
                 (mmulR (mmulR (mmulR (mmulR A G_template) R_inverse)
                           (transpose 6 G_template)) A) = true)
    by (apply (shape_mmulR 12 11); [apply (shape_len _ _ _ H3c)|exact HA]).
  pose proof (shape_madd _ _ _ _ H1 H2) as H12.
  pose proof (shape_msub _ _ _ _ H12 H3) as H123.
  rewrite (matvecR_madd _ _ _ _ _ H123 HQ).
  rewrite (matvecR_msub _ _ _ _ _ H12 H3).
  rewrite (matvecR_madd _ _ _ _ _ H1 H2).
  rewrite !matvecR_mmulR by (eapply rect_of_shape; eassumption).
  rewrite dotR_plus_r, dotR_minus_r, dotR_plus_r; [ring|..];
    rewrite ?length_map2, !length_matvecR, ?length_transpose,
      ?(shape_len _ _ _ HA); reflexivity.
Qed.

(** A solution of the Riccati equation, paired with two arrays. *)
Lemma care_weak (A : mat) (x y : vec) :
  has_shape 12 12 A = true ->
  care_residual F_template G_template Q_weight R_inverse A = zeros 12 12 ->
  length x = 12%nat -> length y = 12%nat ->
  dotR (matvecR F_template y) (matvecR A x)
  + dotR y (matvecR A (matvecR F_template x))
  - dotR y (matvecR A
              (matvecR G_template
                 (matvecR R_inverse
                    (matvecR (transpose 6 G_template) (matvecR A x)))))
  + 100 * dotR y x = 0.
Proof.
  intros HA Hres Hx Hy.
  pose proof (care_bilinear A x y HA) as H.
  rewrite Hres, matvecR_zeros, dotR_repeat0_r in H.
  rewrite (matvecR_Q_weight x Hx), dotR_scale_r in H.
  rewrite (dotR_comm y (matvecR (transpose 12 F_template) _)) in H.
  rewrite (dotR_transpose 12 F_template) in H
    by (apply (shape_rows 12); reflexivity).
  rewrite (dotR_comm (matvecR A x)) in H. lra.
Qed.

(** The closed loop applied to an array. *)
Lemma closed_loop_action (A : mat) (x : vec) :
  has_shape 12 12 A = true ->
  matvecR (closed_loop F_template G_template R_inverse A) x =
  map2 Rminus (matvecR F_template x)
    (matvecR G_template
       (matvecR R_inverse
          (matvecR (transpose 6 G_template) (matvecR A x)))).
Proof.
  intros HA. unfold closed_loop. change (ncols G_template) with 6%nat.
  assert (HF : has_shape 12 12 F_template = true) by reflexivity.
  assert (HR : has_shape 6 6 R_inverse = true) by reflexivity.
  assert (HGt : has_shape 6 12 (transpose 6 G_template) = true)
    by (now apply shape_transpose).
  assert (H1 : has_shape 12 6 (mmulR G_template R_inverse) = true)
    by (apply (shape_mmulR 12 5); [reflexivity|exact HR]).
  assert (H2 : has_shape 12 12
                 (mmulR (mmulR G_template R_inverse) (transpose 6 G_template))
               = true)
    by (apply (shape_mmulR 12 5); [apply (shape_len _ _ _ H1)|exact HGt]).
  assert (H3 : has_shape 12 12
                 (mmulR (mmulR (mmulR G_template R_inverse)
                           (transpose 6 G_template)) A) = true)
    by (apply (shape_mmulR 12 11); [apply (shape_len _ _ _ H2)|exact HA]).
  rewrite (matvecR_msub _ _ _ _ _ HF H3).
  now rewrite !matvecR_mmulR by (eapply rect_of_shape; eassumption).
Qed.

Lemma shape_closed_loop (A : mat) :
  has_shape 12 12 A = true ->
  has_shape 12 12 (closed_loop F_template G_template R_inverse A) = true.
Proof.
  intros HA. unfold closed_loop. change (ncols G_template) with 6%nat.
  apply shape_msub; [reflexivity|].
  apply (shape_mmulR 12 11); [|exact HA].
  unfold mmulR. now rewrite !length_map.
Qed.

Lemma F_template_action (x0 x1 x2 x3 x4 x5 x6 x7 x8 x9 x10 x11 : R) :
  matvecR F_template [x0; x1; x2; x3; x4; x5; x6; x7; x8; x9; x10; x11] =
  [x6; x7; x8; x9; x10; x11; 0; 0; 0; 0; 0; 0].
Proof. vm_compute. entrywise ltac:(ring). Qed.

(** [G R^-1 G'] keeps the second half of an array. *)
Lemma gain_action (w0 w1 w2 w3 w4 w5 w6 w7 w8 w9 w10 w11 : R) :
  matvecR G_template
    (matvecR R_inverse
       (matvecR (transpose 6 G_template)
          [w0; w1; w2; w3; w4; w5; w6; w7; w8; w9; w10; w11])) =
  [0; 0; 0; 0; 0; 0; w6; w7; w8; w9; w10; w11].
Proof. vm_compute. entrywise ltac:(ring). Qed.

(** The closed loop of [[a I, b I], [b I, c I]], applied to an array. *)
Lemma closed_form_loop_action (a b c : R)
    (x0 x1 x2 x3 x4 x5 y0 y1 y2 y3 y4 y5 : R) :
  map2 Rminus
    (matvecR F_template [x0; x1; x2; x3; x4; x5; y0; y1; y2; y3; y4; y5])
    (matvecR G_template
       (matvecR R_inverse
          (matvecR (transpose 6 G_template)
             (matvecR (Example.block_scalar a b c)
                [x0; x1; x2; x3; x4; x5; y0; y1; y2; y3; y4; y5])))) =
  [y0; y1; y2; y3; y4; y5;
   - (b * x0 + c * y0); - (b * x1 + c * y1); - (b * x2 + c * y2);
   - (b * x3 + c * y3); - (b * x4 + c * y4); - (b * x5 + c * y5)].
Proof.
  rewrite block_scalar_matvecR, gain_action, F_template_action.
  cbn [map2]. repeat (f_equal; try ring).
Qed.

(** [P S] is self-adjoint up to the order of its factors, for the closed
    form [P] and [S = G R^-1 G']. *)
Lemma closed_form_gain_adjoint (a b c : R) (y w : vec) :
  length y = 12%nat -> length w = 12%nat ->
  dotR y (matvecR (Example.block_scalar a b c)
            (matvecR G_template
               (matvecR R_inverse (matvecR (transpose 6 G_template) w)))) =
  dotR (matvecR G_template
          (matvecR R_inverse
             (matvecR (transpose 6 G_template)
                (matvecR (Example.block_scalar a b c) y)))) w.
Proof.
  intros Hy Hw.
  destruct (length_12 y Hy)
    as (y0 & y1 & y2 & y3 & y4 & y5 & y6 & y7 & y8 & y9 & y10 & y11 & ->).
  destruct (length_12 w Hw)
    as (w0 & w1 & w2 & w3 & w4 & w5 & w6 & w7 & w8 & w9 & w10 & w11 & ->).
  rewrite gain_action, !block_scalar_matvecR, gain_action.
  cbn [dotR]. ring.
Qed.

(** The closed form is self-adjoint. *)
Lemma closed_form_adjoint (a b c : R) (y w : vec) :
  length y = 12%nat -> length w = 12%nat ->
  dotR y (matvecR (Example.block_scalar a b c) w) =
  dotR (matvecR (Example.block_scalar a b c) y) w.
Proof.
  intros Hy Hw.
  destruct (length_12 y Hy)
    as (y0 & y1 & y2 & y3 & y4 & y5 & y6 & y7 & y8 & y9 & y10 & y11 & ->).
  destruct (length_12 w Hw)
    as (w0 & w1 & w2 & w3 & w4 & w5 & w6 & w7 & w8 & w9 & w10 & w11 & ->).
  rewrite !block_scalar_matvecR. cbn [dotR]. ring.
Qed.

(** The closed loop [A] of the closed form satisfies
    [A A + c A + b I = 0]. *)
Lemma closed_form_loop_polynomial (a b c : R) (y w : vec) :
  length y = 12%nat -> length w = 12%nat ->
  let A y := map2 Rminus (matvecR F_template y)
               (matvecR G_template
                  (matvecR R_inverse
                     (matvecR (transpose 6 G_template)
                        (matvecR (Example.block_scalar a b c) y)))) in
  dotR (A (A y)) w = - c * dotR (A y) w - b * dotR y w.
Proof.
  intros Hy Hw A. unfold A.
  destruct (length_12 y Hy)
    as (y0 & y1 & y2 & y3 & y4 & y5 & y6 & y7 & y8 & y9 & y10 & y11 & ->).
  destruct (length_12 w Hw)
    as (w0 & w1 & w2 & w3 & w4 & w5 & w6 & w7 & w8 & w9 & w10 & w11 & ->).
  rewrite !closed_form_loop_action. cbn [dotR]. ring.
Qed.

Section Uniqueness.

Variable P0 : mat.
Variable s : R.

Hypothesis Hs : s * s = 30.
Hypothesis Hspos : 0 < s.
Hypothesis Hshape : has_shape 12 12 P0 = true.
Hypothesis Hres :
  care_residual F_template G_template Q_weight R_inverse P0 = zeros 12 12.
Hypothesis Hstab : stabilizing F_template G_template R_inverse P0.

Local Abbreviation Ps := (Example.P_closed s).
Local Abbreviation Am := (closed_loop F_template G_template R_inverse P0).
Local Abbreviation At := (transpose 12 (closed_loop F_template G_template R_inverse P0)).
Local Abbreviation gain v :=
  (matvecR G_template
     (matvecR R_inverse (matvecR (transpose 6 G_template) v))).
Local Abbreviation Astar y :=
  (map2 Rminus (matvecR F_template y) (gain (matvecR Ps y))).
Local Abbreviation D y x := (dotR y (matvecR P0 x) - dotR y (matvecR Ps x)).
Local Abbreviation row y := (map2 Rminus (vecmatR 12 y P0) (vecmatR 12 y Ps)).

Lemma closed_form_solves :
  care_residual F_template G_template Q_weight R_inverse Ps = zeros 12 12.
Proof using Hs. apply block_scalar_care; nra. Qed.

Lemma length_Am (x : vec) : length (matvecR Am x) = 12%nat.
Proof using Hshape.
  rewrite length_matvecR. apply (shape_len _ _ _ (shape_closed_loop P0 Hshape)).
Qed.

Lemma length_Astar (y : vec) : length (Astar y) = 12%nat.
Proof using Type. rewrite length_map2, !length_matvecR. reflexivity. Qed.

(** The difference of the two solutions satisfies a Sylvester equation. *)
Lemma sylvester (x y : vec) :
  length x = 12%nat -> length y = 12%nat ->
  D (Astar y) x + D y (matvecR Am x) = 0.
Proof using Hs Hshape Hres.
  intros Hx Hy.
  assert (HPs : has_shape 12 12 Ps = true) by apply block_scalar_shape.
  rewrite (closed_loop_action P0 x Hshape).
  assert (Hu : length (matvecR P0 x) = 12%nat)
    by (now rewrite length_matvecR, (shape_len _ _ _ Hshape)).
  assert (Hus : length (matvecR Ps x) = 12%nat)
    by (now rewrite length_matvecR).
  pose proof (care_weak P0 x y Hshape Hres Hx Hy) as E1.
  pose proof (care_weak Ps x y HPs closed_form_solves Hx Hy) as E2.
  pose proof (closed_form_gain_adjoint (20 * s) 10 (2 * s) y
                (matvecR P0 x) Hy Hu) as A1.
  pose proof (closed_form_gain_adjoint (20 * s) 10 (2 * s) y
                (matvecR Ps x) Hy Hus) as A2.
  change (Example.block_scalar (20 * s) 10 (2 * s)) with Ps in A1, A2.
  rewrite !(dotR_minus_l (matvecR F_template y))
    by (now rewrite !length_matvecR).
  rewrite !matvecR_minus by (now rewrite !length_matvecR).
  rewrite !dotR_minus_r
    by (rewrite !length_matvecR; first [reflexivity
                                       |now rewrite (shape_len _ _ _ Hshape)]).
  lra.
Qed.

Lemma D_polynomial (x y : vec) :
  length x = 12%nat -> length y = 12%nat ->
  D y (matvecR Am (matvecR Am x)) = 2 * s * D y (matvecR Am x) - 10 * D y x.
Proof using Hs Hshape Hres.
  intros Hx Hy.
  assert (Hu : length (matvecR P0 x) = 12%nat)
    by (now rewrite length_matvecR, (shape_len _ _ _ Hshape)).
  assert (Hus : length (matvecR Ps x) = 12%nat)
    by (now rewrite length_matvecR).
  pose proof (sylvester x y Hx Hy) as S1.
  pose proof (sylvester x (Astar y) Hx (length_Astar y)) as S2.
  pose proof (sylvester (matvecR Am x) y (length_Am x) Hy) as S3.
  pose proof (closed_form_loop_polynomial (20 * s) 10 (2 * s) y
                (matvecR P0 x) Hy Hu) as Q1.
  pose proof (closed_form_loop_polynomial (20 * s) 10 (2 * s) y
                (matvecR Ps x) Hy Hus) as Q2.
  cbv zeta in Q1, Q2.
  change (Example.block_scalar (20 * s) 10 (2 * s)) with Ps in Q1, Q2.
  assert (S1s : s * (D (Astar y) x + D y (matvecR Am x)) = 0)
    by (rewrite S1; ring).
  lra.
Qed.

Lemma D_row (x y : vec) :
  D y x = dotR (row y) x.
Proof using Hshape.
  rewrite dotR_minus_l.
  - rewrite !(dotR_vecmatR 12); [reflexivity| |].
    + apply (shape_rows 12), block_scalar_shape.
    + apply (shape_rows _ _ _ Hshape).
  - rewrite !length_vecmatR; [reflexivity| |].
    + apply (shape_rows 12), block_scalar_shape.
    + apply (shape_rows _ _ _ Hshape).
Qed.

Lemma length_row (y : vec) : length (row y) = 12%nat.
Proof using Hshape.
  rewrite length_map2, !length_vecmatR; [reflexivity| |].
  - apply (shape_rows 12), block_scalar_shape.
  - apply (shape_rows _ _ _ Hshape).
Qed.

Lemma dotR_At (d x : vec) :
  dotR (matvecR At d) x = dotR d (matvecR Am x).
Proof using Hshape.
  apply dotR_transpose, (shape_rows _ _ _ (shape_closed_loop P0 Hshape)).
Qed.

Lemma length_At (d : vec) : length (matvecR At d) = 12%nat.
Proof using Type. now rewrite length_matvecR, length_transpose. Qed.

(** No array is a left eigenvector of the closed loop for a number
    [r >= 0]. *)
Lemma left_kernel (r : R) (e : vec) :
  0 <= r -> length e = 12%nat -> matvecR At e = scale r e -> e = repeat 0 12.
Proof using Hstab.
  intros Hr He Heq.
  destruct (list_eq_dec Req_dec_T e (repeat 0 12)) as [Hz|Hnz]; [exact Hz|].
  exfalso. destruct (Hstab r Hr) as (_ & Hleft). apply Hleft.
  exists e. auto.
Qed.

Lemma row_zero (y : vec) : length y = 12%nat -> row y = repeat 0 12.
Proof using Hs Hspos Hshape Hres Hstab.
  intros Hy.
  remember (row y) as d eqn:Hd.
  assert (Hlen : length d = 12%nat) by (rewrite Hd; apply length_row).
  assert (Ht : sqrt 20 * sqrt 20 = 20) by (apply sqrt_sqrt; lra).
  assert (Htpos : 0 < sqrt 20) by (apply sqrt_lt_R0; lra).
  remember (sqrt 20) as t eqn:Et. clear Et.
  assert (Hts : t < s) by nra.
  assert (Hpoly : forall x, length x = 12%nat ->
            dotR (matvecR At (matvecR At d)) x =
            2 * s * dotR (matvecR At d) x - 10 * dotR d x).
  { intros x Hx. rewrite !dotR_At.
    pose proof (D_polynomial x y Hx Hy) as H.
    rewrite !D_row in H. rewrite <- Hd in H. exact H. }
  remember (map2 Rminus (matvecR At d) (scale (s + t) d)) as e eqn:He.
  assert (Hle : length e = 12%nat)
    by (rewrite He, length_map2, length_At, length_scale, Hlen; reflexivity).
  assert (Hee : matvecR At e = scale (s - t) e).
  { apply vec_ext; [now rewrite length_At, length_scale|].
    intros x Hx. rewrite length_At in Hx.
    rewrite dotR_At, dotR_scale_l. rewrite He.
    rewrite !dotR_minus_l by (now rewrite length_At, length_scale).
    rewrite !dotR_scale_l, <- !dotR_At.
    rewrite (Hpoly x Hx).
    replace ((s - t) * (dotR (matvecR At d) x - (s + t) * dotR d x))
      with ((s - t) * dotR (matvecR At d) x - (s * s - t * t) * dotR d x)
      by ring.
    rewrite Hs, Ht. ring. }
  apply (left_kernel (s - t) e) in Hee; [|lra|exact Hle].
  assert (Hdd : matvecR At d = scale (s + t) d).
  { apply map2_minus_zero; [now rewrite length_At, length_scale|].
    rewrite length_At. rewrite <- He. exact Hee. }
  apply (left_kernel (s + t) d); [lra|exact Hlen|exact Hdd].
Qed.

(** A stabilizing solution of the Riccati equation of [__init__] is the
    closed form. *)
Lemma stabilizing_solution_unique : P0 = Ps.
Proof using Hs Hspos Hshape Hres Hstab.
  apply (mat_ext 12 12); [exact Hshape|apply block_scalar_shape|].
  intros x Hx.
  apply vec_ext; [now rewrite !length_matvecR, (shape_len _ _ _ Hshape)|].
  intros y Hy. rewrite length_matvecR, (shape_len _ _ _ Hshape) in Hy.
  pose proof (D_row x y) as H. rewrite (row_zero y Hy), dotR_repeat0_l in H.
  rewrite (dotR_comm (matvecR P0 x)), (dotR_comm (matvecR Ps x)). lra.
Qed.

End Uniqueness.

(** ** The closed form meets the contract of the solver *)

Lemma G_template_vblocks : G_template = Example.vblocks 0 1.
Proof. vm_compute. entrywise ltac:(ring). Qed.

Lemma blocks_ext (a b c d a' b' c' d' : R) :
  a = a' -> b = b' -> c = c' -> d = d' ->
  Example.blocks a b c d = Example.blocks a' b' c' d'.
Proof. now intros -> -> -> ->. Qed.

Lemma transpose_blocks (a b c d : R) :
  transpose 12 (Example.blocks a b c d) = Example.blocks a c b d.
Proof. vm_compute. entrywise ltac:(ring). Qed.

Lemma blocks_matvecR (p q r t : R)
    (x0 x1 x2 x3 x4 x5 y0 y1 y2 y3 y4 y5 : R) :
  matvecR (Example.blocks p q r t)
    [x0; x1; x2; x3; x4; x5; y0; y1; y2; y3; y4; y5] =
  [p * x0 + q * y0; p * x1 + q * y1; p * x2 + q * y2;
   p * x3 + q * y3; p * x4 + q * y4; p * x5 + q * y5;
   r * x0 + t * y0; r * x1 + t * y1; r * x2 + t * y2;
   r * x3 + t * y3; r * x4 + t * y4; r * x5 + t * y5].
Proof. vm_compute. entrywise ltac:(ring). Qed.

(** The closed loop of [[a I, b I], [b I, c I]] is
    [[0, I], [- b I, - c I]]. *)
Lemma closed_form_loop (a b c : R) :
  closed_loop F_template G_template R_inverse (Example.block_scalar a b c) =
  Example.blocks 0 1 (- b) (- c).
Proof.
  unfold closed_loop, Example.block_scalar.
  change (ncols G_template) with 6%nat.
  rewrite G_template_vblocks at 1.
  rewrite mmulR_vblocks_Rinv, mmulR_vblocks_Gt, mmulR_blocks.
  rewrite F_template_blocks, msub_blocks.
  apply blocks_ext; ring.
Qed.

(** A 2 by 2 system with positive [b] and non-negative [c] and [r] has
    only the zero solution. *)
Lemma pair_stable (p q b c r x y : R) :
  0 < b -> 0 <= c -> 0 <= r ->
  (p = r * x /\ - b * x - c * y = r * y /\ p = y)
  \/ (- b * y = r * x /\ x - c * y = r * y /\ p = q) ->
  x = 0 /\ y = 0.
Proof.
  intros Hb Hc Hr [(H1 & H2 & H3) | (H1 & H2 & _)].
  - assert (Hy : y = r * x) by lra.
    assert (H : (r * r + c * r + b) * x = 0) by (rewrite Hy in H2; lra).
    apply Rmult_integral in H. destruct H as [H|H]; [nra|].
    rewrite H in Hy. split; [exact H|lra].
  - assert (Hx : x = (r + c) * y) by lra.
    assert (H : (r * r + c * r + b) * y = 0) by (rewrite Hx in H1; lra).
    apply Rmult_integral in H. destruct H as [H|H]; [nra|].
    rewrite H in Hx. split; [lra|exact H].
Qed.

Lemma closed_form_stabilizing (a b c : R) :
  0 < b -> 0 <= c ->
  stabilizing F_template G_template R_inverse (Example.block_scalar a b c).
Proof.
  intros Hb Hc r Hr. rewrite closed_form_loop, transpose_blocks. split.
  - intros (x & Hx & Hx0 & Heq).
    destruct (length_12 x Hx)
      as (x0 & x1 & x2 & x3 & x4 & x5 & y0 & y1 & y2 & y3 & y4 & y5 & ->).
    rewrite blocks_matvecR in Heq. cbn [scale map] in Heq.
    injection Heq as E0 E1 E2 E3 E4 E5 E6 E7 E8 E9 E10 E11.
    apply Hx0.
    destruct (pair_stable y0 0 b c r x0 y0 Hb Hc Hr) as (-> & ->);
      [left; repeat split; lra|].
    destruct (pair_stable y1 0 b c r x1 y1 Hb Hc Hr) as (-> & ->);
      [left; repeat split; lra|].
    destruct (pair_stable y2 0 b c r x2 y2 Hb Hc Hr) as (-> & ->);
      [left; repeat split; lra|].
    destruct (pair_stable y3 0 b c r x3 y3 Hb Hc Hr) as (-> & ->);
      [left; repeat split; lra|].
    destruct (pair_stable y4 0 b c r x4 y4 Hb Hc Hr) as (-> & ->);
      [left; repeat split; lra|].
    destruct (pair_stable y5 0 b c r x5 y5 Hb Hc Hr) as (-> & ->);
      [left; repeat split; lra|].
    reflexivity.
  - intros (x & Hx & Hx0 & Heq).
    destruct (length_12 x Hx)
      as (x0 & x1 & x2 & x3 & x4 & x5 & y0 & y1 & y2 & y3 & y4 & y5 & ->).
    rewrite blocks_matvecR in Heq. cbn [scale map] in Heq.
    injection Heq as E0 E1 E2 E3 E4 E5 E6 E7 E8 E9 E10 E11.
    apply Hx0.
    destruct (pair_stable 0 0 b c r x0 y0 Hb Hc Hr) as (-> & ->);
      [right; repeat split; lra|].
    destruct (pair_stable 0 0 b c r x1 y1 Hb Hc Hr) as (-> & ->);
      [right; repeat split; lra|].
    destruct (pair_stable 0 0 b c r x2 y2 Hb Hc Hr) as (-> & ->);
      [right; repeat split; lra|].
    destruct (pair_stable 0 0 b c r x3 y3 Hb Hc Hr) as (-> & ->);
      [right; repeat split; lra|].
    destruct (pair_stable 0 0 b c r x4 y4 Hb Hc Hr) as (-> & ->);
      [right; repeat split; lra|].
    destruct (pair_stable 0 0 b c r x5 y5 Hb Hc Hr) as (-> & ->);
      [right; repeat split; lra|].
    reflexivity.
Qed.

(** ** The certificate built by the constructor *)

Lemma fold_left_Rmin_le (l : vec) (a x : R) :
  In x (a :: l) -> fold_left Rmin l a <= x.
Proof.
  revert a x. induction l as [|b l IH]; intros a x H; simpl.
  - destruct H as [->|[]]. lra.
  - assert (Hab : fold_left Rmin l (Rmin a b) <= Rmin a b)
      by (apply IH; now left).
    destruct H as [->|[->|H]].
    + pose proof (Rmin_l x b). lra.
    + pose proof (Rmin_r a x). lra.
    + apply IH. now right.
Qed.

Lemma np_min_le (l : vec) (m x : R) : np_min l = Ok m -> In x l -> m <= x.
Proof.
  destruct l as [|a l]; [discriminate|]. intros H Hx.
  injection H as <-. now apply fold_left_Rmin_le.
Qed.

(** The eigenvalues of the closed form. *)
Lemma closed_form_eigenvalues (s lam : R) :
  s * s = 30 ->
  eigenvalue 12 (Example.P_closed s) lam <->
  lam = 11 * s + sqrt 2530 \/ lam = 11 * s - sqrt 2530.
Proof.
  intros Hs.
  assert (Hr : sqrt 2530 * sqrt 2530 = 2530) by (apply sqrt_sqrt; lra).
  remember (sqrt 2530) as r eqn:Er. clear Er.
  split.
  - intros H. apply block_scalar_eigenvalue_inv in H.
    assert (Hf : (lam - (11 * s + r)) * (lam - (11 * s - r)) = 0) by nra.
    destruct (Rmult_integral _ _ Hf); [left|right]; lra.
  - intros [-> | ->]; apply block_scalar_eigenvalue; try lra; nra.
Qed.

Lemma example_eigvals_closed (s : R) :
  s * s = 30 ->
  Example.eigvals (Example.P_closed s) =
  [11 * s + sqrt 2530; 11 * s - sqrt 2530].
Proof.
  intros Hs. unfold Example.eigvals.
  change (nth 0 (nth 0 (Example.P_closed s) []) 0) with (20 * s * 1).
  change (nth 6 (nth 0 (Example.P_closed s) []) 0) with (10 * 1).
  change (nth 6 (nth 6 (Example.P_closed s) []) 0) with (2 * s * 1).
  cbv zeta.
  replace ((20 * s * 1 - 2 * s * 1) / 2 * ((20 * s * 1 - 2 * s * 1) / 2)
           + 10 * 1 * (10 * 1)) with 2530 by (field_simplify; nra).
  f_equal; [field|f_equal; field].
Qed.

Lemma example_riccati_contract : riccati_contract Example.care.
Proof.
  destruct sqrt_30 as (Hs & Hpos).
  exists (Example.P_closed (sqrt 30)).
  split; [reflexivity|]. split; [apply block_scalar_shape|].
  split; [apply block_scalar_care; nra|].
  apply closed_form_stabilizing; lra.
Qed.

Lemma example_spectrum_Q : spectrum_contract Example.eigvals Q_weight.
Proof.
  intros lam. rewrite example_eigvals_Q. split.
  - intros [<-|[<-|[]]]; apply eigenvalue_Q_weight_100.
  - intros H. apply eigenvalue_Q_weight in H. subst lam. now left.
Qed.

Lemma example_spectrum_P (P0 : mat) :
  Example.care F_template G_template Q_weight R_weight = Ok P0 ->
  spectrum_contract Example.eigvals P0.
Proof.
  intros H. injection H as <-. destruct sqrt_30 as (Hs & _).
  intros lam. rewrite (example_eigvals_closed _ Hs).
  rewrite (closed_form_eigenvalues _ lam Hs). simpl. intuition congruence.
Qed.

Section Certificate.

Variable ContinuousAlgebraicRiccatiEquation : mat -> mat -> mat -> mat -> res mat.
Variable eigvals : mat -> vec.

Hypothesis Hcare : riccati_contract ContinuousAlgebraicRiccatiEquation.
Hypothesis HeigQ : spectrum_contract eigvals Q_weight.
Hypothesis HeigP :
  forall P0,
    ContinuousAlgebraicRiccatiEquation F_template G_template Q_weight R_weight
    = Ok P0 ->
    spectrum_contract eigvals P0.

(** C4. With a Riccati solver that returns a stabilizing solution of the
    equation posed by [__init__], and an eigenvalue routine that returns the
    eigenvalues, construction succeeds; the certificate [P] stored is the
    array the solver returned, it is [[20 s I, 10 I], [10 I, 2 s I]] with
    [s] the square root of 30, symmetric and positive-definite; and the
    stored [gamma] is the smallest eigenvalue [100] of [Q] over the largest
    eigenvalue of [P], which is [11 s] plus the square root of 2530, hence
    positive. *)
Theorem certificate_positive_definite :
  exists self,
    __init__ ContinuousAlgebraicRiccatiEquation eigvals = Ok self
    /\ F self = F_template /\ G self = G_template
    /\ ContinuousAlgebraicRiccatiEquation F_template G_template Q_weight
         R_weight = Ok (P self)
    /\ P self = Example.P_closed (sqrt 30)
    /\ controller_wf self
    /\ symmetric (P self)
    /\ positive_definite 12 (P self)
    /\ (exists lmin lmax,
          np_min (eigvals Q_weight) = Ok lmin
          /\ np_max (eigvals (P self)) = Ok lmax
          /\ smallest_eigenvalue 12 Q_weight lmin
          /\ largest_eigenvalue 12 (P self) lmax
          /\ lmin = 100
          /\ lmax = 11 * sqrt 30 + sqrt 2530
          /\ gamma self = lmin / lmax)
    /\ 0 < gamma self.
Proof using Hcare HeigQ HeigP.
  destruct Hcare as (P0 & HP0 & Hshape & Hres & Hstab).
  destruct sqrt_30 as (Hs & Hspos).
  pose proof (stabilizing_solution_unique P0 (sqrt 30) Hs Hspos Hshape Hres
                Hstab) as HPs.
  pose proof (HeigP P0 HP0) as HspecP.
  assert (Hr : 0 < sqrt 2530) by (apply sqrt_lt_R0; lra).
  assert (Hsym : symmetric P0) by (rewrite HPs; apply block_scalar_symmetric).
  assert (Hpsd : positive_semidefinite 12 P0)
    by (rewrite HPs; apply block_scalar_psd; nra).
  pose proof (care_positive_definite P0 Hshape Hsym Hpsd Hres) as Hpd.
  (* the eigenvalues returned for Q *)
  assert (HQ100 : In 100 (eigvals Q_weight))
    by (apply HeigQ, eigenvalue_Q_weight_100).
  assert (HQne : eigvals Q_weight <> [])
    by (intros E; rewrite E in HQ100; contradiction).
  destruct (np_min_In _ HQne) as (lmin & Hmin & Hmin_in).
  assert (Hl : lmin = 100) by (apply eigenvalue_Q_weight, HeigQ, Hmin_in).
  (* the eigenvalues returned for P *)
  assert (Htop : eigenvalue 12 P0 (11 * sqrt 30 + sqrt 2530))
    by (rewrite HPs; apply (closed_form_eigenvalues _ _ Hs); now left).
  assert (HPtop : In (11 * sqrt 30 + sqrt 2530) (eigvals P0))
    by (apply HspecP, Htop).
  assert (HPne : eigvals P0 <> [])
    by (intros E; rewrite E in HPtop; contradiction).
  destruct (np_max_In _ HPne) as (lmax & Hmax & Hmax_in).
  assert (Hm : lmax = 11 * sqrt 30 + sqrt 2530).
  { pose proof (np_max_ge _ _ _ Hmax HPtop) as Hge.
    apply HspecP in Hmax_in. rewrite HPs in Hmax_in.
    apply (closed_form_eigenvalues _ _ Hs) in Hmax_in.
    destruct Hmax_in as [E|E]; lra. }
  exists (mkController F_template G_template P0 (lmin / lmax)
            None None None None).
  split.
  { unfold __init__. rewrite HP0. cbn [rbind]. rewrite Hmin. cbn [rbind].
    rewrite Hmax. reflexivity. }
  cbn [F G P gamma].
  split; [reflexivity|]. split; [reflexivity|].
  split; [exact HP0|]. split; [exact HPs|].
  split; [repeat split; auto|].
  split; [exact Hsym|]. split; [exact Hpd|].
  split.
  { exists lmin, lmax. split; [exact Hmin|]. split; [exact Hmax|].
    split.
    { split; [apply HeigQ, Hmin_in|].
      intros lam Hlam. apply eigenvalue_Q_weight in Hlam. lra. }
    split.
    { split; [rewrite Hm; exact Htop|].
      intros lam Hlam. apply HspecP in Hlam.
      exact (np_max_ge _ _ _ Hmax Hlam). }
    split; [exact Hl|]. split; [exact Hm|reflexivity]. }
  rewrite Hl, Hm. apply Rdiv_lt_0_compat; lra.
Qed.

End Certificate.

Lemma certificate_positive_definite_witness :
  exists self,
    __init__ Example.care Example.eigvals = Ok self
    /\ P self = Example.P_closed (sqrt 30)
    /\ positive_definite 12 (P self)
    /\ gamma self = 100 / (11 * sqrt 30 + sqrt 2530)
    /\ 0 < gamma self.
Proof.
  destruct (certificate_positive_definite Example.care Example.eigvals
              example_riccati_contract example_spectrum_Q
              example_spectrum_P)
    as (self & Hinit & _ & _ & _ & HP & _ & _ & Hpd & Hrate & Hgamma).
  destruct Hrate as (lmin & lmax & _ & _ & _ & _ & Hl & Hm & Hg).
  exists self. split; [exact Hinit|]. split; [exact HP|].
  split; [exact Hpd|]. split; [now rewrite Hg, Hl, Hm|exact Hgamma].
Defined.
